(** * NovaNews: the response normalizer and the refresh scheduler

    A shallow embedding of the string-scanning code of the AI-service client
    ([extractJson] and the fetch functions that shape its result, in the two
    revisions of [services/geminiService.ts] that the repository holds) and of
    the state handling of [App.tsx] (scan state, search history, refresh
    timer), followed by the properties the specification states about them. *)

From Stdlib Require Import String Ascii.
From Stdlib Require Import List NArith ZArith Bool Lia.
Import ListNotations.

Set Warnings "-register-all".

(** ** JavaScript strings

    A JavaScript string is a sequence of UTF-16 code units.  The functions
    below are the [String.prototype] methods that the program calls. *)
Module Js.

Definition char := N.
Definition jsstring := list char.

Definition ch (a : ascii) : char := N_of_ascii a.

(** An ASCII literal. *)
Definition lit (s : string) : jsstring := map ch (list_ascii_of_string s).

(** An ASCII literal in which every apostrophe stands for a double quote. *)
Definition qlit (s : string) : jsstring :=
  map (fun c => if N.eqb c 39 then 34%N else c) (lit s).

Definition DQUOTE : char := 34%N.
Definition BACKSLASH : char := 92%N.
Definition LBRACKET : char := 91%N.
Definition RBRACKET : char := 93%N.
Definition LBRACE : char := 123%N.
Definition RBRACE : char := 125%N.
Definition BACKTICK : char := 96%N.

(** WhiteSpace and LineTerminator of ECMAScript: what [trim] removes and
    what [\s] matches in a regular expression. *)
Definition isWhiteSpace (c : char) : bool :=
  ((9 <=? c) && (c <=? 13) || (c =? 32) || (c =? 160) || (c =? 5760)
   || (8192 <=? c) && (c <=? 8202) || (c =? 8232) || (c =? 8233)
   || (c =? 8239) || (c =? 8287) || (c =? 12288) || (c =? 65279))%N.

Fixpoint trimStart (s : jsstring) : jsstring :=
  match s with
  | c :: r => if isWhiteSpace c then trimStart r else s
  | [] => []
  end.

Definition trimEnd (s : jsstring) : jsstring := rev (trimStart (rev s)).

Definition trim (s : jsstring) : jsstring := trimEnd (trimStart s).

Fixpoint eqb (a b : jsstring) : bool :=
  match a, b with
  | [], [] => true
  | x :: a', y :: b' => N.eqb x y && eqb a' b'
  | _, _ => false
  end.

Fixpoint startsWith (p s : jsstring) : bool :=
  match p, s with
  | [], _ => true
  | a :: p', b :: s' => N.eqb a b && startsWith p' s'
  | _ :: _, [] => false
  end.

Definition endsWith (p s : jsstring) : bool := startsWith (rev p) (rev s).

(** Index of the first occurrence of a code unit, [None] for [-1]. *)
Fixpoint find_char (c : char) (s : jsstring) : option nat :=
  match s with
  | [] => None
  | x :: r => if N.eqb x c then Some 0 else option_map S (find_char c r)
  end.

(** [s.indexOf(c, from)] for a one-character [c]. *)
Definition indexOf (s : jsstring) (c : char) (from : nat) : option nat :=
  option_map (Nat.add from) (find_char c (skipn from s)).

(** [s.lastIndexOf(c)] for a one-character [c]. *)
Fixpoint lastIndexOf (s : jsstring) (c : char) : option nat :=
  match s with
  | [] => None
  | x :: r =>
      match lastIndexOf r c with
      | Some i => Some (S i)
      | None => if N.eqb x c then Some 0 else None
      end
  end.

(** Index of the first occurrence of a string. *)
Fixpoint indexOfStr (p s : jsstring) : option nat :=
  match s with
  | [] => if startsWith p [] then Some 0 else None
  | _ :: r => if startsWith p s then Some 0 else option_map S (indexOfStr p r)
  end.

(** [s.substring(a, b)]: both ends are clamped to the length and swapped
    when [a > b]. *)
Definition substring (s : jsstring) (a b : nat) : jsstring :=
  let a' := Nat.min a (length s) in
  let b' := Nat.min b (length s) in
  firstn (Nat.max a' b' - Nat.min a' b') (skipn (Nat.min a' b') s).

(** [s.replace(p, "")] for a string pattern [p]: the first occurrence goes. *)
Definition remove_first (p s : jsstring) : jsstring :=
  match indexOfStr p s with
  | Some i => firstn i s ++ skipn (i + length p) s
  | None => s
  end.

(** ASCII letters compared without case, as a regular expression with the
    [i] flag (and without [u]) compares them. *)
Definition lower (c : char) : char :=
  (if (65 <=? c) && (c <=? 90) then c + 32 else c)%N.

Fixpoint startsWith_ci (p s : jsstring) : bool :=
  match p, s with
  | [], _ => true
  | a :: p', b :: s' => N.eqb (lower a) (lower b) && startsWith_ci p' s'
  | _ :: _, [] => false
  end.

(** Decimal digits of an array index, as a property key. *)
Definition digit_of (n : nat) : char := (48 + N.of_nat n)%N.

Fixpoint decimal_fuel (fuel n : nat) (acc : jsstring) : jsstring :=
  match fuel with
  | 0 => acc
  | S f =>
      let acc' := digit_of (n mod 10) :: acc in
      if n / 10 =? 0 then acc' else decimal_fuel f (n / 10) acc'
  end.

Definition decimal (n : nat) : jsstring := decimal_fuel (S n) n [].

End Js.
Import Js.

(** ** JavaScript values and [JSON.parse] *)
Module Json.

(** The decimal number a JSON numeral denotes, [(-1)^neg * mant * 10^exp10],
    before it is rounded to a double.  Two numerals of one double may differ
    here; nothing below compares numbers. *)
Record number := { num_neg : bool; num_mant : N; num_exp : Z }.

Inductive value :=
| VUndefined
| VNull
| VBool (b : bool)
| VNum (n : number)
| VStr (s : jsstring)
| VArr (items : list value)
| VObj (props : list (jsstring * value)).

(** A numeral rounds to zero when it is zero or at most half the least
    subnormal double, [2^-1075]. *)
Definition num_is_zero (n : number) : bool :=
  (num_mant n =? 0)%N
  || ((num_exp n <? 0)%Z
      && (Z.of_N (num_mant n) * 2 ^ 1075 <=? 10 ^ (- num_exp n))%Z).

(** ToBoolean. *)
Definition truthy (v : value) : bool :=
  match v with
  | VUndefined | VNull => false
  | VBool b => b
  | VNum n => negb (num_is_zero n)
  | VStr s => match s with [] => false | _ => true end
  | VArr _ | VObj _ => true
  end.

Definition isArray (v : value) : bool :=
  match v with VArr _ => true | _ => false end.

(** [typeof v === 'object'] ([null] included, as in JavaScript). *)
Definition typeof_object (v : value) : bool :=
  match v with VNull | VArr _ | VObj _ => true | _ => false end.

(** Own properties, in insertion order. *)
Fixpoint lookup (k : jsstring) (props : list (jsstring * value)) : option value :=
  match props with
  | [] => None
  | (k', v) :: r => if Js.eqb k' k then Some v else lookup k r
  end.

(** Defining a property keeps the position of an existing key. *)
Fixpoint set_prop (k : jsstring) (v : value) (props : list (jsstring * value))
  : list (jsstring * value) :=
  match props with
  | [] => [(k, v)]
  | (k', v') :: r =>
      if Js.eqb k' k then (k, v) :: r else (k', v') :: set_prop k v r
  end.

(** JSON whitespace: space, tab, line feed, carriage return. *)
Definition isJsonWs (c : char) : bool :=
  ((c =? 32) || (c =? 9) || (c =? 10) || (c =? 13))%N.

Fixpoint skip_ws (s : jsstring) : jsstring :=
  match s with
  | c :: r => if isJsonWs c then skip_ws r else s
  | [] => []
  end.

Definition isDigit (c : char) : bool := ((48 <=? c) && (c <=? 57))%N.

Fixpoint digits (s : jsstring) : list char * jsstring :=
  match s with
  | c :: r =>
      if isDigit c then let (ds, rest) := digits r in (c :: ds, rest)
      else ([], s)
  | [] => ([], [])
  end.

Definition digits_val (ds : list char) : N :=
  fold_left (fun a d => (10 * a + (d - 48))%N) ds 0%N.

Definition hex_digit (c : char) : option N :=
  (if (48 <=? c) && (c <=? 57) then Some (c - 48)
   else if (65 <=? c) && (c <=? 70) then Some (c - 55)
   else if (97 <=? c) && (c <=? 102) then Some (c - 87)
   else None)%N.

Definition hex4 (a b c d : char) : option char :=
  match hex_digit a, hex_digit b, hex_digit c, hex_digit d with
  | Some x, Some y, Some z, Some w => Some (((x * 16 + y) * 16 + z) * 16 + w)%N
  | _, _, _, _ => None
  end.

(** The single-character escapes of a JSON string. *)
Definition escape_char (e : char) : option char :=
  (if e =? 34 then Some 34
   else if e =? 92 then Some 92
   else if e =? 47 then Some 47
   else if e =? 98 then Some 8
   else if e =? 102 then Some 12
   else if e =? 110 then Some 10
   else if e =? 114 then Some 13
   else if e =? 116 then Some 9
   else None)%N.

(** A string, read from just after its opening quote. *)
Fixpoint parse_string (s : jsstring) : option (jsstring * jsstring) :=
  match s with
  | [] => None
  | c :: r =>
      if (c =? 34)%N then Some ([], r)
      else if (c =? 92)%N then
        match r with
        | [] => None
        | e :: r' =>
            if (e =? 117)%N then
              match r' with
              | h1 :: h2 :: h3 :: h4 :: r'' =>
                  match hex4 h1 h2 h3 h4 with
                  | Some u =>
                      match parse_string r'' with
                      | Some (str, rest) => Some (u :: str, rest)
                      | None => None
                      end
                  | None => None
                  end
              | _ => None
              end
            else
              match escape_char e with
              | Some u =>
                  match parse_string r' with
                  | Some (str, rest) => Some (u :: str, rest)
                  | None => None
                  end
              | None => None
              end
        end
      else if (c <? 32)%N then None
      else
        match parse_string r with
        | Some (str, rest) => Some (c :: str, rest)
        | None => None
        end
  end.

(** A numeral: an optional minus sign; then a single zero, or a nonzero
    digit and any digits; then optionally a point and one digit or more;
    then optionally [e] or [E], an optional sign and one digit or more. *)
Definition parse_int (s : jsstring) : option (list char * jsstring) :=
  match s with
  | d :: r =>
      if (d =? 48)%N then Some ([d], r)
      else if isDigit d then Some (digits s)
      else None
  | [] => None
  end.

Definition parse_frac (s : jsstring) : option (list char * jsstring) :=
  match s with
  | c :: r =>
      if (c =? 46)%N then
        match digits r with
        | ([], _) => None
        | (ds, rest) => Some (ds, rest)
        end
      else Some ([], s)
  | [] => Some ([], [])
  end.

Definition parse_exp (s : jsstring) : option (Z * jsstring) :=
  match s with
  | c :: r =>
      if (c =? 101)%N || (c =? 69)%N then
        let (neg, r1) :=
          match r with
          | sg :: r' =>
              if (sg =? 45)%N then (true, r')
              else if (sg =? 43)%N then (false, r')
              else (false, r)
          | [] => (false, r)
          end in
        match digits r1 with
        | ([], _) => None
        | (ds, rest) =>
            let e := Z.of_N (digits_val ds) in
            Some (if neg then (- e)%Z else e, rest)
        end
      else Some (0%Z, s)
  | [] => Some (0%Z, [])
  end.

Definition parse_number (s : jsstring) : option (number * jsstring) :=
  let (neg, s1) :=
    match s with
    | c :: r => if (c =? 45)%N then (true, r) else (false, s)
    | [] => (false, s)
    end in
  match parse_int s1 with
  | None => None
  | Some (ip, s2) =>
      match parse_frac s2 with
      | None => None
      | Some (fp, s3) =>
          match parse_exp s3 with
          | None => None
          | Some (e, s4) =>
              Some ({| num_neg := neg;
                       num_mant := digits_val (ip ++ fp);
                       num_exp := (e - Z.of_nat (length fp))%Z |}, s4)
          end
      end
  end.

(** The outcome of a parsing function: a value and the unread input, a
    syntax error, or recursion budget exhausted. *)
Inductive presult :=
| POk (v : value) (rest : jsstring)
| PFail
| PFuel.

(** Recursive descent.  [parse_value] reads one value after optional
    whitespace; [parse_elements] reads the elements of an array after its
    opening bracket, [parse_members] the members of an object after its
    opening brace, both up to and including the closing delimiter. *)
Fixpoint parse_value (fuel : nat) (s : jsstring) : presult :=
  match fuel with
  | 0 => PFuel
  | S f =>
      match skip_ws s with
      | [] => PFail
      | c :: r =>
          if (c =? 123)%N then
            match skip_ws r with
            | c' :: r' =>
                if (c' =? 125)%N then POk (VObj []) r'
                else parse_members f [] (c' :: r')
            | [] => PFail
            end
          else if (c =? 91)%N then
            match skip_ws r with
            | c' :: r' =>
                if (c' =? 93)%N then POk (VArr []) r'
                else parse_elements f [] (c' :: r')
            | [] => PFail
            end
          else if (c =? 34)%N then
            match parse_string r with
            | Some (str, rest) => POk (VStr str) rest
            | None => PFail
            end
          else if startsWith (lit "true") (c :: r) then
            POk (VBool true) (skipn 4 (c :: r))
          else if startsWith (lit "false") (c :: r) then
            POk (VBool false) (skipn 5 (c :: r))
          else if startsWith (lit "null") (c :: r) then
            POk VNull (skipn 4 (c :: r))
          else
            match parse_number (c :: r) with
            | Some (n, rest) => POk (VNum n) rest
            | None => PFail
            end
      end
  end

with parse_elements (fuel : nat) (acc : list value) (s : jsstring) : presult :=
  match fuel with
  | 0 => PFuel
  | S f =>
      match parse_value f s with
      | POk v r =>
          match skip_ws r with
          | c :: r' =>
              if (c =? 44)%N then parse_elements f (acc ++ [v]) r'
              else if (c =? 93)%N then POk (VArr (acc ++ [v])) r'
              else PFail
          | [] => PFail
          end
      | PFail => PFail
      | PFuel => PFuel
      end
  end

with parse_members (fuel : nat) (acc : list (jsstring * value)) (s : jsstring)
  : presult :=
  match fuel with
  | 0 => PFuel
  | S f =>
      match skip_ws s with
      | q :: r =>
          if (q =? 34)%N then
            match parse_string r with
            | Some (key, r1) =>
                match skip_ws r1 with
                | colon :: r2 =>
                    if (colon =? 58)%N then
                      match parse_value f r2 with
                      | POk v r3 =>
                          match skip_ws r3 with
                          | c :: r4 =>
                              if (c =? 44)%N then
                                parse_members f (set_prop key v acc) r4
                              else if (c =? 125)%N then
                                POk (VObj (set_prop key v acc)) r4
                              else PFail
                          | [] => PFail
                          end
                      | PFail => PFail
                      | PFuel => PFuel
                      end
                    else PFail
                | [] => PFail
                end
            | None => PFail
            end
          else PFail
      | [] => PFail
      end
  end.

(** [JSON.parse(text)]: [None] when it throws a SyntaxError.  The budget
    [2 * length text + 1] is never exhausted ([parse_value_budget] below). *)
Definition JSON_parse (text : jsstring) : option value :=
  match parse_value (2 * length text + 1) text with
  | POk v rest => match skip_ws rest with [] => Some v | _ => None end
  | PFail | PFuel => None
  end.

End Json.
Import Json.

(** ** What the fetch functions share *)
Module Fetch.

(** How a [try] block or an awaited promise ends: normally with a value, or
    by a thrown exception (a rejected promise). *)
Inductive completion (A : Type) :=
| Normal (a : A)
| Throw.
Arguments Normal {A} a.
Arguments Throw {A}.

(** What [generateContent] resolves to, as far as the program reads it:
    [response.text], and for each grounding chunk of the first candidate its
    [web?.uri] ([None] where [web] or [uri] is missing). *)
Record response := {
  text : option jsstring;
  groundingChunks : list (option jsstring)
}.

(** [response.text || fallback]. *)
Definition text_or (fallback : jsstring) (r : response) : jsstring :=
  match text r with
  | Some (c :: s) => c :: s
  | _ => fallback
  end.

(** [groundingChunks.map(chunk => chunk.web?.uri).filter(uri => !!uri)]. *)
Definition validLinks (chunks : list (option jsstring)) : list jsstring :=
  flat_map (fun uri => match uri with
                       | Some (c :: s) => [c :: s]
                       | _ => []
                       end) chunks.

(** Reading a property of a value that is neither [null] nor [undefined].
    Only own properties of objects are looked at: the keys the program reads
    ([news], [articles], [title], [summary], [category], [publishedAt]) are
    on no built-in prototype. *)
Definition get (v : value) (k : jsstring) : value :=
  match v with
  | VObj props => match lookup k props with Some x => x | None => VUndefined end
  | _ => VUndefined
  end.

(** [v.k]: a TypeError on [null] and [undefined]. *)
Definition member (v : value) (k : jsstring) : completion value :=
  match v with
  | VUndefined | VNull => Throw
  | _ => Normal (get v k)
  end.

(** [a || b]. *)
Definition or_else (a b : value) : value := if truthy a then a else b.

Fixpoint indexed {A : Type} (i : nat) (l : list A) : list (nat * A) :=
  match l with
  | [] => []
  | x :: r => (i, x) :: indexed (S i) r
  end.

(** The own enumerable properties that an object spread [{...v}] copies. *)
Definition spread (v : value) : list (jsstring * value) :=
  match v with
  | VObj props => props
  | VArr items => map (fun p => (decimal (fst p), snd p)) (indexed 0 items)
  | VStr s => map (fun p => (decimal (fst p), VStr [snd p])) (indexed 0 s)
  | _ => []
  end.

(** [items.map((x, index) => f(x, index))], stopping at the first call that
    throws. *)
Fixpoint array_map (f : value -> nat -> completion value)
  (items : list value) (index : nat) : completion (list value) :=
  match items with
  | [] => Normal []
  | x :: r =>
      match f x index with
      | Throw => Throw
      | Normal y =>
          match array_map f r (S index) with
          | Throw => Throw
          | Normal ys => Normal (y :: ys)
          end
      end
  end.

(** [v.map(f)]: a TypeError unless [v] is an array (no parsed value has a
    callable [map] property). *)
Definition call_map (v : value) (f : value -> nat -> completion value)
  : completion (list value) :=
  match v with
  | VArr items => array_map f items 0
  | _ => Throw
  end.

(** A link or [undefined], as a value. *)
Definition url_value (url : option jsstring) : value :=
  match url with
  | Some u => VStr u
  | None => VUndefined
  end.

(** [links[i % links.length]]: the index is NaN, and the element
    [undefined], when there is no link. *)
Definition link_cycled (links : list jsstring) (i : nat) : option jsstring :=
  match links with
  | [] => None
  | _ => nth_error links (i mod length links)
  end.

Definition K_title := lit "title".
Definition K_summary := lit "summary".
Definition K_category := lit "category".
Definition K_publishedAt := lit "publishedAt".
Definition K_sourceUrl := lit "sourceUrl".
Definition K_sourceName := lit "sourceName".
Definition K_news := lit "news".
Definition K_articles := lit "articles".

Definition GENERAL := lit "General".
(** The Hebrew labels of the source, as UTF-16 code units. *)
Definition NOW : jsstring :=
  [1506; 1499; 1513; 1497; 1493]%N.

(** A record with the four required fields only. *)
Definition notice (title summary : jsstring) : value :=
  VObj [(K_title, VStr title); (K_summary, VStr summary);
        (K_category, VStr GENERAL); (K_publishedAt, VStr NOW)].

Section Hostname.
(** [new URL(url).hostname]: [None] when the constructor throws. *)
Variable URL_hostname : jsstring -> option jsstring.

(** [new URL(url).hostname.replace('www.', '')]. *)
Definition source_host (url : jsstring) : completion value :=
  match URL_hostname url with
  | Some h => Normal (VStr (remove_first (lit "www.") h))
  | None => Throw
  end.
End Hostname.

End Fetch.
Import Fetch.

(** ** [services/geminiService.ts], the revision with sequential object
    extraction *)
Module V1.

Definition FENCE : jsstring := lit "```".
Definition JSON_WORD : jsstring := lit "json".

(** The first capture group of
    [cleanedText.match(/```(?:json)?\s*([\s\S]*?)\s*```/)], [None] when there
    is no match.  A match starts at the first fence; after it the word
    [json] (if there) and all whitespace are skipped; the lazy group then runs
    to the next fence, less the whitespace that the [\s*] before that fence
    takes. *)
Definition codeBlockMatch (t : jsstring) : option jsstring :=
  match indexOfStr FENCE t with
  | None => None
  | Some i =>
      let r := skipn (i + 3) t in
      let r1 := if startsWith JSON_WORD r then skipn 4 r else r in
      let r2 := trimStart r1 in
      match indexOfStr FENCE r2 with
      | None => None
      | Some q => Some (trimEnd (firstn q r2))
      end
  end.

(** [t.replace(/^json\s*/i, '')]. *)
Definition strip_json_word (t : jsstring) : jsstring :=
  if startsWith_ci JSON_WORD t then trimStart (skipn 4 t) else t.

(** The pre-cleaning of [extractJson]. *)
Definition clean (text : jsstring) : jsstring :=
  let cleanedText := trim text in
  match codeBlockMatch cleanedText with
  | Some (c :: g) => trim (c :: g)
  | _ => strip_json_word cleanedText
  end.

(** Step 2: the widest bracket pair. *)
Definition bracket_parse (cleanedText : jsstring) : option value :=
  match indexOf cleanedText LBRACKET 0, lastIndexOf cleanedText RBRACKET with
  | Some firstOpenBracket, Some lastCloseBracket =>
      if firstOpenBracket <? lastCloseBracket then
        JSON_parse (substring cleanedText firstOpenBracket (lastCloseBracket + 1))
      else None
  | _, _ => None
  end.

(** The inner [while (endIndex < cleanedText.length && balance > 0)] loop;
    it returns [balance] and [endIndex] as the loop leaves them.  Every turn
    advances [endIndex], so [length cleanedText] turns are enough. *)
Fixpoint scan (turns : nat) (cleanedText : jsstring) (balance endIndex : nat)
  (inString escape : bool) : nat * nat :=
  match turns with
  | 0 => (balance, endIndex)
  | S n =>
      if (endIndex <? length cleanedText) && (0 <? balance) then
        let char := nth endIndex cleanedText 0%N in
        if escape then
          scan n cleanedText balance (S endIndex) inString false
        else if (char =? BACKSLASH)%N then
          scan n cleanedText balance (S endIndex) inString true
        else if (char =? DQUOTE)%N then
          scan n cleanedText balance (S endIndex) (negb inString) escape
        else if negb inString then
          if (char =? LBRACE)%N then
            scan n cleanedText (S balance) (S endIndex) inString escape
          else if (char =? RBRACE)%N then
            scan n cleanedText (balance - 1) (S endIndex) inString escape
          else scan n cleanedText balance (S endIndex) inString escape
        else scan n cleanedText balance (S endIndex) inString escape
      else (balance, endIndex)
  end.

(** The outer [while (startIndex !== -1 && loopCount < 50)] loop, with
    [attempts = 50 - loopCount]. *)
Fixpoint extract_loop (attempts : nat) (cleanedText : jsstring)
  (startIndex : option nat) (objects : list value) : list value :=
  match attempts, startIndex with
  | S n, Some start =>
      let (balance, endIndex) :=
        scan (length cleanedText) cleanedText 1 (start + 1) false false in
      if balance =? 0 then
        let jsonStr := substring cleanedText start endIndex in
        let objects' :=
          match JSON_parse jsonStr with
          | Some obj =>
              if truthy obj && typeof_object obj then objects ++ [obj]
              else objects
          | None => objects
          end in
        extract_loop n cleanedText (indexOf cleanedText LBRACE endIndex) objects'
      else objects
  | _, _ => objects
  end.

(** Step 3: sequential object extraction. *)
Definition sequential (cleanedText : jsstring) : list value :=
  extract_loop 50 cleanedText (indexOf cleanedText LBRACE 0) [].

Definition extract_cleaned (cleanedText : jsstring) : value :=
  match JSON_parse cleanedText with
  | Some v => v
  | None =>
      match bracket_parse cleanedText with
      | Some v => v
      | None =>
          match sequential cleanedText with
          | [] => VNull
          | objects => VArr objects
          end
      end
  end.

Definition extractJson (text : jsstring) : value :=
  match text with
  | [] => VNull
  | _ => extract_cleaned (clean text)
  end.

Definition PARSE_TITLE : jsstring :=
  [1513; 1490; 1497; 1488; 1492; 32; 1489; 1496; 1506; 1497; 1504; 1514; 32;
   1492; 1504; 1514; 1493; 1504; 1497; 1501]%N.
Definition PARSE_SUMMARY : jsstring :=
  [1492; 1502; 1493; 1491; 1500; 32; 1492; 1495; 1494; 1497; 1512; 32; 1514;
   1513; 1493; 1489; 1492; 32; 1513; 1488; 1497; 1504; 1492; 32; 1514; 1511;
   1497; 1504; 1492; 46; 32; 1488; 1504; 1488; 32; 1504; 1505; 1492; 32; 1513;
   1493; 1489; 32; 1488; 1493; 32; 1504; 1505; 1495; 32; 1488; 1514; 32; 1492;
   1495; 1497; 1508; 1493; 1513; 32; 1502; 1495; 1491; 1513; 46]%N.
Definition WEB_SOURCE : jsstring :=
  [1502; 1511; 1493; 1512; 32; 1489; 1512; 1513; 1514]%N.
Definition COMM_TITLE : jsstring :=
  [1513; 1490; 1497; 1488; 1492; 32; 1489; 1514; 1511; 1513; 1493; 1512; 1514]%N.
Definition COMM_SUMMARY : jsstring :=
  [1500; 1488; 32; 1504; 1497; 1514; 1503; 32; 1492; 1497; 1492; 32; 1500;
   1497; 1510; 1493; 1512; 32; 1511; 1513; 1512; 32; 1506; 1501; 32; 1492;
   1513; 1512; 1514; 46; 32; 1488; 1504; 1488; 32; 1489; 1491; 1493; 1511; 32;
   1488; 1514; 32; 1492; 1495; 1497; 1489; 1493; 1512; 32; 1513; 1500; 1498;
   46]%N.
Definition DEEP_NA_TITLE : jsstring :=
  [1504; 1497; 1514; 1493; 1495; 32; 1500; 1488; 32; 1494; 1502; 1497; 1503]%N.
Definition DEEP_NA_SUMMARY : jsstring :=
  [1500; 1488; 32; 1504; 1497; 1514; 1503; 32; 1492; 1497; 1492; 32; 1500;
   1506; 1489; 1491; 32; 1488; 1514; 32; 1514; 1493; 1510; 1488; 1493; 1514;
   32; 1492; 1502; 1495; 1511; 1512; 46; 32; 1488; 1504; 1488; 32; 1504; 1505;
   1492; 32; 1513; 1493; 1489; 46]%N.
Definition DEEP_ERR_TITLE : jsstring :=
  [1513; 1490; 1497; 1488; 1492; 32; 1489; 1504; 1497; 1514; 1493; 1495; 32;
   1502; 1506; 1502; 1497; 1511]%N.
Definition DEEP_ERR_SUMMARY : jsstring :=
  [1492; 1502; 1493; 1491; 1500; 32; 1504; 1514; 1511; 1500; 32; 1489; 1489;
   1506; 1497; 1492; 32; 1489; 1506; 1514; 32; 1489; 1497; 1510; 1493; 1506;
   32; 1495; 1513; 1497; 1489; 1492; 32; 1506; 1502; 1493; 1511; 1492; 46; 32;
   1488; 1504; 1488; 32; 1504; 1505; 1492; 32; 1513; 1493; 1489; 46]%N.
Definition IMG_TITLE : jsstring :=
  [1504; 1497; 1514; 1493; 1495; 32; 1514; 1502; 1493; 1504; 1492]%N.
Definition IMG_SCANNED : jsstring :=
  [1494; 1492; 32; 1506; 1514; 1492; 32; 1504; 1505; 1512; 1511]%N.
Definition IMG_FAIL : jsstring :=
  [1500; 1488; 32; 1504; 1497; 1514; 1503; 32; 1492; 1497; 1492; 32; 1500;
   1508; 1506; 1504; 1495; 32; 1488; 1514; 32; 1492; 1514; 1502; 1493; 1504;
   1492; 46]%N.

(** "Normalize result to array": the array to map, or the record list to
    return at once. *)
Definition normalize (na : jsstring * jsstring) (articles : value)
  : value + list value :=
  if negb (truthy articles) || negb (isArray articles) then
    if truthy articles && truthy (get articles K_news) then
      inl (get articles K_news)
    else if truthy articles && truthy (get articles K_articles) then
      inl (get articles K_articles)
    else inr [notice (fst na) (snd na)]
  else inl articles.

Section Fetch.
Variable URL_hostname : jsstring -> option jsstring.

(** The callback of [articles.map] in [fetchNewsFromAgent]. *)
Definition attach_link (links : list jsstring) (article : value) (index : nat)
  : completion value :=
  let url := if index <? length links then nth_error links index else None in
  match
    (match url with
     | Some (c :: u) => source_host URL_hostname (c :: u)
     | _ => Normal (VStr WEB_SOURCE)
     end)
  with
  | Throw => Throw
  | Normal name =>
      Normal (VObj (set_prop K_sourceName name
                      (set_prop K_sourceUrl (url_value url) (spread article))))
  end.

(** The [try] block of [fetchNewsFromAgent], from the resolved response on. *)
Definition fetchNewsFromAgent_try (r : response) : completion (list value) :=
  let text := text_or [] r in
  match normalize (PARSE_TITLE, PARSE_SUMMARY) (extractJson text) with
  | inr early => Normal early
  | inl articles =>
      call_map articles (attach_link (validLinks (groundingChunks r)))
  end.

(** [fetchNewsFromAgent]; the argument is what the awaited
    [generateContent] call settles to.  The result is how the returned
    promise settles. *)
Definition fetchNewsFromAgent (call : completion response)
  : completion (list value) :=
  match call with
  | Throw => Normal [notice COMM_TITLE COMM_SUMMARY]
  | Normal r =>
      match fetchNewsFromAgent_try r with
      | Normal l => Normal l
      | Throw => Normal [notice COMM_TITLE COMM_SUMMARY]
      end
  end.
End Fetch.

(** The callback of [articles.map] in [fetchDeepResearch]. *)
Definition DEEP_SOURCE : jsstring := lit "Gemini 3 Pro Analysis".

Definition attach_cycled (links : list jsstring) (a : value) (i : nat)
  : completion value :=
  Normal (VObj (set_prop K_sourceName (VStr DEEP_SOURCE)
                  (set_prop K_sourceUrl (url_value (link_cycled links i))
                     (spread a)))).

Definition fetchDeepResearch_try (r : response) : completion (list value) :=
  match normalize (DEEP_NA_TITLE, DEEP_NA_SUMMARY) (extractJson (text_or [] r)) with
  | inr early => Normal early
  | inl articles =>
      call_map articles (attach_cycled (validLinks (groundingChunks r)))
  end.

Definition fetchDeepResearch (call : completion response)
  : completion (list value) :=
  match call with
  | Throw => Normal [notice DEEP_ERR_TITLE DEEP_ERR_SUMMARY]
  | Normal r =>
      match fetchDeepResearch_try r with
      | Normal l => Normal l
      | Throw => Normal [notice DEEP_ERR_TITLE DEEP_ERR_SUMMARY]
      end
  end.

(** [analyzeImage]: its [catch] rethrows. *)
Definition analyzeImage (call : completion response) : completion value :=
  match call with
  | Throw => Throw
  | Normal r =>
      let text := text_or (lit "{}") r in
      let data := extractJson text in
      let data := match data with
                  | VArr items => nth 0 items VUndefined
                  | _ => data
                  end in
      if truthy data then
        Normal (VObj [(K_title, or_else (get data K_title) (VStr IMG_TITLE));
                      (K_summary, or_else (get data K_summary)
                                    (VStr (substring text 0 100)));
                      (K_category, or_else (get data K_category) (VStr GENERAL));
                      (K_publishedAt, VStr IMG_SCANNED);
                      (K_sourceName, VStr (lit "Image Analysis"))])
      else
        Normal (VObj [(K_title, VStr IMG_TITLE); (K_summary, VStr IMG_FAIL);
                      (K_category, VStr GENERAL);
                      (K_publishedAt, VStr IMG_SCANNED)])
  end.

End V1.

(** ** [services/geminiService.ts], the revision with field defaults *)
Module V2.

Definition FENCE : jsstring := lit "```".
Definition JSON_WORD : jsstring := lit "json".

(** [t.replace(/^```(?:json)?\s*/i, "")]. *)
Definition strip_leading_fence (t : jsstring) : jsstring :=
  if startsWith FENCE t then
    let r := skipn 3 t in
    trimStart (if startsWith_ci JSON_WORD r then skipn 4 r else r)
  else t.

(** [t.replace(/\s*```$/, "")]: the match can only end with the last three
    code units, and starts with the whitespace run before them. *)
Definition strip_trailing_fence (t : jsstring) : jsstring :=
  if endsWith FENCE t then trimEnd (firstn (length t - 3) t) else t.

Definition clean (text : jsstring) : jsstring :=
  strip_trailing_fence (strip_leading_fence (trim text)).

(** Attempt 2: from the first [[] to the last []]. *)
Definition bracket_parse (cleaned : jsstring) : option value :=
  match indexOf cleaned LBRACKET 0, lastIndexOf cleaned RBRACKET with
  | Some firstOpen, Some lastClose =>
      if firstOpen <? lastClose then
        JSON_parse (substring cleaned firstOpen (lastClose + 1))
      else None
  | _, _ => None
  end.

(** Attempt 3: from the first [{] to the last [}]. *)
Definition brace_parse (cleaned : jsstring) : option value :=
  match indexOf cleaned LBRACE 0, lastIndexOf cleaned RBRACE with
  | Some firstOpenObj, Some lastCloseObj =>
      if firstOpenObj <? lastCloseObj then
        JSON_parse (substring cleaned firstOpenObj (lastCloseObj + 1))
      else None
  | _, _ => None
  end.

Definition extract_cleaned (cleaned : jsstring) : value :=
  match JSON_parse cleaned with
  | Some v => v
  | None =>
      match bracket_parse cleaned with
      | Some v => v
      | None =>
          match brace_parse cleaned with
          | Some v => v
          | None => VNull
          end
      end
  end.

Definition extractJson (text : jsstring) : value :=
  match text with
  | [] => VNull
  | _ => extract_cleaned (clean text)
  end.

Definition NO_TITLE : jsstring :=
  [1500; 1500; 1488; 32; 1499; 1493; 1514; 1512; 1514]%N.
Definition RECENT : jsstring :=
  [1500; 1488; 1495; 1512; 1493; 1504; 1492]%N.
Definition ERR_TITLE : jsstring :=
  [1513; 1490; 1497; 1488; 1492; 32; 1489; 1496; 1506; 1497; 1504; 1514; 32;
   1492; 1495; 1491; 1513; 1493; 1514]%N.
Definition ERR_SUMMARY : jsstring :=
  [1488; 1504; 1488; 32; 1504; 1505; 1492; 32; 1513; 1493; 1489; 32; 1502;
   1488; 1493; 1495; 1512; 32; 1497; 1493; 1514; 1512; 46]%N.
Definition DEEP_ERR_TITLE : jsstring :=
  [1513; 1490; 1497; 1488; 1492; 32; 1489; 1504; 1497; 1514; 1493; 1495]%N.
Definition DEEP_ERR_SUMMARY : jsstring :=
  [1492; 1502; 1493; 1491; 1500; 32; 1504; 1514; 1511; 1500; 32; 1489; 1489;
   1506; 1497; 1492; 46]%N.
Definition IMG_TITLE : jsstring :=
  [1504; 1497; 1514; 1493; 1495; 32; 1514; 1502; 1493; 1504; 1492]%N.
Definition IMG_FAIL : jsstring :=
  [1500; 1488; 32; 1504; 1497; 1514; 1503; 32; 1492; 1497; 1492; 32; 1500;
   1508; 1506; 1504; 1495; 32; 1488; 1514; 32; 1492; 1514; 1502; 1493; 1504;
   1492; 46]%N.

(** "Normalize data structure". *)
Definition normalize (data : value) : list value :=
  match data with
  | VArr items => items
  | _ =>
      if truthy data && typeof_object data then
        match get data K_news with
        | VArr news => news
        | _ =>
            match get data K_articles with
            | VArr articles => articles
            | _ => [data]
            end
        end
      else []
  end.

Section Fetch.
Variable URL_hostname : jsstring -> option jsstring.

(** The callback of [articles.map] in [fetchNewsFromAgent]. *)
Definition shape (links : list jsstring) (article : value) (index : nat)
  : completion value :=
  let url := link_cycled links index in
  match member article K_title with
  | Throw => Throw
  | Normal title =>
      match
        (match url with
         | Some (c :: u) => source_host URL_hostname (c :: u)
         | _ => Normal VUndefined
         end)
      with
      | Throw => Throw
      | Normal name =>
          Normal (VObj [(K_title, or_else title (VStr NO_TITLE));
                        (K_summary, or_else (get article K_summary) (VStr []));
                        (K_category,
                          or_else (get article K_category) (VStr GENERAL));
                        (K_publishedAt,
                          or_else (get article K_publishedAt) (VStr RECENT));
                        (K_sourceUrl, url_value url);
                        (K_sourceName, name)])
      end
  end.

Definition fetchNewsFromAgent_try (r : response) : completion (list value) :=
  let articles := normalize (extractJson (text_or [] r)) in
  array_map (shape (validLinks (groundingChunks r))) articles 0.

Definition fetchNewsFromAgent (call : completion response)
  : completion (list value) :=
  match call with
  | Throw => Normal [notice ERR_TITLE ERR_SUMMARY]
  | Normal r =>
      match fetchNewsFromAgent_try r with
      | Normal l => Normal l
      | Throw => Normal [notice ERR_TITLE ERR_SUMMARY]
      end
  end.
End Fetch.

Definition DEEP_SOURCE : jsstring := lit "Gemini 3 Pro Analysis".

Definition attach_cycled (links : list jsstring) (a : value) (i : nat)
  : completion value :=
  Normal (VObj (set_prop K_sourceName (VStr DEEP_SOURCE)
                  (set_prop K_sourceUrl (url_value (link_cycled links i))
                     (spread a)))).

(** [Array.isArray(data) ? data : (data?.articles || [])]. *)
Definition deep_articles (data : value) : value :=
  match data with
  | VArr _ => data
  | VUndefined | VNull => VArr []
  | _ => or_else (get data K_articles) (VArr [])
  end.

Definition fetchDeepResearch_try (r : response) : completion (list value) :=
  call_map (deep_articles (extractJson (text_or [] r)))
    (attach_cycled (validLinks (groundingChunks r))).

Definition fetchDeepResearch (call : completion response)
  : completion (list value) :=
  match call with
  | Throw => Normal [notice DEEP_ERR_TITLE DEEP_ERR_SUMMARY]
  | Normal r =>
      match fetchDeepResearch_try r with
      | Normal l => Normal l
      | Throw => Normal [notice DEEP_ERR_TITLE DEEP_ERR_SUMMARY]
      end
  end.

(** [analyzeImage]: its [catch] rethrows. *)
Definition analyzeImage (call : completion response) : completion value :=
  match call with
  | Throw => Throw
  | Normal r =>
      let data := or_else (extractJson (text_or [] r)) (VObj []) in
      Normal (VObj [(K_title, or_else (get data K_title) (VStr IMG_TITLE));
                    (K_summary, or_else (get data K_summary) (VStr IMG_FAIL));
                    (K_category, or_else (get data K_category) (VStr GENERAL));
                    (K_publishedAt, VStr NOW);
                    (K_sourceName, VStr (lit "Image Analysis"))])
  end.

End V2.

(** ** [App.tsx]: scan state, search history, refresh timer

    The component is modelled as a state machine over its React state.  An
    event is a handler or callback that the browser runs to completion; an
    [await] splits a handler in two events.  The texts of the status line and
    of the error banner are labels here, and presentation state that no
    modelled handler reads (category filter, theme, scroll position) is left
    out. *)
Module App.

Definition IMAGE_ANALYSIS : jsstring := lit "Image Analysis".

(** [agentState.statusMessage]. *)
Inductive status :=
| Starting
| Searching (topic : jsstring)
| Analysing (topic : jsstring)
| Updated
| Failed
| DecodingImage
| ImageDone.

Record AgentState := {
  isScanning : bool;
  lastUpdated : option N;
  statusMessage : status
}.

(** [error]. *)
Inductive banner := LoadFailed | UploadFailed.

(** [setAgentState(prev => ({ ...prev, isScanning: false }))]. *)
Definition stop_scanning (a : AgentState) : AgentState :=
  {| isScanning := false; lastUpdated := lastUpdated a;
     statusMessage := statusMessage a |}.

Definition neqb (a b : jsstring) : bool := negb (Js.eqb a b).

(** Does [updateNews] record the topic:
    [topic && !topic.startsWith("Image Analysis")]. *)
Definition recorded (topic : jsstring) : bool :=
  match topic with
  | [] => false
  | _ => negb (startsWith IMAGE_ANALYSIS topic)
  end.

End App.
Import App.

(** *** The revision with refresh modes *)
Module App2.

Inductive RefreshMode := manual | rapid | hourly | daily.

Definition REFRESH_INTERVALS (mode : RefreshMode) : N :=
  match mode with
  | manual => 0
  | rapid => 120000
  | hourly => 3600000
  | daily => 86400000
  end%N.

Definition mode_eqb (a b : RefreshMode) : bool :=
  match a, b with
  | manual, manual | rapid, rapid | hourly, hourly | daily, daily => true
  | _, _ => false
  end.

(** The live interval of [refreshTimerRef]: its period and the values that
    its callback closed over in the render whose effect created it. *)
Record Timer := {
  period : N;
  seen_isScanning : bool;
  seen_topic : jsstring
}.

Record State := {
  articles : list value;
  agentState : AgentState;
  error : option banner;
  searchHistory : list jsstring;
  (** the list last handed to [localStorage.setItem('novaNewsHistory', _)] *)
  persisted : option (list jsstring);
  refreshMode : RefreshMode;
  currentTopic : jsstring;
  nextRefreshTime : N;
  refreshTimer : option Timer;
  (** bookkeeping of the environment: the fetch calls made so far, oldest
      first, and how many promises and file reads are still outstanding *)
  calls : list (jsstring * bool);
  inFlight : nat;
  reading : nat;
  analysing : nat
}.

Definition INITIAL_TOPIC : jsstring :=
  [1495; 1491; 1513; 1493; 1514; 32; 1495; 1502; 1493; 1514; 32; 1489; 1497;
   1513; 1512; 1488; 1500]%N.

(** [[topic, ...prev.filter(t => t !== topic)].slice(0, 10)]. *)
Definition newH (topic : jsstring) (prev : list jsstring) : list jsstring :=
  firstn 10 (topic :: filter (fun t => neqb t topic) prev).

(** [updateNews(topic, isDeepSearch)] up to its [await]. *)
Definition updateNews_begin (topic : jsstring) (isDeepSearch : bool)
  (s : State) : State :=
  let history :=
    if recorded topic then newH topic (searchHistory s) else searchHistory s in
  {| articles := articles s;
     agentState :=
       {| isScanning := true;
          lastUpdated := lastUpdated (agentState s);
          statusMessage :=
            if isDeepSearch then Analysing topic else Searching topic |};
     error := None;
     searchHistory := history;
     persisted := if recorded topic then Some history else persisted s;
     refreshMode := refreshMode s;
     currentTopic := topic;
     nextRefreshTime := nextRefreshTime s;
     refreshTimer := refreshTimer s;
     calls := calls s ++ [(topic, isDeepSearch)];
     inFlight := S (inFlight s);
     reading := reading s;
     analysing := analysing s |}.

(** [updateNews] after its [await]: the [try] block's tail or the [catch]. *)
Definition updateNews_end (outcome : completion (list value)) (now : N)
  (s : State) : State :=
  {| articles := match outcome with
                 | Normal newArticles => newArticles
                 | Throw => articles s
                 end;
     agentState :=
       match outcome with
       | Normal _ =>
           {| isScanning := false; lastUpdated := Some now;
              statusMessage := Updated |}
       | Throw =>
           {| isScanning := false;
              lastUpdated := lastUpdated (agentState s);
              statusMessage := Failed |}
       end;
     error := match outcome with
              | Normal _ => error s
              | Throw => Some LoadFailed
              end;
     searchHistory := searchHistory s;
     persisted := persisted s;
     refreshMode := refreshMode s;
     currentTopic := currentTopic s;
     nextRefreshTime := nextRefreshTime s;
     refreshTimer := refreshTimer s;
     calls := calls s;
     inFlight := pred (inFlight s);
     reading := reading s;
     analysing := analysing s |}.

Definition with_agentState (a : AgentState) (s : State) : State :=
  {| articles := articles s; agentState := a; error := error s;
     searchHistory := searchHistory s; persisted := persisted s;
     refreshMode := refreshMode s; currentTopic := currentTopic s;
     nextRefreshTime := nextRefreshTime s; refreshTimer := refreshTimer s;
     calls := calls s; inFlight := inFlight s; reading := reading s;
     analysing := analysing s |}.

Definition with_timer (next : N) (t : option Timer) (s : State) : State :=
  {| articles := articles s; agentState := agentState s; error := error s;
     searchHistory := searchHistory s; persisted := persisted s;
     refreshMode := refreshMode s; currentTopic := currentTopic s;
     nextRefreshTime := next; refreshTimer := t;
     calls := calls s; inFlight := inFlight s; reading := reading s;
     analysing := analysing s |}.

Definition with_work (r a : nat) (s : State) : State :=
  {| articles := articles s; agentState := agentState s; error := error s;
     searchHistory := searchHistory s; persisted := persisted s;
     refreshMode := refreshMode s; currentTopic := currentTopic s;
     nextRefreshTime := nextRefreshTime s; refreshTimer := refreshTimer s;
     calls := calls s; inFlight := inFlight s; reading := r;
     analysing := a |}.

(** The "Autonomous Agent Loop" effect: the old interval is cleared and,
    unless the mode is [manual], a new one is created over the values of the
    current render. *)
Definition agent_loop (now : N) (s : State) : State :=
  if mode_eqb (refreshMode s) manual then with_timer 0%N None s
  else
    let interval := REFRESH_INTERVALS (refreshMode s) in
    with_timer (now + interval)%N
      (Some {| period := interval;
               seen_isScanning := isScanning (agentState s);
               seen_topic := currentTopic s |}) s.

(** The dependencies of that effect:
    [[refreshMode, currentTopic, agentState.isScanning]]. *)
Definition deps_changed (old new : State) : bool :=
  negb (mode_eqb (refreshMode old) (refreshMode new))
  || neqb (currentTopic old) (currentTopic new)
  || negb (Bool.eqb (isScanning (agentState old)) (isScanning (agentState new))).

(** The render that follows a state change: the effect runs again when one
    of its dependencies changed. *)
Definition commit (now : N) (old new : State) : State :=
  if deps_changed old new then agent_loop now new else new.

(** The callback of the interval. *)
Definition tick (now : N) (s : State) : State :=
  match refreshTimer s with
  | Some t =>
      if negb (seen_isScanning t) then
        let s' := updateNews_begin (seen_topic t) false s in
        with_timer (now + period t)%N (refreshTimer s') s'
      else s
  | None => s
  end.

(** [handleModeChange]. *)
Definition handleModeChange (mode : RefreshMode) (s : State) : State :=
  {| articles := articles s; agentState := agentState s; error := error s;
     searchHistory := searchHistory s; persisted := persisted s;
     refreshMode := mode; currentTopic := currentTopic s;
     nextRefreshTime := nextRefreshTime s; refreshTimer := refreshTimer s;
     calls := calls s; inFlight := inFlight s; reading := reading s;
     analysing := analysing s |}.

(** [handleImageUpload(file)] up to the return of [readAsDataURL]; [reads]
    tells whether that call returned ([true]) or threw ([false]). *)
Definition handleImageUpload (reads : bool) (s : State) : State :=
  let s1 :=
    with_agentState {| isScanning := true;
                       lastUpdated := lastUpdated (agentState s);
                       statusMessage := DecodingImage |} s in
  if reads then with_work (S (reading s1)) (analysing s1) s1
  else
    let s2 := with_agentState (stop_scanning (agentState s1)) s1 in
    {| articles := articles s2; agentState := agentState s2;
       error := Some UploadFailed;
       searchHistory := searchHistory s2; persisted := persisted s2;
       refreshMode := refreshMode s2; currentTopic := currentTopic s2;
       nextRefreshTime := nextRefreshTime s2; refreshTimer := refreshTimer s2;
       calls := calls s2; inFlight := inFlight s2; reading := reading s2;
       analysing := analysing s2 |}.

(** [reader.onloadend] up to its [await]: [result] is [reader.result] when
    that is a string.  Otherwise the callback does nothing. *)
Definition onloadend_begin (result : option jsstring) (s : State) : State :=
  match result with
  | Some _ => with_work (pred (reading s)) (S (analysing s)) s
  | None => with_work (pred (reading s)) (analysing s) s
  end.

(** [reader.onloadend] after its [await]; no handler catches the rejection
    of [analyzeImage]. *)
Definition onloadend_end (outcome : completion value) (now : N) (s : State)
  : State :=
  let s1 := with_work (reading s) (pred (analysing s)) s in
  match outcome with
  | Normal article =>
      {| articles := article :: articles s1;
         agentState := {| isScanning := false; lastUpdated := Some now;
                          statusMessage := ImageDone |};
         error := error s1;
         searchHistory := searchHistory s1; persisted := persisted s1;
         refreshMode := refreshMode s1; currentTopic := currentTopic s1;
         nextRefreshTime := nextRefreshTime s1;
         refreshTimer := refreshTimer s1;
         calls := calls s1; inFlight := inFlight s1; reading := reading s1;
         analysing := analysing s1 |}
  | Throw => s1
  end.

Inductive event :=
| UpdateNews (topic : jsstring) (isDeepSearch : bool)
| FetchSettled (outcome : completion (list value))
| Tick
| ModeChange (mode : RefreshMode)
| ImageUpload (reads : bool)
| ReadEnded (result : option jsstring)
| AnalysisSettled (outcome : completion value).

(** Can the event happen in this state. *)
Definition enabled (e : event) (s : State) : bool :=
  match e with
  | UpdateNews _ _ | ModeChange _ | ImageUpload _ => true
  | FetchSettled _ => 0 <? inFlight s
  | Tick => match refreshTimer s with Some _ => true | None => false end
  | ReadEnded _ => 0 <? reading s
  | AnalysisSettled _ => 0 <? analysing s
  end.

Definition handle (now : N) (e : event) (s : State) : State :=
  match e with
  | UpdateNews topic isDeepSearch => updateNews_begin topic isDeepSearch s
  | FetchSettled outcome => updateNews_end outcome now s
  | Tick => tick now s
  | ModeChange mode => handleModeChange mode s
  | ImageUpload reads => handleImageUpload reads s
  | ReadEnded result => onloadend_begin result s
  | AnalysisSettled outcome => onloadend_end outcome now s
  end.

(** One event at time [now], and the render it causes. *)
Definition next (now : N) (e : event) (s : State) : State :=
  commit now s (handle now e s).

Definition step (now : N) (e : event) (s : State) : option State :=
  if enabled e s then Some (next now e s) else None.

(** The state once the mount effects have run: preferences loaded, the first
    fetch started, the timer armed. *)
Definition mount (savedHistory : option (list jsstring))
  (savedMode : option RefreshMode) (now : N) : State :=
  let s0 :=
    {| articles := [];
       agentState := {| isScanning := false; lastUpdated := None;
                        statusMessage := Starting |};
       error := None;
       searchHistory := match savedHistory with Some h => h | None => [] end;
       persisted := savedHistory;
       refreshMode := match savedMode with Some m => m | None => daily end;
       currentTopic := INITIAL_TOPIC;
       nextRefreshTime := 0%N;
       refreshTimer := None;
       calls := []; inFlight := 0; reading := 0; analysing := 0 |} in
  agent_loop now (updateNews_begin INITIAL_TOPIC false s0).

(** The states the component can be in. *)
Inductive reachable : State -> Prop :=
| reach_mount savedHistory savedMode now :
    reachable (mount savedHistory savedMode now)
| reach_step s now e s' :
    reachable s -> step now e s = Some s' -> reachable s'.

(** The interval callback sees the current render's values. *)
Definition in_sync (s : State) : Prop :=
  refreshTimer s =
    if mode_eqb (refreshMode s) manual then None
    else Some {| period := REFRESH_INTERVALS (refreshMode s);
                 seen_isScanning := isScanning (agentState s);
                 seen_topic := currentTopic s |}.

(** A sequence of events, each with the time at which it happens. *)
Fixpoint run (es : list (N * event)) (s : State) : option State :=
  match es with
  | [] => Some s
  | (now, e) :: r =>
      match step now e s with
      | Some s' => run r s'
      | None => None
      end
  end.

End App2.

(** *** The revision with an on/off auto-refresh *)
Module App1.

(** The live interval of the auto-refresh effect and the values that its
    callback closed over. *)
Record Timer := {
  seen_isScanning : bool;
  seen_topic : jsstring
}.

Record State := {
  articles : list value;
  agentState : AgentState;
  error : option banner;
  searchHistory : list jsstring;
  (** the list last handed to [localStorage.setItem('novaNewsHistory', _)] *)
  persisted : option (list jsstring);
  isAutoRefresh : bool;
  currentTopic : jsstring;
  refreshTimer : option Timer;
  (** bookkeeping of the environment, as in the other revision *)
  calls : list (jsstring * bool);
  inFlight : nat;
  reading : nat;
  analysing : nat
}.

Definition INITIAL_TOPIC : jsstring :=
  [1492; 1495; 1491; 1513; 1493; 1514; 32; 1492; 1499; 1497; 32; 1495; 1513;
   1493; 1489; 1493; 1514; 32; 1489; 1497; 1513; 1512; 1488; 1500; 32; 1493;
   1489; 1506; 1493; 1500; 1501; 32; 1502; 1492; 1513; 1506; 1493; 1514; 32;
   1492; 1488; 1495; 1512; 1493; 1504; 1493; 1514]%N.

(** [[topic, ...prev].slice(0, 50)]. *)
Definition newHistory (topic : jsstring) (prev : list jsstring)
  : list jsstring :=
  firstn 50 (topic :: prev).

(** [[...new Set(searchHistory)]], the list handed to the panel: the first
    occurrence of every topic, in order. *)
Fixpoint unique (seen l : list jsstring) : list jsstring :=
  match l with
  | [] => []
  | t :: r =>
      if existsb (Js.eqb t) seen then unique seen r
      else t :: unique (t :: seen) r
  end.

Definition shown_history (s : State) : list jsstring :=
  unique [] (searchHistory s).

(** [updateNews(topic, isDeepSearch)] up to its [await]. *)
Definition updateNews_begin (topic : jsstring) (isDeepSearch : bool)
  (s : State) : State :=
  let history :=
    if recorded topic then newHistory topic (searchHistory s)
    else searchHistory s in
  {| articles := articles s;
     agentState :=
       {| isScanning := true;
          lastUpdated := lastUpdated (agentState s);
          statusMessage :=
            if isDeepSearch then Analysing topic else Searching topic |};
     error := None;
     searchHistory := history;
     persisted := if recorded topic then Some history else persisted s;
     isAutoRefresh := isAutoRefresh s;
     currentTopic := topic;
     refreshTimer := refreshTimer s;
     calls := calls s ++ [(topic, isDeepSearch)];
     inFlight := S (inFlight s);
     reading := reading s;
     analysing := analysing s |}.

Definition with_agentState (a : AgentState) (s : State) : State :=
  {| articles := articles s; agentState := a; error := error s;
     searchHistory := searchHistory s; persisted := persisted s;
     isAutoRefresh := isAutoRefresh s; currentTopic := currentTopic s;
     refreshTimer := refreshTimer s;
     calls := calls s; inFlight := inFlight s; reading := reading s;
     analysing := analysing s |}.

Definition with_error (b : option banner) (s : State) : State :=
  {| articles := articles s; agentState := agentState s; error := b;
     searchHistory := searchHistory s; persisted := persisted s;
     isAutoRefresh := isAutoRefresh s; currentTopic := currentTopic s;
     refreshTimer := refreshTimer s;
     calls := calls s; inFlight := inFlight s; reading := reading s;
     analysing := analysing s |}.

Definition with_articles (l : list value) (s : State) : State :=
  {| articles := l; agentState := agentState s; error := error s;
     searchHistory := searchHistory s; persisted := persisted s;
     isAutoRefresh := isAutoRefresh s; currentTopic := currentTopic s;
     refreshTimer := refreshTimer s;
     calls := calls s; inFlight := inFlight s; reading := reading s;
     analysing := analysing s |}.

Definition with_timer (t : option Timer) (s : State) : State :=
  {| articles := articles s; agentState := agentState s; error := error s;
     searchHistory := searchHistory s; persisted := persisted s;
     isAutoRefresh := isAutoRefresh s; currentTopic := currentTopic s;
     refreshTimer := t;
     calls := calls s; inFlight := inFlight s; reading := reading s;
     analysing := analysing s |}.

Definition with_work (f r a : nat) (s : State) : State :=
  {| articles := articles s; agentState := agentState s; error := error s;
     searchHistory := searchHistory s; persisted := persisted s;
     isAutoRefresh := isAutoRefresh s; currentTopic := currentTopic s;
     refreshTimer := refreshTimer s;
     calls := calls s; inFlight := f; reading := r; analysing := a |}.

(** [updateNews] after its [await]. *)
Definition updateNews_end (outcome : completion (list value)) (now : N)
  (s : State) : State :=
  let s1 := with_work (pred (inFlight s)) (reading s) (analysing s) s in
  match outcome with
  | Normal newArticles =>
      with_agentState {| isScanning := false; lastUpdated := Some now;
                         statusMessage := Updated |}
        (with_articles newArticles s1)
  | Throw =>
      with_agentState (stop_scanning (agentState s1))
        (with_error (Some LoadFailed) s1)
  end.

(** The auto-refresh effect: the cleanup of the previous run clears the old
    interval, and a new one is created when auto-refresh is on. *)
Definition auto_refresh (s : State) : State :=
  if isAutoRefresh s then
    with_timer (Some {| seen_isScanning := isScanning (agentState s);
                        seen_topic := currentTopic s |}) s
  else with_timer None s.

(** The dependencies of that effect that the model holds:
    [isAutoRefresh], [currentTopic], [agentState.isScanning].  The fourth,
    [updateNews], changes with the focus mode only. *)
Definition deps_changed (old new : State) : bool :=
  negb (Bool.eqb (isAutoRefresh old) (isAutoRefresh new))
  || neqb (currentTopic old) (currentTopic new)
  || negb (Bool.eqb (isScanning (agentState old)) (isScanning (agentState new))).

Definition commit (old new : State) : State :=
  if deps_changed old new then auto_refresh new else new.

(** The callback of the interval. *)
Definition tick (s : State) : State :=
  match refreshTimer s with
  | Some t =>
      if negb (seen_isScanning t)
         && negb (startsWith IMAGE_ANALYSIS (seen_topic t))
      then updateNews_begin (seen_topic t) false s
      else s
  | None => s
  end.

(** [toggleAutoRefresh]. *)
Definition toggleAutoRefresh (s : State) : State :=
  {| articles := articles s; agentState := agentState s; error := error s;
     searchHistory := searchHistory s; persisted := persisted s;
     isAutoRefresh := negb (isAutoRefresh s); currentTopic := currentTopic s;
     refreshTimer := refreshTimer s;
     calls := calls s; inFlight := inFlight s; reading := reading s;
     analysing := analysing s |}.

(** [handleImageUpload(file)] up to the return of [readAsDataURL]; [reads]
    tells whether that call returned ([true]) or threw ([false]). *)
Definition handleImageUpload (reads : bool) (s : State) : State :=
  let s1 :=
    with_agentState {| isScanning := true;
                       lastUpdated := lastUpdated (agentState s);
                       statusMessage := DecodingImage |} s in
  if reads then with_work (inFlight s1) (S (reading s1)) (analysing s1) s1
  else
    with_agentState (stop_scanning (agentState s1))
      (with_error (Some UploadFailed) s1).

(** [reader.onloadend] up to its [await]: [result] is [reader.result] when
    that is a string.  Otherwise [(reader.result as string).split] throws
    and the callback ends there. *)
Definition onloadend_begin (result : option jsstring) (s : State) : State :=
  match result with
  | Some _ => with_work (inFlight s) (pred (reading s)) (S (analysing s)) s
  | None => with_work (inFlight s) (pred (reading s)) (analysing s) s
  end.

(** [reader.onloadend] after its [await]; no handler catches the rejection
    of [analyzeImage]. *)
Definition onloadend_end (outcome : completion value) (now : N) (s : State)
  : State :=
  let s1 := with_work (inFlight s) (reading s) (pred (analysing s)) s in
  match outcome with
  | Normal article =>
      with_agentState {| isScanning := false; lastUpdated := Some now;
                         statusMessage := ImageDone |}
        (with_articles (article :: articles s1) s1)
  | Throw => s1
  end.

Inductive event :=
| UpdateNews (topic : jsstring) (isDeepSearch : bool)
| FetchSettled (outcome : completion (list value))
| Tick
| ToggleAutoRefresh
| ImageUpload (reads : bool)
| ReadEnded (result : option jsstring)
| AnalysisSettled (outcome : completion value).

Definition enabled (e : event) (s : State) : bool :=
  match e with
  | UpdateNews _ _ | ToggleAutoRefresh | ImageUpload _ => true
  | FetchSettled _ => 0 <? inFlight s
  | Tick => match refreshTimer s with Some _ => true | None => false end
  | ReadEnded _ => 0 <? reading s
  | AnalysisSettled _ => 0 <? analysing s
  end.

Definition handle (now : N) (e : event) (s : State) : State :=
  match e with
  | UpdateNews topic isDeepSearch => updateNews_begin topic isDeepSearch s
  | FetchSettled outcome => updateNews_end outcome now s
  | Tick => tick s
  | ToggleAutoRefresh => toggleAutoRefresh s
  | ImageUpload reads => handleImageUpload reads s
  | ReadEnded result => onloadend_begin result s
  | AnalysisSettled outcome => onloadend_end outcome now s
  end.

Definition next (now : N) (e : event) (s : State) : State :=
  commit s (handle now e s).

Definition step (now : N) (e : event) (s : State) : option State :=
  if enabled e s then Some (next now e s) else None.

(** The state once the mount effects have run. *)
Definition mount (savedHistory : option (list jsstring)) : State :=
  let s0 :=
    {| articles := [];
       agentState := {| isScanning := false; lastUpdated := None;
                        statusMessage := Starting |};
       error := None;
       searchHistory := match savedHistory with Some h => h | None => [] end;
       persisted := savedHistory;
       isAutoRefresh := true;
       currentTopic := INITIAL_TOPIC;
       refreshTimer := None;
       calls := []; inFlight := 0; reading := 0; analysing := 0 |} in
  auto_refresh (updateNews_begin INITIAL_TOPIC false s0).

Inductive reachable : State -> Prop :=
| reach_mount savedHistory : reachable (mount savedHistory)
| reach_step s now e s' :
    reachable s -> step now e s = Some s' -> reachable s'.

Definition in_sync (s : State) : Prop :=
  refreshTimer s =
    if isAutoRefresh s then
      Some {| seen_isScanning := isScanning (agentState s);
              seen_topic := currentTopic s |}
    else None.

(** A sequence of events, each with the time at which it happens. *)
Fixpoint run (es : list (N * event)) (s : State) : option State :=
  match es with
  | [] => Some s
  | (now, e) :: r =>
      match step now e s with
      | Some s' => run r s'
      | None => None
      end
  end.

End App1.

(** ** [components/AgentPanel.tsx]: the search form *)
Module Panel.

Definition DEFAULT_TOPIC : jsstring :=
  [1495; 1491; 1513; 1493; 1514; 32; 1495; 1502; 1493; 1514; 32; 1489; 1497;
   1513; 1512; 1488; 1500; 32; 1493; 1489; 1506; 1493; 1500; 1501]%N.

(** The state of the form: the text of the input and the deep-search
    switch. *)
Record Form := {
  customTopic : jsstring;
  isDeepSearch : bool
}.

(** [customTopic.trim() || DEFAULT_TOPIC]. *)
Definition submitted_topic (f : Form) : jsstring :=
  match trim (customTopic f) with
  | [] => DEFAULT_TOPIC
  | c :: t => c :: t
  end.

(** [handleSubmit]: the arguments it calls [onUpdate] with, and the form
    it leaves. *)
Definition handleSubmit (f : Form) : (jsstring * bool) * Form :=
  ((submitted_topic f, isDeepSearch f),
   {| customTopic := []; isDeepSearch := isDeepSearch f |}).

End Panel.

(** ** Sequential extraction, read from left to right

    The loops of step 3 of the first revision work with indices into the
    cleaned text.  The functions below do the same work on the unread rest
    of the text; [sequential_objects_from] further down shows that the two
    agree. *)
Module Spans.

(** The inner loop on the text after [endIndex]: the balance it ends with
    and the number of code units it reads. *)
Fixpoint scan_list (balance : nat) (inString escape : bool) (s : jsstring)
  : nat * nat :=
  match s with
  | [] => (balance, 0)
  | char :: r =>
      if 0 <? balance then
        let (b, n) :=
          if escape then scan_list balance inString false r
          else if (char =? BACKSLASH)%N then scan_list balance inString true r
          else if (char =? DQUOTE)%N then
            scan_list balance (negb inString) escape r
          else if negb inString then
            if (char =? LBRACE)%N then scan_list (S balance) inString escape r
            else if (char =? RBRACE)%N then
              scan_list (balance - 1) inString escape r
            else scan_list balance inString escape r
          else scan_list balance inString escape r in
        (b, S n)
      else (balance, 0)
  end.

(** The text after the first [{]. *)
Fixpoint after_brace (s : jsstring) : option jsstring :=
  match s with
  | [] => None
  | c :: r => if (c =? LBRACE)%N then Some r else after_brace r
  end.

(** What one captured span adds to [objects]. *)
Definition kept (jsonStr : jsstring) : list value :=
  match JSON_parse jsonStr with
  | Some obj => if truthy obj && typeof_object obj then [obj] else []
  | None => []
  end.

(** The outer loop on the unread text. *)
Fixpoint objects_from (attempts : nat) (s : jsstring) : list value :=
  match attempts with
  | 0 => []
  | S n =>
      match after_brace s with
      | None => []
      | Some body =>
          let (b, k) := scan_list 1 false false body in
          if b =? 0 then
            kept (LBRACE :: firstn k body) ++ objects_from n (skipn k body)
          else []
      end
  end.

(** A span that the scan closes with its last code unit: it starts with
    [{] and the balance returns to zero exactly at its end. *)
Definition closed_span (o : jsstring) : Prop :=
  match o with
  | c :: body =>
      c = LBRACE /\ scan_list 1 false false body = (0, length body)
  | [] => False
  end.

(** A text whose first [{] opens a span that the scan never closes. *)
Definition unbalanced (t : jsstring) : Prop :=
  exists gap body,
    t = gap ++ LBRACE :: body /\ ~ In LBRACE gap
    /\ fst (scan_list 1 false false body) <> 0.

(** A text laid out as closed spans, each after a gap without [{],
    followed by a rest that has no [{] or is unbalanced. *)
Inductive layout : jsstring -> list jsstring -> Prop :=
| layout_plain tail : ~ In LBRACE tail -> layout tail []
| layout_broken tail : unbalanced tail -> layout tail []
| layout_span gap o rest spans :
    ~ In LBRACE gap -> closed_span o -> layout rest spans ->
    layout (gap ++ o ++ rest) (o :: spans).

Definition is_object (v : value) : bool :=
  match v with VObj _ => true | _ => false end.

End Spans.
Import Spans.

(** ** Inputs and measures that the properties below refer to *)
Module Cases.

(** How many entries of a history are the topic. *)
Definition occurrences (topic : jsstring) (history : list jsstring) : nat :=
  length (filter (Js.eqb topic) history).

(** A topic that a user can type and that [updateNews] does not record. *)
Definition image_topic : jsstring := lit "Image Analysis of the budget chart".

Definition sports : jsstring := lit "sports".

(** Second revision, refresh mode [rapid]: the state after mount, with the
    first fetch in flight; then that fetch settled; then the timer ticked. *)
Definition app2_scanning : App2.State :=
  App2.mount None (Some App2.rapid) 0%N.

Definition app2_idle : App2.State :=
  App2.next 1%N (App2.FetchSettled (Normal [])) app2_scanning.

Definition app2_ticked : App2.State :=
  App2.next 120001%N App2.Tick app2_idle.

(** First revision: mount, the first fetch settled, a search for
    [image_topic] started, that fetch settled, the timer ticked. *)
Definition app1_scanning : App1.State := App1.mount None.

Definition app1_idle : App1.State :=
  App1.next 1%N (App1.FetchSettled (Normal [])) app1_scanning.

Definition app1_image_scanning : App1.State :=
  App1.next 2%N (App1.UpdateNews image_topic false) app1_idle.

Definition app1_image_idle : App1.State :=
  App1.next 3%N (App1.FetchSettled (Normal [])) app1_image_scanning.

Definition app1_image_ticked : App1.State :=
  App1.next 3600003%N App1.Tick app1_image_idle.

(** An image upload whose file is read and whose analysis is rejected. *)
Definition data_url : jsstring := lit "data:image/png;base64,iVBORw0KGgo=".

Definition app2_failed_upload : list (N * App2.event) :=
  [(2, App2.ImageUpload true); (3, App2.ReadEnded (Some data_url));
   (4, App2.AnalysisSettled Throw)]%N.

Definition app1_failed_upload : list (N * App1.event) :=
  [(2, App1.ImageUpload true); (3, App1.ReadEnded (Some data_url));
   (4, App1.AnalysisSettled Throw)]%N.

(** An image upload whose file read ends without a string. *)
Definition app2_failed_read : list (N * App2.event) :=
  [(2, App2.ImageUpload true); (3, App2.ReadEnded None)]%N.

Definition app1_failed_read : list (N * App1.event) :=
  [(2, App1.ImageUpload true); (3, App1.ReadEnded None)]%N.

(** First revision: [sports] searched for twice. *)
Definition app1_sports_twice : App1.State :=
  App1.next 4%N (App1.UpdateNews sports false)
    (App1.next 3%N (App1.FetchSettled (Normal []))
       (App1.next 2%N (App1.UpdateNews sports false) app1_idle)).

(** Responses of the collaborator. *)
Definition reply (t : jsstring) (links : list jsstring) : response :=
  {| text := Some t; groundingChunks := map Some links |}.

Definition link_a : jsstring := lit "https://www.news.example/a".

(** [new URL(url).hostname] where only [link_a] is ever parsed. *)
Definition host_of_link_a (url : jsstring) : option jsstring :=
  if Js.eqb url link_a then Some (lit "www.news.example") else None.

(** For responses without links, where no URL is parsed. *)
Definition no_url (url : jsstring) : option jsstring := None.

Definition two_titles : jsstring := qlit "[{'title':'A'},{'title':'B'}]".
Definition one_object : jsstring := qlit "{'title':'A','summary':'B'}".
Definition empty_array : jsstring := lit "[]".
Definition empty_record : jsstring := lit "[{}]".

(** Two parsed records, and what plain search of the first revision makes
    of them with the one link [link_a]. *)
Definition two_items : list value :=
  [VObj [(K_title, VStr (lit "A"))]; VObj [(K_title, VStr (lit "B"))]].

Definition two_items_linked : list value :=
  [VObj [(K_title, VStr (lit "A")); (K_sourceUrl, VStr link_a);
         (K_sourceName, VStr (lit "news.example"))];
   VObj [(K_title, VStr (lit "B")); (K_sourceUrl, VUndefined);
         (K_sourceName, VStr V1.WEB_SOURCE)]].

(** The example of the specification: an array between two pieces of
    prose. *)
Definition results_in_prose : jsstring :=
  qlit "Here are the results: [{'title':'A','summary':'B','category':'Tech','publishedAt':'now'}] Thanks".

Definition record_A : value :=
  VObj [(K_title, VStr (lit "A")); (K_summary, VStr (lit "B"));
        (K_category, VStr (lit "Tech")); (K_publishedAt, VStr (lit "now"))].

Definition prose_before : jsstring := lit "Here are the results: ".
Definition prose_after : jsstring := lit " Thanks".
Definition record_A_text : jsstring :=
  qlit "{'title':'A','summary':'B','category':'Tech','publishedAt':'now'}".

Definition record_T_text : jsstring := qlit "{'title':'T'}".
Definition record_T : value := VObj [(K_title, VStr (lit "T"))].

(** An array inside a text that is valid JSON as a whole, and an array
    after prose that quotes a word between fences. *)
Definition array_in_object : jsstring := qlit "{'data':[{'title':'T'}]}".
Definition array_after_fenced_word : jsstring :=
  qlit "Use ```jq``` on this: [{'title':'T'}]".

(** A payload in a fenced block: the opening fence and an optional
    language tag on a line of their own, the payload, and the closing fence
    on a line of its own. *)
Definition LF : char := 10%N.

Definition fenced (tag payload : jsstring) : jsstring :=
  lit "```" ++ tag ++ LF :: payload ++ LF :: lit "```".

(** A payload that begins with the word [json], and a payload that is
    itself enclosed in fences. *)
Definition json_word_payload : jsstring := qlit "json {'title':'A'}".
Definition fenced_string_payload : jsstring := qlit "```'[{}]'```".

(** Two closed spans and a rest whose brace is never closed. *)
Definition span_a : jsstring := qlit "{'a':1}".
Definition span_b : jsstring := qlit "{'b':2}".
Definition broken_tail : jsstring := qlit " then {'c':{'d':3}".

(** The six keys of a record of the second revision's plain search. *)
Definition shaped_keys : list jsstring :=
  [K_title; K_summary; K_category; K_publishedAt; K_sourceUrl; K_sourceName].

Definition K_priority : jsstring := lit "priority".

(** A response with a priority on its only record, and one with a null
    among its records. *)
Definition prioritized : jsstring := qlit "[{'title':'A','priority':'High'}]".
Definition with_null : jsstring := qlit "[{'title':'A'},null,{'title':'C'}]".

Definition link_b : jsstring := lit "not a url".

(** The value of one property of every record of a settled fetch. *)
Definition field (k : jsstring) (result : completion (list value))
  : list value :=
  match result with
  | Normal l => map (fun rec => get rec k) l
  | Throw => []
  end.

(** A cleaning function that leaves the part of a text from a code unit
    [x] to a later code unit [y] in place, and only drops code units before
    and after it. *)
Definition frames (x y : char) (f : jsstring -> jsstring) : Prop :=
  forall pre mid post,
  exists pre' post',
    f (pre ++ x :: mid ++ y :: post) = pre' ++ x :: mid ++ y :: post'
    /\ incl pre' pre /\ incl post' post.

Definition front_safe (x : char) (f : jsstring -> jsstring) : Prop :=
  forall pre rest,
  exists pre', f (pre ++ x :: rest) = pre' ++ x :: rest /\ incl pre' pre.

Definition back_safe (y : char) (f : jsstring -> jsstring) : Prop :=
  forall init post,
  exists post', f (init ++ y :: post) = init ++ y :: post' /\ incl post' post.

(** What tells whether a scan is over: the flag and the outstanding work. *)
Definition app2_scan (s : App2.State) : bool * (nat * nat * nat) :=
  (isScanning (App2.agentState s),
   (App2.inFlight s, App2.reading s, App2.analysing s)).

Definition app1_scan (s : App1.State) : bool * (nat * nat * nat) :=
  (isScanning (App1.agentState s),
   (App1.inFlight s, App1.reading s, App1.analysing s)).

End Cases.
Import Cases.

(** * Properties *)

(** ** Strings and property lists *)

Lemma eqb_refl (a : jsstring) : Js.eqb a a = true.
Proof.
  induction a as [|x a IH]; simpl; [reflexivity|].
  now rewrite N.eqb_refl, IH.
Qed.

Lemma eqb_eq (a b : jsstring) : Js.eqb a b = true <-> a = b.
Proof.
  split.
  - revert b; induction a as [|x a IH]; intros [|y b] H; simpl in H;
      try discriminate; [reflexivity|].
    apply andb_true_iff in H as [Hx Hr].
    apply N.eqb_eq in Hx. apply IH in Hr. now subst.
  - intros ->. apply eqb_refl.
Qed.

Lemma eqb_neq (a b : jsstring) : Js.eqb a b = false <-> a <> b.
Proof.
  split.
  - intros H E. apply eqb_eq in E. congruence.
  - intros H. destruct (Js.eqb a b) eqn:E; [|reflexivity].
    apply eqb_eq in E. contradiction.
Qed.

Lemma eqb_sym (a b : jsstring) : Js.eqb a b = Js.eqb b a.
Proof.
  destruct (Js.eqb a b) eqn:E.
  - apply eqb_eq in E. subst. symmetry. apply eqb_refl.
  - symmetry. apply eqb_neq. apply eqb_neq in E. congruence.
Qed.

Lemma neqb_refl (a : jsstring) : neqb a a = false.
Proof. unfold neqb. now rewrite eqb_refl. Qed.

(** ** The refresh timer sees the current render *)

Lemma mode_eqb_refl (m : App2.RefreshMode) : App2.mode_eqb m m = true.
Proof. now destruct m. Qed.

Lemma mode_eqb_eq (a b : App2.RefreshMode) : App2.mode_eqb a b = true -> a = b.
Proof. now destruct a, b. Qed.

Lemma bool_eqb_refl (b : bool) : Bool.eqb b b = true.
Proof. now destruct b. Qed.

Lemma App2_deps_same (s : App2.State) : App2.deps_changed s s = false.
Proof.
  unfold App2.deps_changed.
  now rewrite mode_eqb_refl, neqb_refl, bool_eqb_refl.
Qed.

Lemma App2_deps_unchanged (old new : App2.State) :
  App2.deps_changed old new = false ->
  App2.refreshMode old = App2.refreshMode new
  /\ App2.currentTopic old = App2.currentTopic new
  /\ isScanning (App2.agentState old) = isScanning (App2.agentState new).
Proof.
  unfold App2.deps_changed. intros H.
  apply orb_false_iff in H as [H H3]. apply orb_false_iff in H as [H1 H2].
  apply negb_false_iff in H1, H3. unfold neqb in H2.
  apply negb_false_iff in H2.
  repeat split.
  - now apply mode_eqb_eq.
  - now apply eqb_eq.
  - now apply Bool.eqb_prop.
Qed.

Lemma App2_agent_loop_in_sync (now : N) (s : App2.State) :
  App2.in_sync (App2.agent_loop now s).
Proof.
  unfold App2.in_sync, App2.agent_loop.
  destruct (App2.mode_eqb (App2.refreshMode s) App2.manual) eqn:E; simpl;
    now rewrite E.
Qed.

Lemma App2_handle_timer (now : N) (e : App2.event) (s : App2.State) :
  App2.refreshTimer (App2.handle now e s) = App2.refreshTimer s.
Proof.
  destruct e as [topic deep | outcome | | mode | reads | result | outcome];
    simpl; try reflexivity.
  - unfold App2.tick. destruct (App2.refreshTimer s) as [t|] eqn:E; [|exact E].
    destruct (App2.seen_isScanning t); simpl; exact E.
  - now destruct reads.
  - now destruct result.
  - now destruct outcome.
Qed.

Lemma App2_commit_in_sync (now : N) (old new : App2.State) :
  App2.in_sync old ->
  App2.refreshTimer new = App2.refreshTimer old ->
  App2.in_sync (App2.commit now old new).
Proof.
  intros Hs Ht. unfold App2.commit.
  destruct (App2.deps_changed old new) eqn:E.
  - apply App2_agent_loop_in_sync.
  - apply App2_deps_unchanged in E as (Hm & Hc & Hi).
    unfold App2.in_sync in *. now rewrite Ht, Hs, Hm, Hc, Hi.
Qed.

Lemma App2_reachable_in_sync (s : App2.State) :
  App2.reachable s -> App2.in_sync s.
Proof.
  induction 1 as [h m now | s now e s' _ IH Hstep].
  - apply App2_agent_loop_in_sync.
  - unfold App2.step, App2.next in Hstep.
    destruct (App2.enabled e s); [|discriminate].
    injection Hstep as <-.
    apply App2_commit_in_sync; [exact IH | apply App2_handle_timer].
Qed.

Lemma App1_deps_same (s : App1.State) : App1.deps_changed s s = false.
Proof.
  unfold App1.deps_changed.
  now rewrite !bool_eqb_refl, neqb_refl.
Qed.

Lemma App1_deps_unchanged (old new : App1.State) :
  App1.deps_changed old new = false ->
  App1.isAutoRefresh old = App1.isAutoRefresh new
  /\ App1.currentTopic old = App1.currentTopic new
  /\ isScanning (App1.agentState old) = isScanning (App1.agentState new).
Proof.
  unfold App1.deps_changed. intros H.
  apply orb_false_iff in H as [H H3]. apply orb_false_iff in H as [H1 H2].
  apply negb_false_iff in H1, H3. unfold neqb in H2.
  apply negb_false_iff in H2.
  repeat split.
  - now apply Bool.eqb_prop.
  - now apply eqb_eq.
  - now apply Bool.eqb_prop.
Qed.

Lemma App1_auto_refresh_in_sync (s : App1.State) :
  App1.in_sync (App1.auto_refresh s).
Proof.
  unfold App1.in_sync, App1.auto_refresh.
  destruct (App1.isAutoRefresh s) eqn:E; simpl; now rewrite E.
Qed.

Lemma App1_handle_timer (now : N) (e : App1.event) (s : App1.State) :
  App1.refreshTimer (App1.handle now e s) = App1.refreshTimer s.
Proof.
  destruct e as [topic deep | outcome | | | reads | result | outcome];
    simpl; try reflexivity.
  - now destruct outcome.
  - unfold App1.tick. destruct (App1.refreshTimer s) as [t|] eqn:E; [|exact E].
    destruct (negb (App1.seen_isScanning t)
              && negb (startsWith IMAGE_ANALYSIS (App1.seen_topic t)));
      simpl; exact E.
  - now destruct reads.
  - now destruct result.
  - now destruct outcome.
Qed.

Lemma App1_reachable_in_sync (s : App1.State) :
  App1.reachable s -> App1.in_sync s.
Proof.
  induction 1 as [h | s now e s' _ IH Hstep].
  - apply App1_auto_refresh_in_sync.
  - unfold App1.step, App1.next in Hstep.
    destruct (App1.enabled e s); [|discriminate].
    injection Hstep as <-.
    unfold App1.commit.
    destruct (App1.deps_changed s (App1.handle now e s)) eqn:E.
    + apply App1_auto_refresh_in_sync.
    + apply App1_deps_unchanged in E as (Hm & Hc & Hi).
      unfold App1.in_sync in *.
      now rewrite App1_handle_timer, IH, Hm, Hc, Hi.
Qed.

(** ** The scheduler tick (C8) *)

Lemma App2_tick_dropped (s : App2.State) (now : N) (s' : App2.State) :
  App2.reachable s ->
  isScanning (App2.agentState s) = true ->
  App2.step now App2.Tick s = Some s' ->
  s' = s.
Proof.
  intros Hr Hscan Hstep. apply App2_reachable_in_sync in Hr.
  unfold App2.step, App2.next in Hstep. simpl in Hstep. unfold App2.tick in Hstep.
  unfold App2.in_sync in Hr. rewrite Hr, Hscan in Hstep.
  destruct (App2.mode_eqb (App2.refreshMode s) App2.manual); [discriminate|].
  simpl in Hstep. unfold App2.commit in Hstep.
  rewrite App2_deps_same in Hstep. now injection Hstep.
Qed.

Lemma App2_tick_after_settle (s s1 s2 : App2.State)
  (outcome : completion (list value)) (now1 now2 : N) :
  App2.reachable s ->
  App2.step now1 (App2.FetchSettled outcome) s = Some s1 ->
  App2.step now2 App2.Tick s1 = Some s2 ->
  App2.calls s2 = App2.calls s ++ [(App2.currentTopic s, false)]
  /\ App2.currentTopic s2 = App2.currentTopic s
  /\ isScanning (App2.agentState s2) = true.
Proof.
  intros Hr H1 H2.
  assert (Hr1 : App2.reachable s1) by (eapply App2.reach_step; eassumption).
  apply App2_reachable_in_sync in Hr1.
  assert (Hidle : isScanning (App2.agentState s1) = false
                  /\ App2.calls s1 = App2.calls s
                  /\ App2.currentTopic s1 = App2.currentTopic s).
  { unfold App2.step, App2.next in H1. destruct (App2.enabled _ s); [|discriminate].
    injection H1 as <-. unfold App2.commit, App2.agent_loop.
    destruct (App2.deps_changed _ _);
      [destruct (App2.mode_eqb _ _)|]; destruct outcome; simpl; auto. }
  destruct Hidle as (Hi & Hc & Ht).
  unfold App2.step, App2.next in H2. simpl in H2. unfold App2.tick in H2.
  unfold App2.in_sync in Hr1. rewrite Hr1, Hi in H2.
  destruct (App2.mode_eqb (App2.refreshMode s1) App2.manual) eqn:Em;
    [discriminate|].
  simpl in H2. injection H2 as <-.
  unfold App2.commit, App2.agent_loop.
  destruct (App2.deps_changed _ _); [destruct (App2.mode_eqb _ _)|];
    simpl; rewrite Hc, Ht; auto.
Qed.

Lemma App1_tick_dropped (s : App1.State) (now : N) (s' : App1.State) :
  App1.reachable s ->
  isScanning (App1.agentState s) = true ->
  App1.step now App1.Tick s = Some s' ->
  s' = s.
Proof.
  intros Hr Hscan Hstep. apply App1_reachable_in_sync in Hr.
  unfold App1.step, App1.next in Hstep. simpl in Hstep. unfold App1.tick in Hstep.
  unfold App1.in_sync in Hr. rewrite Hr, Hscan in Hstep.
  destruct (App1.isAutoRefresh s); [|discriminate].
  simpl in Hstep. unfold App1.commit in Hstep.
  rewrite App1_deps_same in Hstep. now injection Hstep.
Qed.

Lemma App1_tick_after_settle (s s1 s2 : App1.State)
  (outcome : completion (list value)) (now1 now2 : N) :
  App1.reachable s ->
  App1.step now1 (App1.FetchSettled outcome) s = Some s1 ->
  App1.step now2 App1.Tick s1 = Some s2 ->
  if startsWith IMAGE_ANALYSIS (App1.currentTopic s) then s2 = s1
  else App1.calls s2 = App1.calls s ++ [(App1.currentTopic s, false)]
       /\ App1.currentTopic s2 = App1.currentTopic s
       /\ isScanning (App1.agentState s2) = true.
Proof.
  intros Hr H1 H2.
  assert (Hr1 : App1.reachable s1) by (eapply App1.reach_step; eassumption).
  apply App1_reachable_in_sync in Hr1.
  assert (Hidle : isScanning (App1.agentState s1) = false
                  /\ App1.calls s1 = App1.calls s
                  /\ App1.currentTopic s1 = App1.currentTopic s).
  { unfold App1.step, App1.next in H1. destruct (App1.enabled _ s); [|discriminate].
    injection H1 as <-. unfold App1.commit, App1.auto_refresh.
    destruct (App1.deps_changed _ _);
      [destruct (App1.isAutoRefresh _)|]; destruct outcome; simpl; auto. }
  destruct Hidle as (Hi & Hc & Ht).
  unfold App1.step, App1.next in H2. cbn [App1.enabled App1.handle] in H2.
  unfold App1.tick in H2. unfold App1.in_sync in Hr1. rewrite Hr1 in H2.
  destruct (App1.isAutoRefresh s1) eqn:Em; [|discriminate].
  cbn [App1.seen_isScanning App1.seen_topic] in H2. rewrite Hi, Ht in H2.
  destruct (startsWith IMAGE_ANALYSIS (App1.currentTopic s));
    cbn [negb andb] in H2; injection H2 as <-.
  - unfold App1.commit. now rewrite App1_deps_same.
  - unfold App1.commit, App1.auto_refresh.
    destruct (App1.deps_changed _ _); [destruct (App1.isAutoRefresh _)|];
      simpl; rewrite Hc; auto.
Qed.

(** C8, as the code has it.  In both revisions a tick that fires while
    [isScanning] is set changes nothing: no fetch is started and nothing is
    queued.  The next tick after a fetch has settled starts one fetch for the
    current topic; the first revision does so only when that topic does not
    start with "Image Analysis", and otherwise drops that tick as well. *)
Theorem C8_tick_skips_while_scanning :
  (forall (s s' : App2.State) (now : N),
      App2.reachable s -> isScanning (App2.agentState s) = true ->
      App2.step now App2.Tick s = Some s' -> s' = s)
  /\ (forall (s s1 s2 : App2.State) outcome (now1 now2 : N),
      App2.reachable s -> isScanning (App2.agentState s) = true ->
      App2.step now1 (App2.FetchSettled outcome) s = Some s1 ->
      App2.step now2 App2.Tick s1 = Some s2 ->
      App2.calls s2 = App2.calls s ++ [(App2.currentTopic s, false)]
      /\ App2.currentTopic s2 = App2.currentTopic s
      /\ isScanning (App2.agentState s2) = true)
  /\ (forall (s s' : App1.State) (now : N),
      App1.reachable s -> isScanning (App1.agentState s) = true ->
      App1.step now App1.Tick s = Some s' -> s' = s)
  /\ (forall (s s1 s2 : App1.State) outcome (now1 now2 : N),
      App1.reachable s -> isScanning (App1.agentState s) = true ->
      App1.step now1 (App1.FetchSettled outcome) s = Some s1 ->
      App1.step now2 App1.Tick s1 = Some s2 ->
      if startsWith IMAGE_ANALYSIS (App1.currentTopic s) then s2 = s1
      else App1.calls s2 = App1.calls s ++ [(App1.currentTopic s, false)]
           /\ App1.currentTopic s2 = App1.currentTopic s
           /\ isScanning (App1.agentState s2) = true).
Proof.
  repeat split; intros.
  - eapply App2_tick_dropped; eassumption.
  - eapply App2_tick_after_settle; eassumption.
  - eapply App2_tick_after_settle; eassumption.
  - eapply App2_tick_after_settle; eassumption.
  - eapply App1_tick_dropped; eassumption.
  - eapply App1_tick_after_settle; eassumption.
Qed.

Lemma C8_witness :
  (App2.reachable app2_scanning
   /\ isScanning (App2.agentState app2_scanning) = true
   /\ App2.step 1%N (App2.FetchSettled (Normal [])) app2_scanning
      = Some app2_idle
   /\ App2.step 120001%N App2.Tick app2_idle = Some app2_ticked)
  /\ (App2.calls app2_ticked
      = App2.calls app2_scanning ++ [(App2.currentTopic app2_scanning, false)]
      /\ App2.currentTopic app2_ticked = App2.currentTopic app2_scanning
      /\ isScanning (App2.agentState app2_ticked) = true).
Proof.
  assert (Hr : App2.reachable app2_scanning) by apply App2.reach_mount.
  assert (Hs : isScanning (App2.agentState app2_scanning) = true)
    by reflexivity.
  assert (H1 : App2.step 1%N (App2.FetchSettled (Normal [])) app2_scanning
               = Some app2_idle) by reflexivity.
  assert (H2 : App2.step 120001%N App2.Tick app2_idle = Some app2_ticked)
    by reflexivity.
  split; [repeat split; assumption|].
  exact (proj1 (proj2 C8_tick_skips_while_scanning)
           app2_scanning app2_idle app2_ticked (Normal []) 1%N 120001%N
           Hr Hs H1 H2).
Defined.

(** C8 as stated fails on the first revision: with the current topic
    [image_topic], the tick that follows the completed fetch starts no
    fetch. *)
Lemma C8_counterexample :
  App1.reachable app1_image_scanning
  /\ isScanning (App1.agentState app1_image_scanning) = true
  /\ App1.currentTopic app1_image_scanning = image_topic
  /\ App1.step 3%N (App1.FetchSettled (Normal [])) app1_image_scanning
     = Some app1_image_idle
  /\ App1.step 3600003%N App1.Tick app1_image_idle = Some app1_image_ticked
  /\ App1.calls app1_image_ticked = App1.calls app1_image_scanning
  /\ isScanning (App1.agentState app1_image_ticked) = false.
Proof.
  split; [|repeat split; reflexivity].
  eapply App1.reach_step with (s := app1_idle) (now := 2%N)
                              (e := App1.UpdateNews image_topic false);
    [|reflexivity].
  eapply App1.reach_step with (s := app1_scanning) (now := 1%N)
                              (e := App1.FetchSettled (Normal []));
    [|reflexivity].
  apply App1.reach_mount.
Qed.

(** ** The scan flag after a cycle (C9) *)

Lemma App2_fetch_settled_resets (s s' : App2.State)
  (outcome : completion (list value)) (now : N) :
  App2.step now (App2.FetchSettled outcome) s = Some s' ->
  isScanning (App2.agentState s') = false.
Proof.
  unfold App2.step, App2.next. destruct (App2.enabled _ s); [|discriminate].
  intros H. injection H as <-. unfold App2.commit, App2.agent_loop.
  destruct (App2.deps_changed _ _); [destruct (App2.mode_eqb _ _)|];
    now destruct outcome.
Qed.

Lemma App1_fetch_settled_resets (s s' : App1.State)
  (outcome : completion (list value)) (now : N) :
  App1.step now (App1.FetchSettled outcome) s = Some s' ->
  isScanning (App1.agentState s') = false.
Proof.
  unfold App1.step, App1.next. destruct (App1.enabled _ s); [|discriminate].
  intros H. injection H as <-. unfold App1.commit, App1.auto_refresh.
  destruct (App1.deps_changed _ _); [destruct (App1.isAutoRefresh _)|];
    now destruct outcome.
Qed.

(** C9 at the failing input.  [analyzeImage] rejects when the collaborator
    call fails, and [handleImageUpload] has no handler around the awaiting
    callback: after an upload whose analysis is rejected, and after one
    whose file read yields no string, nothing is outstanding and
    [isScanning] is still set, in both revisions. *)
Theorem C9_image_upload_leaves_scanning :
  V1.analyzeImage Throw = Throw
  /\ V2.analyzeImage Throw = Throw
  /\ app2_scan app2_idle = (false, (0, 0, 0))
  /\ option_map app2_scan (App2.run app2_failed_upload app2_idle)
     = Some (true, (0, 0, 0))
  /\ option_map app2_scan (App2.run app2_failed_read app2_idle)
     = Some (true, (0, 0, 0))
  /\ app1_scan app1_idle = (false, (0, 0, 0))
  /\ option_map app1_scan (App1.run app1_failed_upload app1_idle)
     = Some (true, (0, 0, 0))
  /\ option_map app1_scan (App1.run app1_failed_read app1_idle)
     = Some (true, (0, 0, 0)).
Proof. repeat split. Qed.

(** ** The search history (C10) *)

Lemma occurrences_firstn_others (topic : jsstring) (l : list jsstring) (n : nat) :
  occurrences topic (firstn n (filter (fun t => neqb t topic) l)) = 0.
Proof.
  unfold occurrences. revert n.
  induction l as [|x l IH]; intros n; simpl.
  - now destruct n.
  - unfold neqb at 1. destruct (Js.eqb x topic) eqn:E; simpl; [apply IH|].
    destruct n; simpl; [reflexivity|].
    rewrite eqb_sym, E. apply IH.
Qed.

Lemma occurrences_unique (topic : jsstring) (l seen : list jsstring) :
  occurrences topic (App1.unique seen l) =
    if existsb (Js.eqb topic) seen then 0
    else if existsb (Js.eqb topic) l then 1 else 0.
Proof.
  unfold occurrences. revert seen.
  induction l as [|x l IH]; intros seen; simpl.
  - now destruct (existsb _ seen).
  - destruct (existsb (Js.eqb x) seen) eqn:Ex.
    + rewrite IH. destruct (existsb (Js.eqb topic) seen) eqn:Et;
        [reflexivity|].
      destruct (Js.eqb topic x) eqn:E; [|reflexivity].
      apply eqb_eq in E. subst. congruence.
    + simpl. destruct (Js.eqb topic x) eqn:E; simpl; rewrite IH; simpl.
      * apply eqb_eq in E. subst. now rewrite Ex, eqb_refl.
      * now rewrite E.
Qed.

Lemma App2_step_update (s s' : App2.State) topic deep (now : N) :
  App2.step now (App2.UpdateNews topic deep) s = Some s' ->
  App2.searchHistory s' = App2.searchHistory (App2.updateNews_begin topic deep s)
  /\ App2.persisted s' = App2.persisted (App2.updateNews_begin topic deep s).
Proof.
  unfold App2.step, App2.next. simpl. intros H. injection H as <-.
  unfold App2.commit, App2.agent_loop.
  destruct (App2.deps_changed _ _); [destruct (App2.mode_eqb _ _)|];
    split; reflexivity.
Qed.

Lemma App1_step_update (s s' : App1.State) topic deep (now : N) :
  App1.step now (App1.UpdateNews topic deep) s = Some s' ->
  App1.searchHistory s' = App1.searchHistory (App1.updateNews_begin topic deep s)
  /\ App1.persisted s' = App1.persisted (App1.updateNews_begin topic deep s).
Proof.
  unfold App1.step, App1.next. simpl. intros H. injection H as <-.
  unfold App1.commit, App1.auto_refresh.
  destruct (App1.deps_changed _ _); [destruct (App1.isAutoRefresh _)|];
    split; reflexivity.
Qed.

(** C10, as the code has it.  [updateNews] records a topic when it is not
    empty and does not start with "Image Analysis"; any other topic leaves
    the history as it was.  For a recorded topic the second revision stores
    a history with exactly one entry for the topic, in first position, and
    at most 10 entries, and hands that list to the local storage.  The first
    revision puts the topic first and keeps the first 50 entries, earlier
    entries of the topic included; the list it hands to the panel has the
    topic once. *)
Theorem C10_history_after_submission :
  forall (topic : jsstring) (deep : bool) (now : N),
    (forall s s' : App2.State,
        App2.step now (App2.UpdateNews topic deep) s = Some s' ->
        if recorded topic then
          occurrences topic (App2.searchHistory s') = 1
          /\ hd_error (App2.searchHistory s') = Some topic
          /\ length (App2.searchHistory s') <= 10
          /\ App2.persisted s' = Some (App2.searchHistory s')
        else App2.searchHistory s' = App2.searchHistory s)
    /\ (forall s s' : App1.State,
        App1.step now (App1.UpdateNews topic deep) s = Some s' ->
        if recorded topic then
          App1.searchHistory s' = firstn 50 (topic :: App1.searchHistory s)
          /\ hd_error (App1.searchHistory s') = Some topic
          /\ length (App1.searchHistory s') <= 50
          /\ App1.persisted s' = Some (App1.searchHistory s')
          /\ occurrences topic (App1.shown_history s') = 1
        else App1.searchHistory s' = App1.searchHistory s).
Proof.
  intros topic deep now. split; intros s s' Hstep.
  - apply App2_step_update in Hstep as [Hh Hp]. rewrite Hp, Hh. simpl.
    destruct (recorded topic); [|reflexivity].
    unfold App2.newH. rewrite firstn_cons. repeat split.
    + pose proof (occurrences_firstn_others topic (App2.searchHistory s) 9)
        as H0.
      unfold occurrences in *. cbn [filter]. rewrite eqb_refl.
      cbn [length]. now rewrite H0.
    + rewrite <- firstn_cons. apply firstn_le_length.
  - apply App1_step_update in Hstep as [Hh Hp].
    unfold App1.shown_history. rewrite Hp, Hh. simpl.
    destruct (recorded topic); [|reflexivity].
    unfold App1.newHistory. repeat split.
    + apply firstn_le_length.
    + rewrite occurrences_unique, firstn_cons.
      cbn [existsb]. now rewrite eqb_refl.
Qed.

Lemma C10_witness :
  App2.step 2%N (App2.UpdateNews sports false) app2_idle
  = Some (App2.next 2%N (App2.UpdateNews sports false) app2_idle)
  /\ occurrences sports
       (App2.searchHistory (App2.next 2%N (App2.UpdateNews sports false) app2_idle))
     = 1.
Proof.
  split; [reflexivity|].
  exact (proj1 (proj1 (C10_history_after_submission sports false 2%N)
                  app2_idle _ eq_refl)).
Defined.

(** C10 as stated fails: the second revision records no entry for
    [image_topic], and the first revision keeps both entries of a topic
    submitted twice. *)
Lemma C10_counterexample :
  App2.step 2%N (App2.UpdateNews image_topic false) app2_idle
  = Some (App2.next 2%N (App2.UpdateNews image_topic false) app2_idle)
  /\ occurrences image_topic
       (App2.searchHistory
          (App2.next 2%N (App2.UpdateNews image_topic false) app2_idle)) = 0
  /\ App1.run [(2%N, App1.UpdateNews sports false);
               (3%N, App1.FetchSettled (Normal []));
               (4%N, App1.UpdateNews sports false)] app1_idle
     = Some app1_sports_twice
  /\ occurrences sports (App1.searchHistory app1_sports_twice) = 2.
Proof. repeat split. Qed.

(** ** Records and links (C4, C5, C6) *)

Lemma lookup_set_prop_same (k : jsstring) (v : value) props :
  lookup k (set_prop k v props) = Some v.
Proof.
  induction props as [|[k' v'] r IH]; simpl.
  - now rewrite eqb_refl.
  - destruct (Js.eqb k' k) eqn:E; simpl.
    + now rewrite eqb_refl.
    + now rewrite E.
Qed.

Lemma lookup_set_prop_other k k' v props :
  Js.eqb k' k = false ->
  lookup k (set_prop k' v props) = lookup k props.
Proof.
  intros Hk. induction props as [|[k0 v0] r IH]; simpl.
  - now rewrite Hk.
  - destruct (Js.eqb k0 k') eqn:E; simpl.
    + apply eqb_eq in E. subst. now rewrite Hk.
    + now rewrite IH.
Qed.

Lemma array_map_nth f items k l :
  array_map f items k = Normal l ->
  length l = length items
  /\ forall i rec, nth_error l i = Some rec ->
       exists x, nth_error items i = Some x /\ f x (k + i) = Normal rec.
Proof.
  revert k l. induction items as [|x items IH]; intros k l H; simpl in H.
  - injection H as <-. split; [reflexivity|].
    intros [|i] rec Hn; discriminate.
  - destruct (f x k) as [y|] eqn:Ef; [|discriminate].
    destruct (array_map f items (S k)) as [ys|] eqn:Em; [|discriminate].
    injection H as <-. destruct (IH _ _ Em) as [Hlen Hnth].
    split; [simpl; now rewrite Hlen|].
    intros [|i] rec Hn; simpl in Hn.
    + injection Hn as <-. exists x. now rewrite Nat.add_0_r.
    + destruct (Hnth _ _ Hn) as (x' & Hx & Hf).
      exists x'. split; [exact Hx|]. now rewrite Nat.add_succ_r.
Qed.

Lemma attach_link_sourceUrl h links article index rec :
  V1.attach_link h links article index = Normal rec ->
  get rec K_sourceUrl = url_value (nth_error links index).
Proof.
  unfold V1.attach_link. intros H.
  assert (Hurl : (if index <? length links then nth_error links index else None)
                 = nth_error links index).
  { destruct (index <? length links) eqn:E; [reflexivity|].
    apply Nat.ltb_ge in E. symmetry. now apply nth_error_None. }
  rewrite Hurl in H.
  destruct (match nth_error links index with
            | Some (c :: u) => source_host h (c :: u)
            | _ => Normal (VStr V1.WEB_SOURCE)
            end) as [name|]; [|discriminate].
  injection H as <-. simpl.
  rewrite lookup_set_prop_other by reflexivity.
  now rewrite lookup_set_prop_same.
Qed.

Lemma attach_cycled_sourceUrl links a i rec :
  V1.attach_cycled links a i = Normal rec ->
  get rec K_sourceUrl = url_value (link_cycled links i).
Proof.
  unfold V1.attach_cycled. intros H. injection H as <-. simpl.
  rewrite lookup_set_prop_other by reflexivity.
  now rewrite lookup_set_prop_same.
Qed.

Lemma V2_attach_cycled_sourceUrl links a i rec :
  V2.attach_cycled links a i = Normal rec ->
  get rec K_sourceUrl = url_value (link_cycled links i).
Proof.
  unfold V2.attach_cycled. intros H. injection H as <-. simpl.
  rewrite lookup_set_prop_other by reflexivity.
  now rewrite lookup_set_prop_same.
Qed.

Lemma shape_sourceUrl h links article index rec :
  V2.shape h links article index = Normal rec ->
  get rec K_sourceUrl = url_value (link_cycled links index).
Proof.
  unfold V2.shape. intros H.
  destruct (member article K_title); [|discriminate].
  destruct (match link_cycled links index with
            | Some (c :: u) => source_host h (c :: u)
            | _ => Normal VUndefined
            end); [|discriminate].
  now injection H as <-.
Qed.

(** With at least one link, a cycled index always finds one. *)
Lemma link_cycled_some links i :
  links <> [] -> exists u, In u links /\ link_cycled links i = Some u.
Proof.
  intros Hne. destruct links as [|u0 links]; [contradiction|].
  unfold link_cycled.
  destruct (nth_error (u0 :: links) (i mod length (u0 :: links))) as [u|] eqn:E.
  - exists u. split; [|reflexivity]. eapply nth_error_In; eassumption.
  - apply nth_error_None in E.
    pose proof (Nat.mod_upper_bound i (length (u0 :: links))) as Hb.
    simpl in *. lia.
Qed.

(** C5, as the code has it.  In the first revision of the service plain
    search gives each record the link at its own index and leaves
    [sourceUrl] undefined from the number of links on.  Deep research in
    both revisions, and plain search in the second revision, give record
    [i] the link [i mod length links], so that every record has a link as
    soon as there is one. *)
Theorem C5_link_assignment :
  forall (h : jsstring -> option jsstring) (links : list jsstring)
         (items l : list value) (i : nat) (rec : value),
    nth_error l i = Some rec ->
    (call_map (VArr items) (V1.attach_link h links) = Normal l ->
       get rec K_sourceUrl = url_value (nth_error links i)
       /\ (length links <= i -> get rec K_sourceUrl = VUndefined))
    /\ (call_map (VArr items) (V1.attach_cycled links) = Normal l
        \/ call_map (VArr items) (V2.attach_cycled links) = Normal l
        \/ array_map (V2.shape h links) items 0 = Normal l ->
       get rec K_sourceUrl = url_value (link_cycled links i)
       /\ (links <> [] ->
           exists u, In u links /\ get rec K_sourceUrl = VStr u)).
Proof.
  intros h links items l i rec Hn. split.
  - intros H. apply array_map_nth in H as [_ H].
    destruct (H _ _ Hn) as (x & _ & Hf). simpl in Hf.
    apply attach_link_sourceUrl in Hf. split; [exact Hf|].
    intros Hle. apply nth_error_None in Hle. now rewrite Hf, Hle.
  - intros H.
    assert (Hu : get rec K_sourceUrl = url_value (link_cycled links i)).
    { destruct H as [H | [H | H]]; apply array_map_nth in H as [_ H];
        destruct (H _ _ Hn) as (x & _ & Hf); simpl in Hf.
      - now apply attach_cycled_sourceUrl in Hf.
      - now apply V2_attach_cycled_sourceUrl in Hf.
      - now apply shape_sourceUrl in Hf. }
    split; [exact Hu|]. intros Hne.
    destruct (link_cycled_some links i Hne) as (u & Hin & Hc).
    exists u. split; [exact Hin|]. now rewrite Hu, Hc.
Qed.

Lemma C5_witness :
  (nth_error two_items_linked 1 = Some (nth 1 two_items_linked VNull)
   /\ call_map (VArr two_items) (V1.attach_link host_of_link_a [link_a])
      = Normal two_items_linked)
  /\ get (nth 1 two_items_linked VNull) K_sourceUrl = VUndefined.
Proof.
  assert (Hn : nth_error two_items_linked 1
               = Some (nth 1 two_items_linked VNull)) by reflexivity.
  assert (Hm : call_map (VArr two_items)
                 (V1.attach_link host_of_link_a [link_a])
               = Normal two_items_linked) by reflexivity.
  split; [split; assumption|].
  exact (proj2 (proj1 (C5_link_assignment host_of_link_a [link_a] two_items
                         two_items_linked 1 _ Hn) Hm) (le_n 1)).
Defined.

(** C5 as stated fails on the second revision, whose plain search cycles
    the links: with two records and one link the second record, at index 1,
    has that link as its [sourceUrl]. *)
Lemma C5_counterexample :
  JSON_parse two_titles = Some (VArr two_items)
  /\ field K_sourceUrl
       (V2.fetchNewsFromAgent host_of_link_a (Normal (reply two_titles [link_a])))
     = [VStr link_a; VStr link_a].
Proof. split; vm_compute; reflexivity. Qed.

(** C6, as the code has it.  When [extractJson] yields an object, the second
    revision of [fetchNewsFromAgent] maps the array under [news] if there is
    one, else the array under [articles] if there is one, else the object
    alone.  The first revision takes whatever truthy value is under [news],
    else under [articles], and calls its [map]; with neither it returns the
    placeholder record and does not wrap the object. *)
Theorem C6_single_object :
  forall (h : jsstring -> option jsstring) (r : response)
         (props : list (jsstring * value)),
    (V2.extractJson (text_or [] r) = VObj props ->
       V2.fetchNewsFromAgent_try h r =
         array_map (V2.shape h (validLinks (groundingChunks r)))
           (match get (VObj props) K_news with
            | VArr news => news
            | _ =>
                match get (VObj props) K_articles with
                | VArr articles => articles
                | _ => [VObj props]
                end
            end) 0)
    /\ (V1.extractJson (text_or [] r) = VObj props ->
       V1.fetchNewsFromAgent_try h r =
         if truthy (get (VObj props) K_news) then
           call_map (get (VObj props) K_news)
             (V1.attach_link h (validLinks (groundingChunks r)))
         else if truthy (get (VObj props) K_articles) then
           call_map (get (VObj props) K_articles)
             (V1.attach_link h (validLinks (groundingChunks r)))
         else Normal [notice V1.PARSE_TITLE V1.PARSE_SUMMARY]).
Proof.
  intros h r props. split; intros H.
  - unfold V2.fetchNewsFromAgent_try. rewrite H. reflexivity.
  - unfold V1.fetchNewsFromAgent_try. rewrite H. unfold V1.normalize.
    cbn [truthy isArray negb orb andb fst snd].
    destruct (truthy (get (VObj props) K_news)); [reflexivity|].
    destruct (truthy (get (VObj props) K_articles)); reflexivity.
Qed.

Lemma C6_witness :
  V2.extractJson (text_or [] (reply one_object []))
  = VObj [(K_title, VStr (lit "A")); (K_summary, VStr (lit "B"))]
  /\ V2.fetchNewsFromAgent_try no_url (reply one_object [])
     = array_map (V2.shape no_url [])
         [VObj [(K_title, VStr (lit "A")); (K_summary, VStr (lit "B"))]] 0.
Proof.
  assert (H : V2.extractJson (text_or [] (reply one_object []))
              = VObj [(K_title, VStr (lit "A")); (K_summary, VStr (lit "B"))])
    by (vm_compute; reflexivity).
  split; [exact H|].
  exact (proj1 (C6_single_object no_url (reply one_object []) _) H).
Defined.

(** C6 as stated fails on the first revision: a response that is one object
    with neither [news] nor [articles] gives the placeholder record, not a
    record made of the object. *)
Lemma C6_counterexample :
  V1.extractJson one_object
  = VObj [(K_title, VStr (lit "A")); (K_summary, VStr (lit "B"))]
  /\ V1.fetchNewsFromAgent no_url (Normal (reply one_object []))
     = Normal [notice V1.PARSE_TITLE V1.PARSE_SUMMARY]
  /\ field K_title (V1.fetchNewsFromAgent no_url (Normal (reply one_object [])))
     <> [VStr (lit "A")].
Proof.
  split; [vm_compute; reflexivity|].
  split; [vm_compute; reflexivity|].
  vm_compute. discriminate.
Qed.

(** The second revision of [fetchNewsFromAgent] fills the four required
    fields of every record it returns. *)
Lemma or_else_defined (a : value) (d : jsstring) :
  or_else a (VStr d) <> VUndefined.
Proof.
  unfold or_else. destruct a; simpl; try discriminate.
  - destruct b; discriminate.
  - destruct (negb _); discriminate.
  - destruct s; discriminate.
Qed.

Lemma notice_fields (t sm k : jsstring) :
  In k [K_title; K_summary; K_category; K_publishedAt] ->
  get (notice t sm) k <> VUndefined.
Proof.
  intros [<- | [<- | [<- | [<- | []]]]]; vm_compute; discriminate.
Qed.

Lemma shape_fields h links article index rec k :
  V2.shape h links article index = Normal rec ->
  In k [K_title; K_summary; K_category; K_publishedAt] ->
  get rec k <> VUndefined.
Proof.
  unfold V2.shape. intros H Hk.
  destruct (member article K_title) as [title|]; [|discriminate].
  destruct (match link_cycled links index with
            | Some (c :: u) => source_host h (c :: u)
            | _ => Normal VUndefined
            end) as [name|]; [|discriminate].
  injection H as <-.
  destruct Hk as [<- | [<- | [<- | [<- | []]]]];
    simpl; apply or_else_defined.
Qed.

Lemma V2_fetchNews_fields h call l rec k :
  V2.fetchNewsFromAgent h call = Normal l ->
  In rec l ->
  In k [K_title; K_summary; K_category; K_publishedAt] ->
  get rec k <> VUndefined.
Proof.
  intros H Hin Hk. unfold V2.fetchNewsFromAgent in H.
  assert (Hnotice : Normal [notice V2.ERR_TITLE V2.ERR_SUMMARY] = Normal l ->
                    get rec k <> VUndefined).
  { intros E. injection E as <-. destruct Hin as [<- | []].
    now apply notice_fields. }
  destruct call as [r|]; [|now apply Hnotice].
  destruct (V2.fetchNewsFromAgent_try h r) as [l'|] eqn:E;
    [|now apply Hnotice].
  injection H as ->. unfold V2.fetchNewsFromAgent_try in E.
  apply array_map_nth in E as [_ E].
  apply In_nth_error in Hin as [i Hi].
  destruct (E _ _ Hi) as (x & _ & Hf).
  eapply shape_fields; eassumption.
Qed.

(** C4 at the failing input.  For the response text [[{}]] plain search of
    the first revision and deep research of both revisions return one record
    that has [sourceUrl] and [sourceName] only: [title], [summary],
    [category] and [publishedAt] are undefined.  Plain search of the second
    revision fills the four fields for the same response. *)
Theorem C4_missing_fields_stay_undefined :
  V1.fetchNewsFromAgent no_url (Normal (reply empty_record []))
  = Normal [VObj [(K_sourceUrl, VUndefined);
                  (K_sourceName, VStr V1.WEB_SOURCE)]]
  /\ V1.fetchDeepResearch (Normal (reply empty_record []))
     = Normal [VObj [(K_sourceUrl, VUndefined);
                     (K_sourceName, VStr V1.DEEP_SOURCE)]]
  /\ V2.fetchDeepResearch (Normal (reply empty_record []))
     = Normal [VObj [(K_sourceUrl, VUndefined);
                     (K_sourceName, VStr V2.DEEP_SOURCE)]]
  /\ (forall k, In k [K_title; K_summary; K_category; K_publishedAt] ->
        field k (V1.fetchNewsFromAgent no_url (Normal (reply empty_record [])))
        = [VUndefined]
        /\ field k (V1.fetchDeepResearch (Normal (reply empty_record [])))
           = [VUndefined]
        /\ field k (V2.fetchDeepResearch (Normal (reply empty_record [])))
           = [VUndefined])
  /\ V2.fetchNewsFromAgent no_url (Normal (reply empty_record []))
     = Normal [VObj [(K_title, VStr V2.NO_TITLE); (K_summary, VStr []);
                     (K_category, VStr GENERAL);
                     (K_publishedAt, VStr V2.RECENT);
                     (K_sourceUrl, VUndefined); (K_sourceName, VUndefined)]].
Proof.
  split; [vm_compute; reflexivity|].
  split; [vm_compute; reflexivity|].
  split; [vm_compute; reflexivity|].
  split; [|vm_compute; reflexivity].
  intros k [<- | [<- | [<- | [<- | []]]]]; repeat split; vm_compute; reflexivity.
Qed.

(** ** No exception leaves the normalizer (C1) *)

Lemma V1_extractJson_null (t : jsstring) :
  JSON_parse (V1.clean t) = None ->
  V1.bracket_parse (V1.clean t) = None ->
  V1.sequential (V1.clean t) = [] ->
  V1.extractJson t = VNull.
Proof.
  intros H1 H2 H3. unfold V1.extractJson, V1.extract_cleaned.
  destruct t; [reflexivity|]. now rewrite H1, H2, H3.
Qed.

Lemma V2_extractJson_null (t : jsstring) :
  JSON_parse (V2.clean t) = None ->
  V2.bracket_parse (V2.clean t) = None ->
  V2.brace_parse (V2.clean t) = None ->
  V2.extractJson t = VNull.
Proof.
  intros H1 H2 H3. unfold V2.extractJson, V2.extract_cleaned.
  destruct t; [reflexivity|]. now rewrite H1, H2, H3.
Qed.

Lemma array_map_nil f items k :
  array_map f items k = Normal [] -> items = [].
Proof.
  destruct items as [|x items]; [reflexivity|]. simpl.
  destruct (f x k); [|discriminate].
  destruct (array_map f items (S k)); discriminate.
Qed.

Lemma call_map_nil v f : call_map v f = Normal [] -> v = VArr [].
Proof.
  destruct v; simpl; try discriminate.
  intros H. apply array_map_nil in H. now subst.
Qed.

(** C1, as the code has it.  However the collaborator call settles,
    [fetchNewsFromAgent] resolves, in both revisions.  When the direct
    parse, the bracket pair and the last step all fail, [extractJson]
    returns null; the first revision then returns exactly the one
    placeholder record with the fixed title and summary, and the second
    revision returns no record.  The first revision returns no record
    exactly when the array it maps is empty. *)
Theorem C1_fetch_never_raises :
  forall (h : jsstring -> option jsstring) (call : completion response),
    (exists l, V1.fetchNewsFromAgent h call = Normal l)
    /\ (exists l, V2.fetchNewsFromAgent h call = Normal l)
    /\ (forall r, call = Normal r ->
          JSON_parse (V1.clean (text_or [] r)) = None ->
          V1.bracket_parse (V1.clean (text_or [] r)) = None ->
          V1.sequential (V1.clean (text_or [] r)) = [] ->
          V1.extractJson (text_or [] r) = VNull
          /\ V1.fetchNewsFromAgent h call
             = Normal [notice V1.PARSE_TITLE V1.PARSE_SUMMARY])
    /\ (forall r, call = Normal r ->
          JSON_parse (V2.clean (text_or [] r)) = None ->
          V2.bracket_parse (V2.clean (text_or [] r)) = None ->
          V2.brace_parse (V2.clean (text_or [] r)) = None ->
          V2.extractJson (text_or [] r) = VNull
          /\ V2.fetchNewsFromAgent h call = Normal [])
    /\ (V1.fetchNewsFromAgent h call = Normal [] <->
        exists r, call = Normal r
                  /\ V1.normalize (V1.PARSE_TITLE, V1.PARSE_SUMMARY)
                       (V1.extractJson (text_or [] r)) = inl (VArr [])).
Proof.
  intros h call. repeat apply conj.
  - unfold V1.fetchNewsFromAgent. destruct call as [r|]; [|eauto].
    destruct (V1.fetchNewsFromAgent_try h r); eauto.
  - unfold V2.fetchNewsFromAgent. destruct call as [r|]; [|eauto].
    destruct (V2.fetchNewsFromAgent_try h r); eauto.
  - intros r -> H1 H2 H3.
    pose proof (V1_extractJson_null _ H1 H2 H3) as Hn. split; [exact Hn|].
    unfold V1.fetchNewsFromAgent, V1.fetchNewsFromAgent_try.
    now rewrite Hn.
  - intros r -> H1 H2 H3.
    pose proof (V2_extractJson_null _ H1 H2 H3) as Hn. split; [exact Hn|].
    unfold V2.fetchNewsFromAgent, V2.fetchNewsFromAgent_try.
    now rewrite Hn.
  - intros H. unfold V1.fetchNewsFromAgent in H.
    destruct call as [r|]; [|discriminate]. exists r. split; [reflexivity|].
    unfold V1.fetchNewsFromAgent_try in H.
    destruct (V1.normalize _ _) as [articles | early] eqn:En.
    + destruct (call_map articles _) as [l|] eqn:Em; [|discriminate].
      injection H as ->. apply call_map_nil in Em. now subst.
    + unfold V1.normalize in En.
      destruct (negb _ || negb _); [|discriminate].
      destruct (truthy _ && truthy _); [discriminate|].
      destruct (truthy _ && truthy _); [discriminate|].
      injection En as <-. discriminate.
  - intros (r & -> & Hn).
    unfold V1.fetchNewsFromAgent, V1.fetchNewsFromAgent_try.
    now rewrite Hn.
Qed.

Lemma C1_witness :
  (JSON_parse (V1.clean (text_or [] (reply (lit "no data today") []))) = None
   /\ V1.bracket_parse (V1.clean (text_or [] (reply (lit "no data today") [])))
      = None
   /\ V1.sequential (V1.clean (text_or [] (reply (lit "no data today") [])))
      = [])
  /\ V1.fetchNewsFromAgent no_url (Normal (reply (lit "no data today") []))
     = Normal [notice V1.PARSE_TITLE V1.PARSE_SUMMARY].
Proof.
  assert (H1 : JSON_parse (V1.clean (text_or [] (reply (lit "no data today") [])))
               = None) by (vm_compute; reflexivity).
  assert (H2 : V1.bracket_parse
                 (V1.clean (text_or [] (reply (lit "no data today") [])))
               = None) by (vm_compute; reflexivity).
  assert (H3 : V1.sequential
                 (V1.clean (text_or [] (reply (lit "no data today") [])))
               = []) by (vm_compute; reflexivity).
  split; [repeat split; assumption|].
  exact (proj2 (proj1 (proj2 (proj2 (C1_fetch_never_raises no_url
           (Normal (reply (lit "no data today") [])))))
           _ eq_refl H1 H2 H3)).
Defined.

(** C1 as stated fails: the response text [[]] parses, and the first
    revision returns the empty sequence for it. *)
Lemma C1_counterexample :
  V1.extractJson empty_array = VArr []
  /\ V1.fetchNewsFromAgent no_url (Normal (reply empty_array [])) = Normal [].
Proof. split; vm_compute; reflexivity. Qed.

(** ** Finding and cutting *)

Lemma find_char_skip (c : char) (pre rest : jsstring) :
  ~ In c pre -> find_char c (pre ++ c :: rest) = Some (length pre).
Proof.
  induction pre as [|x pre IH]; intros Hn; simpl.
  - now rewrite N.eqb_refl.
  - destruct (N.eqb x c) eqn:E.
    + apply N.eqb_eq in E. subst. exfalso. apply Hn. now left.
    + rewrite IH; [reflexivity|]. intros Hin. apply Hn. now right.
Qed.

Lemma lastIndexOf_none (c : char) (s : jsstring) :
  ~ In c s -> lastIndexOf s c = None.
Proof.
  induction s as [|x s IH]; intros Hn; simpl; [reflexivity|].
  rewrite IH by (intros Hin; apply Hn; now right).
  destruct (N.eqb x c) eqn:E; [|reflexivity].
  apply N.eqb_eq in E. subst. exfalso. apply Hn. now left.
Qed.

Lemma lastIndexOf_last (c : char) (init post : jsstring) :
  ~ In c post -> lastIndexOf (init ++ c :: post) c = Some (length init).
Proof.
  intros Hn. induction init as [|x init IH]; simpl.
  - now rewrite lastIndexOf_none, N.eqb_refl.
  - now rewrite IH.
Qed.

Lemma indexOf_0 (s : jsstring) (c : char) : indexOf s c 0 = find_char c s.
Proof. unfold indexOf. simpl. now destruct (find_char c s). Qed.

Lemma substring_middle (a m b : jsstring) :
  substring (a ++ m ++ b) (length a) (length a + length m) = m.
Proof.
  unfold substring. rewrite !length_app.
  replace (Nat.min (length a) (length a + (length m + length b)))
    with (length a) by lia.
  replace (Nat.min (length a + length m) (length a + (length m + length b)))
    with (length a + length m) by lia.
  replace (Nat.max (length a) (length a + length m) -
           Nat.min (length a) (length a + length m)) with (length m) by lia.
  replace (Nat.min (length a) (length a + length m)) with (length a) by lia.
  rewrite skipn_app, skipn_all, Nat.sub_diag. simpl.
  rewrite firstn_app, firstn_all, Nat.sub_diag. simpl.
  apply app_nil_r.
Qed.

(** The bracket step finds the array of a text in which no [[] comes
    before it and no []] after it. *)
Lemma bracket_span (pre body post : jsstring) :
  ~ In LBRACKET pre -> ~ In RBRACKET post ->
  let t := pre ++ LBRACKET :: body ++ RBRACKET :: post in
  indexOf t LBRACKET 0 = Some (length pre)
  /\ lastIndexOf t RBRACKET = Some (length pre + S (length body))
  /\ substring t (length pre) (length pre + S (length body) + 1)
     = LBRACKET :: body ++ [RBRACKET].
Proof.
  intros Hpre Hpost t. subst t. repeat split.
  - rewrite indexOf_0. now apply find_char_skip.
  - replace (pre ++ LBRACKET :: body ++ RBRACKET :: post)
      with ((pre ++ LBRACKET :: body) ++ RBRACKET :: post)
      by (now rewrite <- app_assoc).
    rewrite lastIndexOf_last by assumption.
    rewrite length_app. reflexivity.
  - replace (pre ++ LBRACKET :: body ++ RBRACKET :: post)
      with (pre ++ (LBRACKET :: body ++ [RBRACKET]) ++ post)
      by (simpl; now rewrite <- app_assoc).
    replace (length pre + S (length body) + 1)
      with (length pre + length (LBRACKET :: body ++ [RBRACKET]))
      by (simpl; rewrite length_app; simpl; lia).
    apply substring_middle.
Qed.

Lemma V1_bracket_parse_span (pre body post : jsstring) :
  ~ In LBRACKET pre -> ~ In RBRACKET post ->
  V1.bracket_parse (pre ++ LBRACKET :: body ++ RBRACKET :: post)
  = JSON_parse (LBRACKET :: body ++ [RBRACKET]).
Proof.
  intros Hpre Hpost.
  destruct (bracket_span pre body post Hpre Hpost) as (Hi & Hl & Hs).
  unfold V1.bracket_parse. rewrite Hi, Hl, Hs.
  now replace (length pre <? length pre + S (length body)) with true
    by (symmetry; apply Nat.ltb_lt; lia).
Qed.

Lemma V2_bracket_parse_span (pre body post : jsstring) :
  ~ In LBRACKET pre -> ~ In RBRACKET post ->
  V2.bracket_parse (pre ++ LBRACKET :: body ++ RBRACKET :: post)
  = JSON_parse (LBRACKET :: body ++ [RBRACKET]).
Proof.
  intros Hpre Hpost.
  destruct (bracket_span pre body post Hpre Hpost) as (Hi & Hl & Hs).
  unfold V2.bracket_parse. rewrite Hi, Hl, Hs.
  now replace (length pre <? length pre + S (length body)) with true
    by (symmetry; apply Nat.ltb_lt; lia).
Qed.

(** ** What the pre-cleaning keeps *)

Lemma trimStart_incl (s : jsstring) : incl (trimStart s) s.
Proof.
  induction s as [|c s IH]; simpl; [apply incl_refl|].
  destruct (isWhiteSpace c); [|apply incl_refl].
  now apply incl_tl.
Qed.

Lemma trimStart_front (x : char) :
  isWhiteSpace x = false -> front_safe x trimStart.
Proof.
  intros Hx pre rest. induction pre as [|c pre IH]; simpl.
  - exists []. rewrite Hx. split; [reflexivity | apply incl_refl].
  - destruct (isWhiteSpace c).
    + destruct IH as (pre' & E & Hin). exists pre'.
      split; [exact E | now apply incl_tl].
    + exists (c :: pre). split; [reflexivity | apply incl_refl].
Qed.

Lemma startsWith_front (p pre rest : jsstring) (x : char) :
  ~ In x p -> startsWith p (pre ++ x :: rest) = true ->
  exists pre2, pre = p ++ pre2.
Proof.
  revert pre. induction p as [|a p IH]; intros pre Hn H.
  - now exists pre.
  - destruct pre as [|b pre]; simpl in H;
      apply andb_true_iff in H as [Hab Hr]; apply N.eqb_eq in Hab.
    + exfalso. apply Hn. now left.
    + subst b. destruct (IH pre) as [pre2 ->]; [|exact Hr|now exists pre2].
      intros Hin. apply Hn. now right.
Qed.

Lemma startsWith_ci_front (p pre rest : jsstring) (x : char) :
  (forall a, In a p -> lower a <> lower x) ->
  startsWith_ci p (pre ++ x :: rest) = true ->
  exists q pre2, pre = q ++ pre2 /\ length q = length p.
Proof.
  revert pre. induction p as [|a p IH]; intros pre Hn H.
  - now exists [], pre.
  - destruct pre as [|b pre]; simpl in H;
      apply andb_true_iff in H as [Hab Hr]; apply N.eqb_eq in Hab.
    + exfalso. apply (Hn a); [now left | exact Hab].
    + destruct (IH pre) as (q & pre2 & -> & Hl); [|exact Hr|].
      * intros a' Hin. apply Hn. now right.
      * exists (b :: q), pre2. split; [reflexivity | simpl; now rewrite Hl].
Qed.

Lemma skipn_front (q pre2 rest : jsstring) (n : nat) :
  length q = n -> skipn n ((q ++ pre2) ++ rest) = pre2 ++ rest.
Proof.
  intros <-. rewrite <- app_assoc, skipn_app, skipn_all, Nat.sub_diag.
  reflexivity.
Qed.

Lemma front_safe_compose (x : char) (f g : jsstring -> jsstring) :
  front_safe x f -> front_safe x g -> front_safe x (fun t => g (f t)).
Proof.
  intros Hf Hg pre rest.
  destruct (Hf pre rest) as (pre1 & -> & H1).
  destruct (Hg pre1 rest) as (pre2 & -> & H2).
  exists pre2. split; [reflexivity | eapply incl_tran; eassumption].
Qed.

(** Dropping a prefix that cannot hold [x], when it is there. *)
Lemma drop_prefix_front (x : char) (p : jsstring) :
  ~ In x p ->
  front_safe x (fun t => if startsWith p t then skipn (length p) t else t).
Proof.
  intros Hn pre rest.
  destruct (startsWith p (pre ++ x :: rest)) eqn:E.
  - destruct (startsWith_front p pre rest x Hn E) as [pre2 ->].
    exists pre2. split.
    + now rewrite skipn_front.
    + now apply incl_appr, incl_refl.
  - exists pre. split; [reflexivity | apply incl_refl].
Qed.

Lemma drop_prefix_ci_front (x : char) (p : jsstring) :
  (forall a, In a p -> lower a <> lower x) ->
  front_safe x (fun t => if startsWith_ci p t then skipn (length p) t else t).
Proof.
  intros Hn pre rest.
  destruct (startsWith_ci p (pre ++ x :: rest)) eqn:E.
  - destruct (startsWith_ci_front p pre rest x Hn E) as (q & pre2 & -> & Hl).
    exists pre2. split.
    + now rewrite skipn_front.
    + now apply incl_appr, incl_refl.
  - exists pre. split; [reflexivity | apply incl_refl].
Qed.

Lemma json_word_differs (x : char) :
  (x = LBRACKET \/ x = LBRACE) ->
  forall a, In a (lit "json") -> lower a <> lower x.
Proof.
  intros [-> | ->] a [<- | [<- | [<- | [<- | []]]]]; vm_compute; discriminate.
Qed.

Lemma strip_json_word_front (x : char) :
  (x = LBRACKET \/ x = LBRACE) -> front_safe x V1.strip_json_word.
Proof.
  intros Hx pre rest. unfold V1.strip_json_word.
  assert (Hws : isWhiteSpace x = false) by (destruct Hx as [-> | ->]; reflexivity).
  destruct (startsWith_ci V1.JSON_WORD (pre ++ x :: rest)) eqn:E.
  - destruct (startsWith_ci_front _ pre rest x (json_word_differs x Hx) E)
      as (q & pre2 & -> & Hl).
    rewrite skipn_front by exact Hl.
    destruct (trimStart_front x Hws pre2 rest) as (pre3 & -> & Hin).
    exists pre3. split; [reflexivity|].
    now apply incl_appr.
  - exists pre. split; [reflexivity | apply incl_refl].
Qed.

Lemma strip_leading_fence_front (x : char) :
  (x = LBRACKET \/ x = LBRACE) -> front_safe x V2.strip_leading_fence.
Proof.
  intros Hx pre rest. unfold V2.strip_leading_fence.
  assert (Hws : isWhiteSpace x = false) by (destruct Hx as [-> | ->]; reflexivity).
  assert (Hf : ~ In x V2.FENCE).
  { destruct Hx as [-> | ->]; intros [H | [H | [H | []]]]; discriminate. }
  destruct (startsWith V2.FENCE (pre ++ x :: rest)) eqn:E.
  - destruct (startsWith_front _ pre rest x Hf E) as [pre2 ->].
    rewrite (skipn_front V2.FENCE pre2 (x :: rest)) by reflexivity.
    destruct (startsWith_ci V2.JSON_WORD (pre2 ++ x :: rest)) eqn:Ej.
    + destruct (startsWith_ci_front _ pre2 rest x (json_word_differs x Hx) Ej)
        as (q & pre3 & -> & Hl).
      rewrite skipn_front by exact Hl.
      destruct (trimStart_front x Hws pre3 rest) as (pre4 & -> & Hin).
      exists pre4. split; [reflexivity|].
      now apply incl_appr, incl_appr.
    + destruct (trimStart_front x Hws pre2 rest) as (pre4 & -> & Hin).
      exists pre4. split; [reflexivity|]. now apply incl_appr.
  - exists pre. split; [reflexivity | apply incl_refl].
Qed.

(** A function that works from the end is its mirror image from the
    front. *)
Lemma mirror_back (y : char) (f : jsstring -> jsstring) :
  front_safe y f -> back_safe y (fun t => rev (f (rev t))).
Proof.
  intros Hf init post.
  destruct (Hf (rev post) (rev init)) as (p' & E & Hin).
  exists (rev p'). split.
  - rewrite rev_app_distr. simpl. rewrite <- app_assoc. simpl.
    rewrite E, rev_app_distr. simpl.
    now rewrite rev_involutive, <- app_assoc.
  - intros c Hc. apply in_rev in Hc. apply Hin in Hc. now apply in_rev.
Qed.

Lemma trimEnd_back (y : char) : isWhiteSpace y = false -> back_safe y trimEnd.
Proof.
  intros Hy. apply (mirror_back y trimStart). now apply trimStart_front.
Qed.

Lemma strip_trailing_fence_mirror (t : jsstring) :
  V2.strip_trailing_fence t =
    rev ((fun u => trimStart (if startsWith (rev V2.FENCE) u
                              then skipn (length (rev V2.FENCE)) u else u))
           (rev t))
  \/ V2.strip_trailing_fence t = t.
Proof.
  unfold V2.strip_trailing_fence, endsWith.
  destruct (startsWith (rev V2.FENCE) (rev t)); [left | now right].
  unfold trimEnd. now rewrite skipn_rev.
Qed.

Lemma strip_trailing_fence_back (y : char) :
  (y = RBRACKET \/ y = RBRACE) -> back_safe y V2.strip_trailing_fence.
Proof.
  intros Hy init post.
  assert (Hws : isWhiteSpace y = false) by (destruct Hy as [-> | ->]; reflexivity).
  assert (Hf : ~ In y (rev V2.FENCE)).
  { destruct Hy as [-> | ->]; intros [H | [H | [H | []]]]; discriminate. }
  destruct (strip_trailing_fence_mirror (init ++ y :: post)) as [E | E];
    rewrite E.
  - apply (mirror_back y
             (fun u => trimStart (if startsWith (rev V2.FENCE) u
                                  then skipn (length (rev V2.FENCE)) u else u))).
    apply (front_safe_compose y
             (fun u => if startsWith (rev V2.FENCE) u
                       then skipn (length (rev V2.FENCE)) u else u) trimStart).
    + now apply drop_prefix_front.
    + now apply trimStart_front.
  - exists post. split; [reflexivity | apply incl_refl].
Qed.

Lemma front_frames (x y : char) (f : jsstring -> jsstring) :
  front_safe x f -> frames x y f.
Proof.
  intros Hf pre mid post.
  destruct (Hf pre (mid ++ y :: post)) as (pre' & E & Hin).
  exists pre', post. repeat split; [exact E | exact Hin | apply incl_refl].
Qed.

Lemma back_frames (x y : char) (f : jsstring -> jsstring) :
  back_safe y f -> frames x y f.
Proof.
  intros Hf pre mid post.
  destruct (Hf (pre ++ x :: mid) post) as (post' & E & Hin).
  exists pre, post'. repeat split; [|apply incl_refl | exact Hin].
  rewrite <- app_assoc in E. simpl in E. rewrite E.
  now rewrite <- app_assoc.
Qed.

Lemma frames_compose (x y : char) (f g : jsstring -> jsstring) :
  frames x y f -> frames x y g -> frames x y (fun t => g (f t)).
Proof.
  intros Hf Hg pre mid post.
  destruct (Hf pre mid post) as (pre1 & post1 & -> & H1 & H1').
  destruct (Hg pre1 mid post1) as (pre2 & post2 & -> & H2 & H2').
  exists pre2, post2.
  repeat split; [eapply incl_tran | eapply incl_tran]; eassumption.
Qed.

Lemma trim_frames (x y : char) :
  isWhiteSpace x = false -> isWhiteSpace y = false -> frames x y trim.
Proof.
  intros Hx Hy.
  apply (frames_compose x y trimStart trimEnd).
  - apply front_frames. now apply trimStart_front.
  - apply back_frames. now apply trimEnd_back.
Qed.

Lemma V2_clean_frames (x y : char) :
  (x = LBRACKET \/ x = LBRACE) -> (y = RBRACKET \/ y = RBRACE) ->
  frames x y V2.clean.
Proof.
  intros Hx Hy. unfold V2.clean.
  apply (frames_compose x y (fun t => V2.strip_leading_fence (trim t))
           V2.strip_trailing_fence).
  - apply (frames_compose x y trim V2.strip_leading_fence).
    + apply trim_frames; [destruct Hx as [-> | ->] | destruct Hy as [-> | ->]];
        reflexivity.
    + apply front_frames. now apply strip_leading_fence_front.
  - apply back_frames. now apply strip_trailing_fence_back.
Qed.

Lemma indexOfStr_none_tail (p t : jsstring) (x : char) :
  indexOfStr p (x :: t) = None -> indexOfStr p t = None.
Proof.
  simpl. destruct (startsWith p (x :: t)); [discriminate|].
  now destruct (indexOfStr p t).
Qed.

Lemma indexOfStr_none_trimStart (p t : jsstring) :
  indexOfStr p t = None -> indexOfStr p (trimStart t) = None.
Proof.
  induction t as [|c t IH]; intros H; simpl; [exact H|].
  destruct (isWhiteSpace c); [|exact H].
  apply IH. eapply indexOfStr_none_tail. eassumption.
Qed.

Lemma startsWith_app (p t b : jsstring) :
  startsWith p t = true -> startsWith p (t ++ b) = true.
Proof.
  revert t. induction p as [|a p IH]; intros t H; [reflexivity|].
  destruct t as [|c t]; [discriminate|]. simpl in *.
  apply andb_true_iff in H as [H1 H2]. now rewrite H1, IH.
Qed.

Lemma indexOfStr_none_prefix (p t b : jsstring) :
  indexOfStr p (t ++ b) = None -> indexOfStr p t = None.
Proof.
  induction t as [|c t IH]; intros H.
  - simpl. destruct (startsWith p []) eqn:E; [|reflexivity].
    apply (startsWith_app p [] b) in E. simpl in E.
    destruct b; simpl in H; rewrite E in H; discriminate.
  - simpl in *. destruct (startsWith p (c :: t)) eqn:E.
    + apply (startsWith_app p (c :: t) b) in E. simpl in E. rewrite E in H.
      discriminate.
    + destruct (startsWith p (c :: t ++ b)); [discriminate|].
      destruct (indexOfStr p (t ++ b)); [discriminate|].
      now rewrite IH.
Qed.

Lemma trimStart_suffix (s : jsstring) : exists a, s = a ++ trimStart s.
Proof.
  induction s as [|c s [a IH]]; simpl; [now exists []|].
  destruct (isWhiteSpace c); [|now exists []].
  exists (c :: a). simpl. now rewrite <- IH.
Qed.

Lemma trimEnd_prefix (s : jsstring) : exists b, s = trimEnd s ++ b.
Proof.
  unfold trimEnd. destruct (trimStart_suffix (rev s)) as [a E].
  exists (rev a). rewrite <- rev_app_distr, <- E. now rewrite rev_involutive.
Qed.

Lemma indexOfStr_none_trim (p t : jsstring) :
  indexOfStr p t = None -> indexOfStr p (trim t) = None.
Proof.
  intros H. unfold trim. apply indexOfStr_none_trimStart in H.
  destruct (trimEnd_prefix (trimStart t)) as [b E].
  rewrite E in H. eapply indexOfStr_none_prefix. eassumption.
Qed.

(** Without a fence the first revision only trims and drops a leading
    [json]. *)
Lemma V1_clean_no_fence (t : jsstring) :
  indexOfStr V1.FENCE t = None ->
  V1.clean t = V1.strip_json_word (trim t).
Proof.
  intros H. unfold V1.clean, V1.codeBlockMatch.
  now rewrite (indexOfStr_none_trim _ _ H).
Qed.

Lemma V1_clean_frames (x y : char) :
  (x = LBRACKET \/ x = LBRACE) -> (y = RBRACKET \/ y = RBRACE) ->
  frames x y (fun t => V1.strip_json_word (trim t)).
Proof.
  intros Hx Hy.
  apply (frames_compose x y trim V1.strip_json_word).
  - apply trim_frames; [destruct Hx as [-> | ->] | destruct Hy as [-> | ->]];
      reflexivity.
  - apply front_frames. now apply strip_json_word_front.
Qed.

Lemma not_in_incl (c : char) (a b : jsstring) :
  incl a b -> ~ In c b -> ~ In c a.
Proof. intros Hi Hn Hin. apply Hn. now apply Hi. Qed.

Lemma V1_extractJson_cleaned (t : jsstring) :
  t <> [] -> V1.extractJson t = V1.extract_cleaned (V1.clean t).
Proof. destruct t; [contradiction | reflexivity]. Qed.

Lemma V2_extractJson_cleaned (t : jsstring) :
  t <> [] -> V2.extractJson t = V2.extract_cleaned (V2.clean t).
Proof. destruct t; [contradiction | reflexivity]. Qed.

(** ** An array between prose (C2) *)

(** C2, as the code has it.  Let a text be a valid JSON array, from its
    [[] to its []], between prose with no [[] before the array and no []]
    after it.  When the pre-cleaned text is not valid JSON as a whole (and,
    for the first revision, the text holds no fence), [extractJson] returns
    exactly that array, parsed from the first [[] to the last []].  The
    example of the specification yields exactly one record, with title A,
    in both revisions. *)
Theorem C2_array_between_prose :
  forall (pre body post : jsstring) (items : list value),
    JSON_parse (LBRACKET :: body ++ [RBRACKET]) = Some (VArr items) ->
    ~ In LBRACKET pre -> ~ In RBRACKET post ->
    (JSON_parse (V2.clean (pre ++ (LBRACKET :: body ++ [RBRACKET]) ++ post))
     = None ->
     V2.extractJson (pre ++ (LBRACKET :: body ++ [RBRACKET]) ++ post)
     = VArr items)
    /\ (indexOfStr V1.FENCE (pre ++ (LBRACKET :: body ++ [RBRACKET]) ++ post)
        = None ->
        JSON_parse (V1.clean (pre ++ (LBRACKET :: body ++ [RBRACKET]) ++ post))
        = None ->
        V1.extractJson (pre ++ (LBRACKET :: body ++ [RBRACKET]) ++ post)
        = VArr items)
    /\ (V1.extractJson results_in_prose = VArr [record_A]
        /\ V2.extractJson results_in_prose = VArr [record_A]
        /\ field K_title
             (V1.fetchNewsFromAgent no_url (Normal (reply results_in_prose [])))
           = [VStr (lit "A")]
        /\ field K_title
             (V2.fetchNewsFromAgent no_url (Normal (reply results_in_prose [])))
           = [VStr (lit "A")]).
Proof.
  intros pre body post items Harr Hpre Hpost.
  assert (Et : pre ++ (LBRACKET :: body ++ [RBRACKET]) ++ post
               = pre ++ LBRACKET :: body ++ RBRACKET :: post)
    by (simpl; now rewrite <- app_assoc).
  rewrite Et. split; [|split].
  - intros Hdirect.
    destruct (V2_clean_frames LBRACKET RBRACKET (or_introl eq_refl)
                (or_introl eq_refl) pre body post)
      as (pre' & post' & Ec & Hi & Hi').
    rewrite V2_extractJson_cleaned by (now destruct pre).
    unfold V2.extract_cleaned.
    rewrite Hdirect, Ec, V2_bracket_parse_span, Harr; [reflexivity | |];
      eapply not_in_incl; eassumption.
  - intros Hfence Hdirect.
    rewrite (V1_clean_no_fence _ Hfence) in Hdirect.
    destruct (V1_clean_frames LBRACKET RBRACKET (or_introl eq_refl)
                (or_introl eq_refl) pre body post)
      as (pre' & post' & Ec & Hi & Hi').
    rewrite V1_extractJson_cleaned by (now destruct pre).
    unfold V1.extract_cleaned.
    rewrite (V1_clean_no_fence _ Hfence).
    rewrite Hdirect, Ec, V1_bracket_parse_span, Harr; [reflexivity | |];
      eapply not_in_incl; eassumption.
  - repeat split; vm_compute; reflexivity.
Qed.

Lemma not_in_by_eqb (c : char) (s : jsstring) :
  existsb (N.eqb c) s = false -> ~ In c s.
Proof.
  intros H Hin.
  assert (E : existsb (N.eqb c) s = true)
    by (apply existsb_exists; exists c; split; [exact Hin | apply N.eqb_refl]).
  congruence.
Qed.

Lemma C2_witness :
  (JSON_parse (LBRACKET :: record_A_text ++ [RBRACKET]) = Some (VArr [record_A])
   /\ ~ In LBRACKET prose_before
   /\ ~ In RBRACKET prose_after
   /\ JSON_parse (V2.clean (prose_before
                            ++ (LBRACKET :: record_A_text ++ [RBRACKET])
                            ++ prose_after)) = None)
  /\ V2.extractJson (prose_before ++ (LBRACKET :: record_A_text ++ [RBRACKET])
                     ++ prose_after) = VArr [record_A].
Proof.
  assert (H1 : JSON_parse (LBRACKET :: record_A_text ++ [RBRACKET])
               = Some (VArr [record_A])) by (vm_compute; reflexivity).
  assert (H2 : ~ In LBRACKET prose_before)
    by (apply not_in_by_eqb; vm_compute; reflexivity).
  assert (H3 : ~ In RBRACKET prose_after)
    by (apply not_in_by_eqb; vm_compute; reflexivity).
  assert (H4 : JSON_parse (V2.clean (prose_before
                 ++ (LBRACKET :: record_A_text ++ [RBRACKET])
                 ++ prose_after)) = None) by (vm_compute; reflexivity).
  split; [repeat split; assumption|].
  exact (proj1 (C2_array_between_prose prose_before record_A_text prose_after
                  [record_A] H1 H2 H3) H4).
Defined.

(** C2 as stated fails.  The array of [array_in_object] has no [[] before
    it and no []] after it, but the text parses as a whole and [extractJson]
    returns the enclosing object, so the fetch returns a record made of that
    object instead of the record of the array.  In [array_after_fenced_word]
    the first revision takes the fenced word for the payload and finds
    nothing. *)
Lemma C2_counterexample :
  (array_in_object
   = qlit "{'data':" ++ (LBRACKET :: record_T_text ++ [RBRACKET]) ++ lit "}"
   /\ JSON_parse (LBRACKET :: record_T_text ++ [RBRACKET])
      = Some (VArr [record_T])
   /\ ~ In LBRACKET (qlit "{'data':") /\ ~ In RBRACKET (lit "}")
   /\ V1.extractJson array_in_object = VObj [(lit "data", VArr [record_T])]
   /\ V2.extractJson array_in_object = VObj [(lit "data", VArr [record_T])]
   /\ field K_title
        (V2.fetchNewsFromAgent no_url (Normal (reply array_in_object [])))
      = [VStr V2.NO_TITLE])
  /\ (array_after_fenced_word
      = lit "Use ```jq``` on this: "
        ++ (LBRACKET :: record_T_text ++ [RBRACKET]) ++ []
      /\ ~ In LBRACKET (lit "Use ```jq``` on this: ")
      /\ V1.extractJson array_after_fenced_word = VNull).
Proof.
  repeat split;
    try (apply not_in_by_eqb); vm_compute; reflexivity.
Qed.

(** ** Fenced payloads (C7) *)

Lemma trimStart_app (a b : jsstring) :
  trimStart (a ++ b) =
    match trimStart a with
    | [] => trimStart b
    | _ => trimStart a ++ b
    end.
Proof.
  induction a as [|c a IH]; simpl; [reflexivity|].
  destruct (isWhiteSpace c); [exact IH | reflexivity].
Qed.

Lemma trimStart_cases (s : jsstring) :
  trimStart s = []
  \/ exists c s', trimStart s = c :: s' /\ isWhiteSpace c = false.
Proof.
  induction s as [|c s IH]; simpl; [now left|].
  destruct (isWhiteSpace c) eqn:E; [exact IH|].
  right. now exists c, s.
Qed.

Lemma trimStart_idem (s : jsstring) : trimStart (trimStart s) = trimStart s.
Proof.
  destruct (trimStart_cases s) as [-> | (c & s' & -> & Hc)]; simpl;
    [reflexivity | now rewrite Hc].
Qed.

Lemma trimEnd_idem (s : jsstring) : trimEnd (trimEnd s) = trimEnd s.
Proof. unfold trimEnd. now rewrite rev_involutive, trimStart_idem. Qed.

Lemma trimEnd_snoc_ws (s : jsstring) (y : char) :
  isWhiteSpace y = true -> trimEnd (s ++ [y]) = trimEnd s.
Proof. intros Hy. unfold trimEnd. rewrite rev_app_distr. simpl. now rewrite Hy. Qed.

Lemma trimEnd_snoc_other (s : jsstring) (y : char) :
  isWhiteSpace y = false -> trimEnd (s ++ [y]) = s ++ [y].
Proof.
  intros Hy. unfold trimEnd. rewrite rev_app_distr. simpl. rewrite Hy.
  simpl. now rewrite rev_involutive.
Qed.

Lemma trimEnd_head (c : char) (s : jsstring) :
  isWhiteSpace c = false -> exists s', trimEnd (c :: s) = c :: s'.
Proof.
  intros Hc. unfold trimEnd. simpl.
  destruct (trimStart_front c Hc (rev s) []) as (pre' & E & _).
  rewrite E, rev_app_distr. simpl. now exists (rev pre').
Qed.

(** Trimming a trimmed text changes nothing. *)
Lemma trim_idem (s : jsstring) : trim (trim s) = trim s.
Proof.
  unfold trim at 1.
  assert (E : trimStart (trim s) = trim s).
  { unfold trim. destruct (trimStart_cases s) as [-> | (c & s' & -> & Hc)];
      [reflexivity|].
    destruct (trimEnd_head c s' Hc) as [s'' ->]. simpl. now rewrite Hc. }
  rewrite E. unfold trim. apply trimEnd_idem.
Qed.

Lemma startsWith_false_app (p t u : jsstring) (x : char) :
  ~ In x p -> startsWith p t = false -> startsWith p (t ++ x :: u) = false.
Proof.
  revert t. induction p as [|a p IH]; intros t Hn H; [discriminate|].
  destruct t as [|c t]; simpl in *.
  - destruct (N.eqb a x) eqn:E; [|reflexivity].
    apply N.eqb_eq in E. exfalso. apply Hn. now left.
  - destruct (N.eqb a c); [|reflexivity]. simpl in *.
    apply IH; [|exact H]. intros Hin. apply Hn. now right.
Qed.

(** The first fence of a text without fence, followed by another code unit
    and a fence. *)
Lemma indexOfStr_fence_after (a b : jsstring) (x : char) :
  x <> BACKTICK -> indexOfStr (lit "```") a = None ->
  indexOfStr (lit "```") (a ++ x :: lit "```" ++ b) = Some (length a + 1).
Proof.
  intros Hx. assert (Hn : ~ In x (lit "```")).
  { intros [H | [H | [H | []]]]; now apply Hx. }
  induction a as [|c a IH]; intros H.
  - pose proof (startsWith_false_app (lit "```") [] (lit "```" ++ b) x Hn
                  eq_refl) as E.
    change ([] ++ x :: lit "```" ++ b) with (x :: lit "```" ++ b) in *.
    cbn [indexOfStr]. rewrite E. reflexivity.
  - change ((c :: a) ++ x :: lit "```" ++ b)
      with (c :: (a ++ x :: lit "```" ++ b)).
    cbn [indexOfStr] in *.
    destruct (startsWith (lit "```") (c :: a)) eqn:E; [discriminate|].
    change (c :: a ++ x :: lit "```" ++ b)
      with ((c :: a) ++ x :: lit "```" ++ b).
    rewrite (startsWith_false_app _ _ _ _ Hn E).
    destruct (indexOfStr (lit "```") a) eqn:Ea; [discriminate|].
    now rewrite IH.
Qed.

Lemma firstn_snoc (a rest : jsstring) (x : char) :
  firstn (length a + 1) (a ++ x :: rest) = a ++ [x].
Proof.
  rewrite firstn_app, firstn_all2 by lia.
  replace (length a + 1 - length a) with 1 by lia. reflexivity.
Qed.

(** The pre-cleaning of the second revision takes a fenced payload to the
    trimmed payload. *)
Lemma V2_clean_fenced (tag payload : jsstring) :
  tag = [] \/ tag = lit "json" ->
  V2.clean (fenced tag payload) = trim payload.
Proof.
  intros Htag. unfold V2.clean, fenced.
  assert (Et : trim (lit "```" ++ tag ++ LF :: payload ++ LF :: lit "```")
               = lit "```" ++ tag ++ LF :: payload ++ LF :: lit "```").
  { unfold trim. change (trimStart (lit "```" ++ ?r)) with (lit "```" ++ r).
    replace (lit "```" ++ tag ++ LF :: payload ++ LF :: lit "```")
      with ((lit "```" ++ tag ++ LF :: payload ++ LF :: lit "``") ++ [96%N])
      by (repeat (rewrite <- app_assoc; simpl); reflexivity).
    now apply trimEnd_snoc_other. }
  rewrite Et.
  assert (El : V2.strip_leading_fence
                 (lit "```" ++ tag ++ LF :: payload ++ LF :: lit "```")
               = trimStart (payload ++ LF :: lit "```")).
  { destruct Htag as [-> | ->]; reflexivity. }
  rewrite El, trimStart_app. unfold trim.
  destruct (trimStart payload) as [|c p1] eqn:Ep.
  - reflexivity.
  - unfold V2.strip_trailing_fence.
    assert (Ee : endsWith V2.FENCE ((c :: p1) ++ LF :: lit "```") = true).
    { unfold endsWith. rewrite rev_app_distr. reflexivity. }
    rewrite Ee.
    replace (firstn (length ((c :: p1) ++ LF :: lit "```") - 3)
               ((c :: p1) ++ LF :: lit "```"))
      with ((c :: p1) ++ [LF]).
    + now apply trimEnd_snoc_ws.
    + replace (length ((c :: p1) ++ LF :: lit "```") - 3)
        with (length (c :: p1) + 1)
        by (rewrite length_app; simpl; lia).
      now rewrite firstn_snoc.
Qed.

Lemma V2_clean_bare (payload : jsstring) :
  startsWith V2.FENCE (trim payload) = false ->
  endsWith V2.FENCE (trim payload) = false ->
  V2.clean payload = trim payload.
Proof.
  intros H1 H2. unfold V2.clean, V2.strip_leading_fence. rewrite H1.
  unfold V2.strip_trailing_fence. now rewrite H2.
Qed.

Lemma V1_codeBlockMatch_fenced (tag payload : jsstring) :
  tag = [] \/ tag = lit "json" ->
  indexOfStr V1.FENCE payload = None ->
  V1.codeBlockMatch (fenced tag payload) = Some (trim payload).
Proof.
  intros Htag Hfence. unfold V1.codeBlockMatch, fenced.
  change (indexOfStr V1.FENCE (lit "```" ++ ?r)) with (Some 0).
  cbn iota beta.
  assert (Er : forall u,
             u = trimStart (payload ++ LF :: lit "```") ->
             match indexOfStr V1.FENCE u with
             | Some q => Some (trimEnd (firstn q u))
             | None => None
             end = Some (trim payload)).
  2: { apply Er. destruct Htag as [-> | ->]; reflexivity. }
  intros u ->. rewrite trimStart_app. unfold trim.
  pose proof (indexOfStr_none_trimStart _ _ Hfence) as Hp.
  destruct (trimStart payload) as [|c p1] eqn:Ep; [reflexivity|].
  cbn iota. unfold V1.FENCE in *.
  pose proof (indexOfStr_fence_after (c :: p1) [] LF) as Hq.
  change (LF :: lit "```" ++ []) with (LF :: lit "```") in Hq.
  rewrite Hq by (discriminate || exact Hp).
  rewrite firstn_snoc. now rewrite trimEnd_snoc_ws.
Qed.

Lemma JSON_parse_backtick (s : jsstring) : JSON_parse (BACKTICK :: s) = None.
Proof.
  unfold JSON_parse.
  replace (2 * length (BACKTICK :: s) + 1) with (S (2 * length (BACKTICK :: s)))
    by lia.
  reflexivity.
Qed.

Lemma find_char_none (c : char) (s : jsstring) :
  ~ In c s -> find_char c s = None.
Proof.
  induction s as [|x s IH]; intros Hn; simpl; [reflexivity|].
  destruct (N.eqb x c) eqn:E.
  - apply N.eqb_eq in E. subst. exfalso. apply Hn. now left.
  - rewrite IH; [reflexivity|]. intros Hin. apply Hn. now right.
Qed.

Lemma trimStart_nil_blank (s : jsstring) :
  trimStart s = [] -> forall c, In c s -> isWhiteSpace c = true.
Proof.
  induction s as [|x s IH]; intros H c Hin; [contradiction|].
  simpl in H. destruct (isWhiteSpace x) eqn:E; [|discriminate].
  destruct Hin as [<- | Hin]; [exact E | now apply IH].
Qed.

Lemma trim_nil_blank (s : jsstring) :
  trim s = [] -> forall c, In c s -> isWhiteSpace c = true.
Proof.
  unfold trim. intros H. apply trimStart_nil_blank.
  destruct (trimStart_cases s) as [E | (c & s' & E & Hc)]; [exact E|].
  rewrite E in H. destruct (trimEnd_head c s' Hc) as [s'' E'].
  rewrite E' in H. discriminate.
Qed.

(** A fenced blank payload holds neither bracket nor brace. *)
Lemma fenced_blank_no_opener (tag payload : jsstring) (c : char) :
  tag = [] \/ tag = lit "json" ->
  trim payload = [] ->
  c = LBRACKET \/ c = LBRACE ->
  ~ In c (fenced tag payload).
Proof.
  intros Htag Hblank Hc Hin. unfold fenced in Hin.
  assert (Hws : isWhiteSpace c = false) by (destruct Hc as [-> | ->]; reflexivity).
  assert (Hp : ~ In c payload).
  { intros H. apply (trim_nil_blank _ Hblank) in H. congruence. }
  assert (Hf : ~ In c (lit "```"))
    by (destruct Hc as [-> | ->]; apply not_in_by_eqb; reflexivity).
  assert (Ht : ~ In c tag)
    by (destruct Htag as [-> | ->]; destruct Hc as [-> | ->];
        apply not_in_by_eqb; reflexivity).
  assert (Hl : LF <> c) by (destruct Hc as [-> | ->]; discriminate).
  apply in_app_or in Hin as [Hin | Hin]; [contradiction|].
  apply in_app_or in Hin as [Hin | Hin]; [contradiction|].
  destruct Hin as [Hin | Hin]; [contradiction|].
  apply in_app_or in Hin as [Hin | Hin]; [contradiction|].
  destruct Hin as [Hin | Hin]; contradiction.
Qed.

Lemma V1_extract_cleaned_fenced_blank (tag payload : jsstring) :
  tag = [] \/ tag = lit "json" ->
  trim payload = [] ->
  V1.extract_cleaned (fenced tag payload) = VNull.
Proof.
  intros Htag Hblank. unfold V1.extract_cleaned.
  assert (Ep : JSON_parse (fenced tag payload) = None)
    by apply JSON_parse_backtick.
  rewrite Ep. unfold V1.bracket_parse, V1.sequential.
  rewrite !indexOf_0.
  rewrite (find_char_none LBRACKET)
    by (apply fenced_blank_no_opener; auto).
  rewrite (find_char_none LBRACE)
    by (apply fenced_blank_no_opener; auto).
  reflexivity.
Qed.

Lemma V1_extractJson_fenced (tag payload : jsstring) :
  tag = [] \/ tag = lit "json" ->
  indexOfStr V1.FENCE payload = None ->
  startsWith_ci V1.JSON_WORD (trim payload) = false ->
  V1.extractJson (fenced tag payload) = V1.extractJson payload.
Proof.
  intros Htag Hfence Hword.
  assert (Ebare : V1.extractJson payload = V1.extract_cleaned (trim payload)).
  { destruct payload as [|c p]; [reflexivity|].
    rewrite V1_extractJson_cleaned by discriminate.
    rewrite (V1_clean_no_fence _ Hfence). unfold V1.strip_json_word.
    now rewrite Hword. }
  rewrite Ebare, V1_extractJson_cleaned by discriminate.
  unfold V1.clean.
  assert (Et : trim (fenced tag payload) = fenced tag payload).
  { unfold trim, fenced.
    change (trimStart (lit "```" ++ ?r)) with (lit "```" ++ r).
    replace (lit "```" ++ tag ++ LF :: payload ++ LF :: lit "```")
      with ((lit "```" ++ tag ++ LF :: payload ++ LF :: lit "``") ++ [96%N])
      by (repeat (rewrite <- app_assoc; simpl); reflexivity).
    now apply trimEnd_snoc_other. }
  rewrite Et, (V1_codeBlockMatch_fenced tag payload Htag Hfence).
  destruct (trim payload) as [|c g] eqn:Ep.
  - change (V1.strip_json_word (fenced tag payload)) with (fenced tag payload).
    now apply V1_extract_cleaned_fenced_blank.
  - rewrite <- Ep. now rewrite trim_idem.
Qed.

Lemma V2_extractJson_fenced (tag payload : jsstring) :
  tag = [] \/ tag = lit "json" ->
  startsWith V2.FENCE (trim payload) = false ->
  endsWith V2.FENCE (trim payload) = false ->
  V2.extractJson (fenced tag payload) = V2.extractJson payload.
Proof.
  intros Htag H1 H2.
  rewrite V2_extractJson_cleaned by discriminate.
  rewrite (V2_clean_fenced tag payload Htag).
  destruct payload as [|c p]; [reflexivity|].
  rewrite V2_extractJson_cleaned by discriminate.
  now rewrite V2_clean_bare.
Qed.

(** C7, as the code has it.  For a fenced block with the tag [json] or
    without tag, [extractJson] gives the fenced payload what it gives the
    bare payload: in the second revision when the trimmed payload neither
    starts nor ends with a fence, in the first revision when the payload
    holds no fence and, trimmed, does not start with the word [json] in
    either case. *)
Theorem C7_fenced_as_bare :
  forall tag payload : jsstring,
    tag = [] \/ tag = lit "json" ->
    (startsWith V2.FENCE (trim payload) = false ->
     endsWith V2.FENCE (trim payload) = false ->
     V2.extractJson (fenced tag payload) = V2.extractJson payload)
    /\ (indexOfStr V1.FENCE payload = None ->
        startsWith_ci V1.JSON_WORD (trim payload) = false ->
        V1.extractJson (fenced tag payload) = V1.extractJson payload).
Proof.
  intros tag payload Htag. split.
  - now apply V2_extractJson_fenced.
  - now apply V1_extractJson_fenced.
Qed.

Lemma C7_witness :
  (lit "json" = [] \/ lit "json" = lit "json")
  /\ (indexOfStr V1.FENCE two_titles = None
      /\ startsWith_ci V1.JSON_WORD (trim two_titles) = false)
  /\ V1.extractJson (fenced (lit "json") two_titles) = V1.extractJson two_titles.
Proof.
  assert (H0 : lit "json" = [] \/ lit "json" = lit "json") by (now right).
  assert (H1 : indexOfStr V1.FENCE two_titles = None) by reflexivity.
  assert (H2 : startsWith_ci V1.JSON_WORD (trim two_titles) = false)
    by reflexivity.
  split; [exact H0|]. split; [split; assumption|].
  exact (proj2 (C7_fenced_as_bare (lit "json") two_titles H0) H1 H2).
Defined.

(** C7 as stated fails.  In the first revision the bare payload
    [json_word_payload] loses its leading word and parses as one object,
    for which the fetch returns the placeholder, while the fenced payload
    keeps the word and goes through object extraction, which returns a
    record.  In the second revision the bare payload
    [fenced_string_payload] loses its own fences and parses as a string,
    for which the fetch returns nothing, while the fenced payload keeps them
    and the bracket step finds an array in it. *)
Lemma C7_counterexample :
  (V1.extractJson json_word_payload = VObj [(K_title, VStr (lit "A"))]
   /\ V1.extractJson (fenced (lit "json") json_word_payload)
      = VArr [VObj [(K_title, VStr (lit "A"))]]
   /\ V1.fetchNewsFromAgent no_url (Normal (reply json_word_payload []))
      = Normal [notice V1.PARSE_TITLE V1.PARSE_SUMMARY]
   /\ field K_title
        (V1.fetchNewsFromAgent no_url
           (Normal (reply (fenced (lit "json") json_word_payload) [])))
      = [VStr (lit "A")])
  /\ (V2.extractJson fenced_string_payload = VStr (lit "[{}]")
      /\ V2.extractJson (fenced [] fenced_string_payload) = VArr [VObj []]
      /\ V2.fetchNewsFromAgent no_url (Normal (reply fenced_string_payload []))
         = Normal []
      /\ field K_title
           (V2.fetchNewsFromAgent no_url
              (Normal (reply (fenced [] fenced_string_payload) [])))
         = [VStr V2.NO_TITLE]).
Proof. repeat split; vm_compute; reflexivity. Qed.

(** * Further properties of the code *)

(** ** Sequential extraction as a left-to-right scan *)

Lemma skipn_nth (t : jsstring) (e : nat) (d : char) :
  e < length t -> skipn e t = nth e t d :: skipn (S e) t.
Proof.
  revert e. induction t as [|c t IH]; intros e H; simpl in H; [lia|].
  destruct e as [|e]; [reflexivity|].
  simpl. apply IH. lia.
Qed.

Lemma scan_scan_list (turns : nat) (t : jsstring) (balance endIndex : nat)
  (inString escape : bool) :
  length t <= endIndex + turns ->
  V1.scan turns t balance endIndex inString escape
  = (fst (scan_list balance inString escape (skipn endIndex t)),
     endIndex + snd (scan_list balance inString escape (skipn endIndex t))).
Proof.
  revert balance endIndex inString escape.
  induction turns as [|n IH]; intros b e inS esc Hlen.
  - rewrite skipn_all2 by lia. simpl. now rewrite Nat.add_0_r.
  - cbn [V1.scan].
    destruct (e <? length t) eqn:He.
    + apply Nat.ltb_lt in He.
      rewrite (skipn_nth t e 0%N He). cbn [scan_list andb].
      destruct (0 <? b); [|simpl; now rewrite Nat.add_0_r].
      assert (Hn : length t <= S e + n) by lia.
      destruct esc; [rewrite IH by exact Hn|
        destruct (N.eqb (nth e t 0%N) BACKSLASH); [rewrite IH by exact Hn|
        destruct (N.eqb (nth e t 0%N) DQUOTE); [rewrite IH by exact Hn|
        destruct (negb inS); [
          destruct (N.eqb (nth e t 0%N) LBRACE); [rewrite IH by exact Hn|
          destruct (N.eqb (nth e t 0%N) RBRACE); rewrite IH by exact Hn]
        | rewrite IH by exact Hn]]]];
        match goal with
        | |- context [scan_list ?a ?b ?c ?d] =>
            destruct (scan_list a b c d) as [b' k]
        end; simpl; f_equal; lia.
    + apply Nat.ltb_ge in He. rewrite skipn_all2 by lia. simpl.
      now rewrite Nat.add_0_r.
Qed.

Lemma scan_list_bound (s : jsstring) (balance : nat) (inString escape : bool) :
  snd (scan_list balance inString escape s) <= length s.
Proof.
  revert balance inString escape.
  induction s as [|c s IH]; intros b inS esc; simpl; [lia|].
  destruct (0 <? b); [|simpl; lia].
  destruct esc; [|
    destruct (N.eqb c BACKSLASH); [|
    destruct (N.eqb c DQUOTE); [|
    destruct (negb inS); [
      destruct (N.eqb c LBRACE); [|destruct (N.eqb c RBRACE)]|]]]];
    match goal with
    | |- context [scan_list ?a ?b ?c ?d] =>
        pose proof (IH a b c) as Hb; destruct (scan_list a b c d) as [b' k]
    end; simpl in *; lia.
Qed.

Lemma after_brace_find (s : jsstring) :
  match find_char LBRACE s with
  | Some i => after_brace s = Some (skipn (S i) s) /\ nth_error s i = Some LBRACE
  | None => after_brace s = None
  end.
Proof.
  induction s as [|c s IH]; simpl; [reflexivity|].
  destruct (N.eqb c LBRACE) eqn:E.
  - apply N.eqb_eq in E. subst. now split.
  - destruct (find_char LBRACE s) as [i|]; simpl; exact IH.
Qed.

Lemma substring_span (t : jsstring) (a b : nat) :
  a <= b -> b <= length t -> substring t a b = firstn (b - a) (skipn a t).
Proof.
  intros H1 H2. unfold substring.
  replace (Nat.min a (length t)) with a by lia.
  replace (Nat.min b (length t)) with b by lia.
  replace (Nat.max a b - Nat.min a b) with (b - a) by lia.
  now replace (Nat.min a b) with a by lia.
Qed.

Lemma skipn_skipn (A : Type) (a b : nat) (l : list A) :
  skipn a (skipn b l) = skipn (a + b) l.
Proof.
  revert l. induction b as [|b IH]; intros l.
  - now rewrite Nat.add_0_r.
  - destruct l as [|x l]; [now rewrite !skipn_nil|].
    rewrite Nat.add_succ_r. simpl. apply IH.
Qed.

Lemma extract_loop_objects_from (n : nat) (t : jsstring) (e : nat)
  (objects : list value) :
  V1.extract_loop n t (indexOf t LBRACE e) objects
  = objects ++ objects_from n (skipn e t).
Proof.
  revert e objects. induction n as [|n IH]; intros e objects.
  - simpl. now rewrite app_nil_r.
  - unfold indexOf. pose proof (after_brace_find (skipn e t)) as Hf.
    destruct (find_char LBRACE (skipn e t)) as [i|] eqn:Ef;
      cbn [option_map V1.extract_loop objects_from].
    2: { rewrite Hf. now rewrite app_nil_r. }
    destruct Hf as [Hab Hnth]. rewrite Hab.
    assert (Hi : i < length (skipn e t))
      by (apply nth_error_Some; congruence).
    rewrite length_skipn in Hi.
    rewrite scan_scan_list by lia.
    rewrite skipn_skipn.
    replace (S i + e) with (e + i + 1) by lia.
    pose proof (scan_list_bound (skipn (e + i + 1) t) 1 false false) as Hk.
    rewrite length_skipn in Hk.
    destruct (scan_list 1 false false (skipn (e + i + 1) t)) as [b k] eqn:Es.
    cbn [fst snd] in *.
    destruct (b =? 0); [|now rewrite app_nil_r].
    rewrite (IH (e + i + 1 + k)).
    rewrite substring_span by lia.
    replace (e + i + 1 + k - (e + i)) with (S k) by lia.
    assert (Hs : skipn (e + i) t = LBRACE :: skipn (e + i + 1) t).
    { replace (e + i) with (i + e) by lia. rewrite <- skipn_skipn.
      rewrite (skipn_nth (skipn e t) i 0%N)
        by (rewrite length_skipn; lia).
      f_equal.
      - apply nth_error_nth with (d := 0%N) in Hnth. exact Hnth.
      - rewrite skipn_skipn. f_equal. lia. }
    rewrite Hs. cbn [firstn].
    replace (skipn (e + i + 1 + k) t) with (skipn k (skipn (e + i + 1) t))
      by (rewrite skipn_skipn; f_equal; lia).
    unfold kept.
    destruct (JSON_parse _) as [obj|]; [|reflexivity].
    destruct (truthy obj && typeof_object obj); [|reflexivity].
    now rewrite <- app_assoc.
Qed.

(** The index loops and the left-to-right scan find the same objects. *)
Lemma sequential_objects_from (t : jsstring) :
  V1.sequential t = objects_from 50 t.
Proof.
  unfold V1.sequential. now rewrite extract_loop_objects_from.
Qed.

Lemma kept_length (jsonStr : jsstring) : length (kept jsonStr) <= 1.
Proof.
  unfold kept. destruct (JSON_parse jsonStr) as [obj|]; [|simpl; lia].
  destruct (truthy obj && typeof_object obj); simpl; lia.
Qed.

Lemma objects_from_length (n : nat) (s : jsstring) :
  length (objects_from n s) <= n.
Proof.
  revert s. induction n as [|n IH]; intros s; simpl; [lia|].
  destruct (after_brace s) as [body|]; [|simpl; lia].
  destruct (scan_list 1 false false body) as [b k].
  destruct (b =? 0); [|simpl; lia].
  rewrite length_app.
  pose proof (kept_length (LBRACE :: firstn k body)).
  pose proof (IH (skipn k body)). lia.
Qed.

(** X1.  Sequential extraction never returns more than 50 objects,
    whatever the text. *)
Theorem X1_sequential_at_most_50 (t : jsstring) :
  length (V1.sequential t) <= 50.
Proof. rewrite sequential_objects_from. apply objects_from_length. Qed.

Lemma parse_members_object (f : nat) (acc : list (jsstring * value))
  (s : jsstring) (v : value) (r : jsstring) :
  parse_members f acc s = POk v r -> is_object v = true.
Proof.
  revert acc s. induction f as [|f IH]; intros acc s H; [discriminate|].
  cbn [parse_members] in H.
  destruct (skip_ws s) as [|q r0]; [discriminate|].
  destruct (N.eqb q 34); [|discriminate].
  destruct (parse_string r0) as [[key r1]|]; [|discriminate].
  destruct (skip_ws r1) as [|colon r2]; [discriminate|].
  destruct (N.eqb colon 58); [|discriminate].
  destruct (parse_value f r2) as [v' r3| |]; try discriminate.
  destruct (skip_ws r3) as [|c r4]; [discriminate|].
  destruct (N.eqb c 44); [eapply IH; eassumption|].
  destruct (N.eqb c 125); [|discriminate].
  now injection H as <- _.
Qed.

Lemma JSON_parse_brace_object (x : jsstring) (v : value) :
  JSON_parse (LBRACE :: x) = Some v -> is_object v = true.
Proof.
  unfold JSON_parse.
  replace (2 * length (LBRACE :: x) + 1) with (S (2 * length (LBRACE :: x)))
    by lia.
  cbn [parse_value].
  change (skip_ws (LBRACE :: x)) with (LBRACE :: x).
  cbn iota. replace ((LBRACE =? 123)%N) with true by reflexivity.
  cbn iota. intros H.
  destruct (skip_ws x) as [|c' r']; [discriminate|].
  destruct (N.eqb c' 125).
  - destruct (skip_ws r'); [|discriminate]. now injection H as <-.
  - destruct (parse_members _ [] (c' :: r')) as [v' r| |] eqn:E;
      try discriminate.
    destruct (skip_ws r); [|discriminate]. injection H as <-.
    eapply parse_members_object; eassumption.
Qed.

Lemma kept_objects (x : jsstring) :
  Forall (fun v => is_object v = true) (kept (LBRACE :: x)).
Proof.
  unfold kept. destruct (JSON_parse (LBRACE :: x)) as [obj|] eqn:E;
    [|constructor].
  destruct (truthy obj && typeof_object obj); constructor; [|constructor].
  eapply JSON_parse_brace_object; eassumption.
Qed.

Lemma objects_from_objects (n : nat) (s : jsstring) :
  Forall (fun v => is_object v = true) (objects_from n s).
Proof.
  revert s. induction n as [|n IH]; intros s; simpl; [constructor|].
  destruct (after_brace s) as [body|]; [|constructor].
  destruct (scan_list 1 false false body) as [b k].
  destruct (b =? 0); [|constructor].
  apply Forall_app. split; [apply kept_objects | apply IH].
Qed.

(** X2.  Every value that sequential extraction returns is an object:
    no array, string, number, boolean or null gets into the result, so
    when [extractJson] answers from its third step the answer is a
    non-empty array of objects. *)
Theorem X2_sequential_only_objects (t : jsstring) :
  Forall (fun v => is_object v = true) (V1.sequential t)
  /\ (JSON_parse t = None -> V1.bracket_parse t = None ->
      V1.extract_cleaned t = VNull
      \/ exists o objects,
           V1.extract_cleaned t = VArr (o :: objects)
           /\ Forall (fun v => is_object v = true) (o :: objects)).
Proof.
  assert (H : Forall (fun v => is_object v = true) (V1.sequential t)).
  { rewrite sequential_objects_from. apply objects_from_objects. }
  split; [exact H|]. intros H1 H2. unfold V1.extract_cleaned.
  rewrite H1, H2. destruct (V1.sequential t) as [|o objects]; [now left|].
  right. now exists o, objects.
Qed.

Lemma X2_witness :
  (JSON_parse (qlit "{'a':1}{'b':2} and more") = None
   /\ V1.bracket_parse (qlit "{'a':1}{'b':2} and more") = None)
  /\ (V1.extract_cleaned (qlit "{'a':1}{'b':2} and more") = VNull
      \/ exists o objects,
           V1.extract_cleaned (qlit "{'a':1}{'b':2} and more")
           = VArr (o :: objects)
           /\ Forall (fun v => is_object v = true) (o :: objects)).
Proof.
  assert (H1 : JSON_parse (qlit "{'a':1}{'b':2} and more") = None)
    by (vm_compute; reflexivity).
  assert (H2 : V1.bracket_parse (qlit "{'a':1}{'b':2} and more") = None)
    by (vm_compute; reflexivity).
  split; [split; assumption|].
  exact (proj2 (X2_sequential_only_objects (qlit "{'a':1}{'b':2} and more"))
           H1 H2).
Defined.

Lemma after_brace_gap (gap r : jsstring) :
  ~ In LBRACE gap -> after_brace (gap ++ LBRACE :: r) = Some r.
Proof.
  induction gap as [|c gap IH]; intros Hn; simpl.
  - reflexivity.
  - destruct (N.eqb c LBRACE) eqn:E.
    + apply N.eqb_eq in E. subst. exfalso. apply Hn. now left.
    + apply IH. intros Hin. apply Hn. now right.
Qed.

Lemma after_brace_none (s : jsstring) :
  ~ In LBRACE s -> after_brace s = None.
Proof.
  induction s as [|c s IH]; intros Hn; simpl; [reflexivity|].
  destruct (N.eqb c LBRACE) eqn:E.
  - apply N.eqb_eq in E. subst. exfalso. apply Hn. now left.
  - apply IH. intros Hin. apply Hn. now right.
Qed.

(** Once the balance is back to zero the scan reads no further. *)
Lemma scan_list_closed_app (body rest : jsstring) (balance : nat)
  (inString escape : bool) :
  scan_list balance inString escape body = (0, length body) ->
  scan_list balance inString escape (body ++ rest) = (0, length body).
Proof.
  revert balance inString escape.
  induction body as [|c body IH]; intros b inS esc H.
  - simpl in H. injection H as ->. simpl. now destruct rest.
  - cbn [scan_list app length] in *.
    destruct (0 <? b); [|discriminate].
    destruct esc; [|
      destruct (N.eqb c BACKSLASH); [|
      destruct (N.eqb c DQUOTE); [|
      destruct (negb inS); [
        destruct (N.eqb c LBRACE); [|destruct (N.eqb c RBRACE)]|]]]];
      match type of H with
      | context [scan_list ?a ?b ?c body] =>
          destruct (scan_list a b c body) as [b' k] eqn:E;
          injection H as -> ->; now rewrite (IH _ _ _ E)
      end.
Qed.

Lemma objects_from_layout (t : jsstring) (spans : list jsstring) :
  layout t spans ->
  forall n, objects_from n t = flat_map kept (firstn n spans).
Proof.
  induction 1 as [tail Hn | tail (gap & body & -> & Hn & Hb)
                 | gap o rest spans Hn Ho _ IH]; intros n.
  - rewrite firstn_nil. destruct n; simpl; [reflexivity|].
    now rewrite after_brace_none.
  - rewrite firstn_nil. destruct n; simpl; [reflexivity|].
    rewrite after_brace_gap by exact Hn.
    destruct (scan_list 1 false false body) as [b k]. simpl in Hb.
    destruct b; [contradiction | reflexivity].
  - destruct n; [reflexivity|].
    destruct o as [|c body]; [contradiction|]. destruct Ho as [-> Hc].
    cbn [objects_from firstn flat_map].
    change ((LBRACE :: body) ++ rest) with (LBRACE :: body ++ rest).
    rewrite after_brace_gap by exact Hn.
    rewrite (scan_list_closed_app body rest _ _ _ Hc). cbn [Nat.eqb].
    rewrite firstn_app, firstn_all, Nat.sub_diag, app_nil_r.
    rewrite skipn_app, skipn_all, Nat.sub_diag. cbn [skipn app].
    now rewrite IH.
Qed.

(** X3.  For a text laid out as closed spans, each after a gap without
    [{], followed by a rest that has no [{] or whose first [{] is never
    closed, sequential extraction returns, in the order of the text, what
    the first 50 spans parse to; a span that does not parse adds nothing.
    Spans inside the unclosed rest are not looked at. *)
Theorem X3_sequential_layout (t : jsstring) (spans : list jsstring) :
  layout t spans ->
  V1.sequential t = flat_map kept (firstn 50 spans).
Proof.
  intros H. rewrite sequential_objects_from. now apply objects_from_layout.
Qed.

Lemma X3_witness :
  layout (span_a ++ span_b ++ broken_tail) [span_a; span_b]
  /\ V1.sequential (span_a ++ span_b ++ broken_tail)
     = flat_map kept (firstn 50 [span_a; span_b]).
Proof.
  assert (H : layout (span_a ++ span_b ++ broken_tail) [span_a; span_b]).
  { apply (layout_span [] span_a (span_b ++ broken_tail) [span_b]);
      [intros [] | split; reflexivity |].
    apply (layout_span [] span_b broken_tail []);
      [intros [] | split; reflexivity |].
    apply layout_broken.
    exists (lit " then "), (qlit "'c':{'d':3}").
    split; [reflexivity|].
    split; [apply not_in_by_eqb; reflexivity | vm_compute; discriminate]. }
  split; [exact H|].
  exact (X3_sequential_layout (span_a ++ span_b ++ broken_tail)
           [span_a; span_b] H).
Defined.

(** ** Edge cases of [extractJson] *)

Lemma trimStart_blank (s : jsstring) :
  (forall c, In c s -> isWhiteSpace c = true) -> trimStart s = [].
Proof.
  induction s as [|x s IH]; intros H; simpl; [reflexivity|].
  rewrite (H x (or_introl eq_refl)). apply IH.
  intros c Hc. apply H. now right.
Qed.

(** X4.  A text made of white space only (or no text at all) gives null
    in both revisions: nothing is parsed out of it. *)
Theorem X4_blank_text_is_null (text : jsstring) :
  (forall c, In c text -> isWhiteSpace c = true) ->
  V1.extractJson text = VNull /\ V2.extractJson text = VNull.
Proof.
  intros H. pose proof (trimStart_blank text H) as Ht.
  destruct text as [|c text]; [now split|].
  unfold V1.extractJson, V2.extractJson, V1.clean, V2.clean, trim.
  rewrite Ht. now split.
Qed.

Lemma X4_witness :
  (forall c, In c (lit "   ") -> isWhiteSpace c = true)
  /\ V1.extractJson (lit "   ") = VNull /\ V2.extractJson (lit "   ") = VNull.
Proof.
  assert (H : forall c, In c (lit "   ") -> isWhiteSpace c = true).
  { intros c [<- | [<- | [<- | []]]]; reflexivity. }
  split; [exact H|]. exact (X4_blank_text_is_null (lit "   ") H).
Defined.

Lemma span_indices (x y : char) (pre body post : jsstring) :
  ~ In x pre -> ~ In y post ->
  indexOf (pre ++ x :: body ++ y :: post) x 0 = Some (length pre)
  /\ lastIndexOf (pre ++ x :: body ++ y :: post) y
     = Some (length pre + S (length body))
  /\ substring (pre ++ x :: body ++ y :: post) (length pre)
       (length pre + S (length body) + 1)
     = x :: body ++ [y].
Proof.
  intros Hpre Hpost. repeat split.
  - rewrite indexOf_0. now apply find_char_skip.
  - replace (pre ++ x :: body ++ y :: post)
      with ((pre ++ x :: body) ++ y :: post) by (now rewrite <- app_assoc).
    rewrite lastIndexOf_last by assumption.
    rewrite length_app. reflexivity.
  - replace (pre ++ x :: body ++ y :: post)
      with (pre ++ (x :: body ++ [y]) ++ post)
      by (simpl; now rewrite <- app_assoc).
    replace (length pre + S (length body) + 1)
      with (length pre + length (x :: body ++ [y]))
      by (simpl; rewrite length_app; simpl; lia).
    apply substring_middle.
Qed.

Lemma V2_brace_parse_span (pre body post : jsstring) :
  ~ In LBRACE pre -> ~ In RBRACE post ->
  V2.brace_parse (pre ++ LBRACE :: body ++ RBRACE :: post)
  = JSON_parse (LBRACE :: body ++ [RBRACE]).
Proof.
  intros Hpre Hpost.
  destruct (span_indices LBRACE RBRACE pre body post Hpre Hpost)
    as (Hi & Hl & Hs).
  unfold V2.brace_parse. rewrite Hi, Hl, Hs.
  now replace (length pre <? length pre + S (length body)) with true
    by (symmetry; apply Nat.ltb_lt; lia).
Qed.

(** X5.  Second revision: for a text that is one JSON object, from its
    [{] to its [}], between prose with no [{] before it and no [}] after
    it, [extractJson] returns exactly that object once the direct parse and
    the bracket step have failed on the pre-cleaned text. *)
Theorem X5_object_between_prose (pre body post : jsstring) (v : value) :
  JSON_parse (LBRACE :: body ++ [RBRACE]) = Some v ->
  ~ In LBRACE pre -> ~ In RBRACE post ->
  JSON_parse (V2.clean (pre ++ (LBRACE :: body ++ [RBRACE]) ++ post)) = None ->
  V2.bracket_parse (V2.clean (pre ++ (LBRACE :: body ++ [RBRACE]) ++ post))
  = None ->
  V2.extractJson (pre ++ (LBRACE :: body ++ [RBRACE]) ++ post) = v
  /\ is_object v = true.
Proof.
  intros Hobj Hpre Hpost.
  assert (Et : pre ++ (LBRACE :: body ++ [RBRACE]) ++ post
               = pre ++ LBRACE :: body ++ RBRACE :: post)
    by (simpl; now rewrite <- app_assoc).
  rewrite Et. intros Hdirect Hbracket.
  split; [|eapply JSON_parse_brace_object; eassumption].
  destruct (V2_clean_frames LBRACE RBRACE (or_intror eq_refl)
              (or_intror eq_refl) pre body post)
    as (pre' & post' & Ec & Hi & Hi').
  rewrite V2_extractJson_cleaned by (now destruct pre).
  unfold V2.extract_cleaned. rewrite Hdirect, Hbracket, Ec.
  rewrite V2_brace_parse_span, Hobj; [reflexivity | |];
    eapply not_in_incl; eassumption.
Qed.

Lemma X5_witness :
  (JSON_parse (LBRACE :: qlit "'title':'A','summary':'B'" ++ [RBRACE])
   = Some (VObj [(K_title, VStr (lit "A")); (K_summary, VStr (lit "B"))])
   /\ ~ In LBRACE (lit "Result: ") /\ ~ In RBRACE (lit " (end)")
   /\ JSON_parse (V2.clean (lit "Result: "
                    ++ (LBRACE :: qlit "'title':'A','summary':'B'" ++ [RBRACE])
                    ++ lit " (end)")) = None
   /\ V2.bracket_parse (V2.clean (lit "Result: "
                    ++ (LBRACE :: qlit "'title':'A','summary':'B'" ++ [RBRACE])
                    ++ lit " (end)")) = None)
  /\ V2.extractJson (lit "Result: "
                     ++ (LBRACE :: qlit "'title':'A','summary':'B'" ++ [RBRACE])
                     ++ lit " (end)")
     = VObj [(K_title, VStr (lit "A")); (K_summary, VStr (lit "B"))].
Proof.
  assert (H1 : JSON_parse (LBRACE :: qlit "'title':'A','summary':'B'" ++ [RBRACE])
               = Some (VObj [(K_title, VStr (lit "A"));
                             (K_summary, VStr (lit "B"))]))
    by (vm_compute; reflexivity).
  assert (H2 : ~ In LBRACE (lit "Result: "))
    by (apply not_in_by_eqb; reflexivity).
  assert (H3 : ~ In RBRACE (lit " (end)"))
    by (apply not_in_by_eqb; reflexivity).
  assert (H4 : JSON_parse (V2.clean (lit "Result: "
                 ++ (LBRACE :: qlit "'title':'A','summary':'B'" ++ [RBRACE])
                 ++ lit " (end)")) = None) by (vm_compute; reflexivity).
  assert (H5 : V2.bracket_parse (V2.clean (lit "Result: "
                 ++ (LBRACE :: qlit "'title':'A','summary':'B'" ++ [RBRACE])
                 ++ lit " (end)")) = None) by (vm_compute; reflexivity).
  split; [repeat split; assumption|].
  exact (proj1 (X5_object_between_prose (lit "Result: ")
                  (qlit "'title':'A','summary':'B'") (lit " (end)") _
                  H1 H2 H3 H4 H5)).
Defined.

(** X6.  First revision: for a text without fence that is one closed span
    between prose with no [{] before or after it, once the direct parse and
    the bracket step have failed, [extractJson] returns the object of the
    span as a one-element array (so the fetch maps it to a record, where
    the same object alone as the whole text gives the placeholder). *)
Theorem X6_lone_object_becomes_array (pre body post : jsstring) (v : value) :
  closed_span (LBRACE :: body ++ [RBRACE]) ->
  JSON_parse (LBRACE :: body ++ [RBRACE]) = Some v ->
  ~ In LBRACE pre -> ~ In LBRACE post ->
  indexOfStr V1.FENCE (pre ++ (LBRACE :: body ++ [RBRACE]) ++ post) = None ->
  JSON_parse (V1.clean (pre ++ (LBRACE :: body ++ [RBRACE]) ++ post)) = None ->
  V1.bracket_parse (V1.clean (pre ++ (LBRACE :: body ++ [RBRACE]) ++ post))
  = None ->
  V1.extractJson (pre ++ (LBRACE :: body ++ [RBRACE]) ++ post) = VArr [v].
Proof.
  intros Hspan Hobj Hpre Hpost Hfence.
  assert (Et : pre ++ (LBRACE :: body ++ [RBRACE]) ++ post
               = pre ++ LBRACE :: body ++ RBRACE :: post)
    by (simpl; now rewrite <- app_assoc).
  rewrite Et in *. intros Hdirect Hbracket.
  rewrite V1_extractJson_cleaned by (now destruct pre).
  unfold V1.extract_cleaned. rewrite Hdirect, Hbracket.
  rewrite (V1_clean_no_fence _ Hfence).
  destruct (V1_clean_frames LBRACE RBRACE (or_intror eq_refl)
              (or_intror eq_refl) pre body post)
    as (pre' & post' & Ec & Hi & Hi').
  cbv beta in Ec. rewrite Ec.
  assert (Hl : layout (pre' ++ (LBRACE :: body ++ [RBRACE]) ++ post')
                 [LBRACE :: body ++ [RBRACE]]).
  { apply layout_span; [eapply not_in_incl; eassumption | exact Hspan |].
    apply layout_plain. eapply not_in_incl; eassumption. }
  replace (pre' ++ LBRACE :: body ++ RBRACE :: post')
    with (pre' ++ (LBRACE :: body ++ [RBRACE]) ++ post')
    by (simpl; now rewrite <- app_assoc).
  rewrite sequential_objects_from, (objects_from_layout _ _ Hl).
  cbn [firstn flat_map].
  unfold kept. rewrite Hobj.
  pose proof (JSON_parse_brace_object _ _ Hobj) as Ho.
  destruct v; try discriminate. reflexivity.
Qed.

Lemma X6_witness :
  (closed_span (LBRACE :: qlit "'title':'A','summary':'B'" ++ [RBRACE])
   /\ JSON_parse (LBRACE :: qlit "'title':'A','summary':'B'" ++ [RBRACE])
      = Some (VObj [(K_title, VStr (lit "A")); (K_summary, VStr (lit "B"))])
   /\ ~ In LBRACE (lit "Result: ") /\ ~ In LBRACE (lit " (end)")
   /\ indexOfStr V1.FENCE
        (lit "Result: "
         ++ (LBRACE :: qlit "'title':'A','summary':'B'" ++ [RBRACE])
         ++ lit " (end)") = None
   /\ JSON_parse (V1.clean (lit "Result: "
                    ++ (LBRACE :: qlit "'title':'A','summary':'B'" ++ [RBRACE])
                    ++ lit " (end)")) = None
   /\ V1.bracket_parse (V1.clean (lit "Result: "
                    ++ (LBRACE :: qlit "'title':'A','summary':'B'" ++ [RBRACE])
                    ++ lit " (end)")) = None)
  /\ V1.extractJson (lit "Result: "
                     ++ (LBRACE :: qlit "'title':'A','summary':'B'" ++ [RBRACE])
                     ++ lit " (end)")
     = VArr [VObj [(K_title, VStr (lit "A")); (K_summary, VStr (lit "B"))]].
Proof.
  assert (H0 : closed_span
                 (LBRACE :: qlit "'title':'A','summary':'B'" ++ [RBRACE]))
    by (split; reflexivity).
  assert (H1 : JSON_parse (LBRACE :: qlit "'title':'A','summary':'B'" ++ [RBRACE])
               = Some (VObj [(K_title, VStr (lit "A"));
                             (K_summary, VStr (lit "B"))]))
    by (vm_compute; reflexivity).
  assert (H2 : ~ In LBRACE (lit "Result: "))
    by (apply not_in_by_eqb; reflexivity).
  assert (H3 : ~ In LBRACE (lit " (end)"))
    by (apply not_in_by_eqb; reflexivity).
  assert (H4 : indexOfStr V1.FENCE
                 (lit "Result: "
                  ++ (LBRACE :: qlit "'title':'A','summary':'B'" ++ [RBRACE])
                  ++ lit " (end)") = None) by (vm_compute; reflexivity).
  assert (H5 : JSON_parse (V1.clean (lit "Result: "
                 ++ (LBRACE :: qlit "'title':'A','summary':'B'" ++ [RBRACE])
                 ++ lit " (end)")) = None) by (vm_compute; reflexivity).
  assert (H6 : V1.bracket_parse (V1.clean (lit "Result: "
                 ++ (LBRACE :: qlit "'title':'A','summary':'B'" ++ [RBRACE])
                 ++ lit " (end)")) = None) by (vm_compute; reflexivity).
  split; [repeat split; assumption|].
  exact (X6_lone_object_becomes_array (lit "Result: ")
           (qlit "'title':'A','summary':'B'") (lit " (end)") _
           H0 H1 H2 H3 H4 H5 H6).
Defined.

(** ** What the fetch functions make of the parsed records *)

Lemma validLinks_nonempty (chunks : list (option jsstring)) (u : jsstring) :
  In u (validLinks chunks) -> u <> [].
Proof.
  unfold validLinks. intros H. apply in_flat_map in H as (c & _ & Hc).
  destruct c as [[|x s]|]; simpl in Hc; try contradiction.
  destruct Hc as [<- | []]. discriminate.
Qed.

Lemma array_map_throw f items k i x :
  nth_error items i = Some x -> f x (k + i) = Throw ->
  array_map f items k = Throw.
Proof.
  revert k i. induction items as [|y items IH]; intros k i Hn Hf.
  - destruct i; discriminate.
  - simpl. destruct i as [|i]; simpl in Hn.
    + injection Hn as ->. rewrite Nat.add_0_r in Hf. now rewrite Hf.
    + destruct (f y k); [|reflexivity].
      rewrite (IH (S k) i Hn); [reflexivity|].
      now rewrite Nat.add_succ_l, <- Nat.add_succ_r.
Qed.

Lemma V1_fetch_mapped h r items :
  V1.normalize (V1.PARSE_TITLE, V1.PARSE_SUMMARY)
    (V1.extractJson (text_or [] r)) = inl (VArr items) ->
  V1.fetchNewsFromAgent h (Normal r) =
    match array_map (V1.attach_link h (validLinks (groundingChunks r))) items 0
    with
    | Normal l => Normal l
    | Throw => Normal [notice V1.COMM_TITLE V1.COMM_SUMMARY]
    end.
Proof.
  intros Hn. unfold V1.fetchNewsFromAgent, V1.fetchNewsFromAgent_try.
  now rewrite Hn.
Qed.

Lemma attach_link_fields h links article index rec :
  V1.attach_link h links article index = Normal rec ->
  (forall k, Js.eqb K_sourceUrl k = false -> Js.eqb K_sourceName k = false ->
     get rec k = get (VObj (spread article)) k)
  /\ (length links <= index -> get rec K_sourceName = VStr V1.WEB_SOURCE)
  /\ (forall u host, nth_error links index = Some u -> u <> [] ->
        h u = Some host ->
        get rec K_sourceName = VStr (remove_first (lit "www.") host)).
Proof.
  unfold V1.attach_link. intros H.
  assert (Hurl : (if index <? length links then nth_error links index else None)
                 = nth_error links index).
  { destruct (index <? length links) eqn:E; [reflexivity|].
    apply Nat.ltb_ge in E. symmetry. now apply nth_error_None. }
  rewrite Hurl in H.
  destruct (match nth_error links index with
            | Some (c :: u) => source_host h (c :: u)
            | _ => Normal (VStr V1.WEB_SOURCE)
            end) as [name|] eqn:En; [|discriminate].
  injection H as <-. repeat split.
  - intros k H1 H2. simpl.
    rewrite lookup_set_prop_other by exact H2.
    now rewrite lookup_set_prop_other by exact H1.
  - intros Hle. apply nth_error_None in Hle. rewrite Hle in En.
    injection En as <-. simpl. now rewrite lookup_set_prop_same.
  - intros u host Hu Hne Hh. rewrite Hu in En.
    destruct u as [|c u]; [contradiction|].
    unfold source_host in En. rewrite Hh in En. injection En as <-.
    simpl. now rewrite lookup_set_prop_same.
Qed.

(** X7.  Plain search of the first revision, when the parsed value is an
    array: unless the mapping throws (and the error record is returned),
    the result has one record per element, in the same order; record [i]
    keeps every own property of element [i] other than [sourceUrl] and
    [sourceName]; its [sourceName] is the fixed web-source label when the
    index has no link, and the link's host name without its first "www."
    when it has one. *)
Theorem X7_plain_search_record_by_record h r items l :
  V1.normalize (V1.PARSE_TITLE, V1.PARSE_SUMMARY)
    (V1.extractJson (text_or [] r)) = inl (VArr items) ->
  V1.fetchNewsFromAgent h (Normal r) = Normal l ->
  l = [notice V1.COMM_TITLE V1.COMM_SUMMARY]
  \/ (length l = length items
      /\ forall i rec, nth_error l i = Some rec ->
         exists article,
           nth_error items i = Some article
           /\ (forall k, Js.eqb K_sourceUrl k = false ->
                 Js.eqb K_sourceName k = false ->
                 get rec k = get (VObj (spread article)) k)
           /\ (length (validLinks (groundingChunks r)) <= i ->
                 get rec K_sourceName = VStr V1.WEB_SOURCE)
           /\ (forall u host,
                 nth_error (validLinks (groundingChunks r)) i = Some u ->
                 h u = Some host ->
                 get rec K_sourceName
                 = VStr (remove_first (lit "www.") host))).
Proof.
  intros Hn Hf. rewrite (V1_fetch_mapped h r items Hn) in Hf.
  destruct (array_map _ items 0) as [l'|] eqn:Em.
  - injection Hf as <-. right.
    apply array_map_nth in Em as [Hlen Hnth]. split; [exact Hlen|].
    intros i rec Hi. destruct (Hnth _ _ Hi) as (article & Ha & Hrec).
    exists article. split; [exact Ha|]. simpl in Hrec.
    destruct (attach_link_fields _ _ _ _ _ Hrec) as (H1 & H2 & H3).
    repeat split; [exact H1 | exact H2 |].
    intros u host Hu Hh. apply (H3 u host Hu); [|exact Hh].
    eapply validLinks_nonempty, nth_error_In. eassumption.
  - injection Hf as <-. now left.
Qed.

Lemma X7_witness :
  (V1.normalize (V1.PARSE_TITLE, V1.PARSE_SUMMARY)
     (V1.extractJson (text_or [] (reply prioritized [link_a])))
   = inl (VArr [VObj [(K_title, VStr (lit "A"));
                      (K_priority, VStr (lit "High"))]])
   /\ V1.fetchNewsFromAgent host_of_link_a (Normal (reply prioritized [link_a]))
      = Normal [VObj [(K_title, VStr (lit "A"));
                      (K_priority, VStr (lit "High"));
                      (K_sourceUrl, VStr link_a);
                      (K_sourceName, VStr (lit "news.example"))]])
  /\ ([VObj [(K_title, VStr (lit "A")); (K_priority, VStr (lit "High"));
             (K_sourceUrl, VStr link_a);
             (K_sourceName, VStr (lit "news.example"))]]
      = [notice V1.COMM_TITLE V1.COMM_SUMMARY]
      \/ length [VObj [(K_title, VStr (lit "A"));
                       (K_priority, VStr (lit "High"));
                       (K_sourceUrl, VStr link_a);
                       (K_sourceName, VStr (lit "news.example"))]]
         = length [VObj [(K_title, VStr (lit "A"));
                         (K_priority, VStr (lit "High"))]]).
Proof.
  assert (H1 : V1.normalize (V1.PARSE_TITLE, V1.PARSE_SUMMARY)
                 (V1.extractJson (text_or [] (reply prioritized [link_a])))
               = inl (VArr [VObj [(K_title, VStr (lit "A"));
                                  (K_priority, VStr (lit "High"))]]))
    by (vm_compute; reflexivity).
  assert (H2 : V1.fetchNewsFromAgent host_of_link_a
                 (Normal (reply prioritized [link_a]))
               = Normal [VObj [(K_title, VStr (lit "A"));
                               (K_priority, VStr (lit "High"));
                               (K_sourceUrl, VStr link_a);
                               (K_sourceName, VStr (lit "news.example"))]])
    by (vm_compute; reflexivity).
  split; [split; assumption|].
  destruct (X7_plain_search_record_by_record host_of_link_a
              (reply prioritized [link_a]) _ _ H1 H2) as [E | [E _]];
    [left; exact E | right; exact E].
Defined.

Lemma shape_exact h links article index rec :
  V2.shape h links article index = Normal rec ->
  get rec K_title = or_else (get article K_title) (VStr V2.NO_TITLE)
  /\ get rec K_summary = or_else (get article K_summary) (VStr [])
  /\ get rec K_category = or_else (get article K_category) (VStr GENERAL)
  /\ get rec K_publishedAt
     = or_else (get article K_publishedAt) (VStr V2.RECENT)
  /\ (forall k, existsb (Js.eqb k) shaped_keys = false ->
        get rec k = VUndefined).
Proof.
  unfold V2.shape. intros H.
  destruct (member article K_title) as [title|] eqn:Et; [|discriminate].
  assert (Etitle : title = get article K_title).
  { unfold member in Et. destruct article; try discriminate;
      now injection Et as <-. }
  destruct (match link_cycled links index with
            | Some (c :: u) => source_host h (c :: u)
            | _ => Normal VUndefined
            end) as [name|]; [|discriminate].
  injection H as <-. subst title.
  repeat split. intros k Hk. unfold shaped_keys in Hk.
  cbn [existsb] in Hk.
  repeat (apply orb_false_iff in Hk as [?E Hk]).
  unfold get. cbn [lookup].
  rewrite (eqb_sym K_title), (eqb_sym K_summary), (eqb_sym K_category),
    (eqb_sym K_publishedAt), (eqb_sym K_sourceUrl), (eqb_sym K_sourceName).
  now rewrite E, E0, E1, E2, E3, E4.
Qed.

(** X8.  Plain search of the second revision, unless the mapping throws:
    the result has one record per article, in order; in record [i] each of
    the four required fields is the article's own value when that is
    truthy and the fixed default otherwise; and the record has no property
    beyond the six it is built with, so that a [priority] (or any other
    extra field) of the parsed article never reaches the caller. *)
Theorem X8_shaped_record_by_record h r l :
  V2.fetchNewsFromAgent_try h r = Normal l ->
  length l = length (V2.normalize (V2.extractJson (text_or [] r)))
  /\ forall i rec, nth_error l i = Some rec ->
     exists article,
       nth_error (V2.normalize (V2.extractJson (text_or [] r))) i
       = Some article
       /\ get rec K_title = or_else (get article K_title) (VStr V2.NO_TITLE)
       /\ get rec K_summary = or_else (get article K_summary) (VStr [])
       /\ get rec K_category
          = or_else (get article K_category) (VStr GENERAL)
       /\ get rec K_publishedAt
          = or_else (get article K_publishedAt) (VStr V2.RECENT)
       /\ get rec K_priority = VUndefined.
Proof.
  unfold V2.fetchNewsFromAgent_try. intros H.
  apply array_map_nth in H as [Hlen Hnth]. split; [exact Hlen|].
  intros i rec Hi. destruct (Hnth _ _ Hi) as (article & Ha & Hs).
  exists article. split; [exact Ha|].
  destruct (shape_exact _ _ _ _ _ Hs) as (H1 & H2 & H3 & H4 & H5).
  repeat split; try assumption. now apply H5.
Qed.

Lemma X8_witness :
  V2.fetchNewsFromAgent_try no_url (reply prioritized [])
  = Normal [VObj [(K_title, VStr (lit "A")); (K_summary, VStr []);
                  (K_category, VStr GENERAL);
                  (K_publishedAt, VStr V2.RECENT);
                  (K_sourceUrl, VUndefined); (K_sourceName, VUndefined)]]
  /\ length [VObj [(K_title, VStr (lit "A")); (K_summary, VStr []);
                   (K_category, VStr GENERAL);
                   (K_publishedAt, VStr V2.RECENT);
                   (K_sourceUrl, VUndefined); (K_sourceName, VUndefined)]]
     = length (V2.normalize
                 (V2.extractJson (text_or [] (reply prioritized [])))).
Proof.
  assert (H : V2.fetchNewsFromAgent_try no_url (reply prioritized [])
              = Normal [VObj [(K_title, VStr (lit "A")); (K_summary, VStr []);
                              (K_category, VStr GENERAL);
                              (K_publishedAt, VStr V2.RECENT);
                              (K_sourceUrl, VUndefined);
                              (K_sourceName, VUndefined)]])
    by (vm_compute; reflexivity).
  split; [exact H|].
  exact (proj1 (X8_shaped_record_by_record no_url (reply prioritized []) _ H)).
Defined.

(** X9.  One link whose URL does not parse costs the whole result: when a
    record is given a link for which [new URL] throws, plain search returns
    the single error record instead of any article, in both revisions. *)
Theorem X9_unparsable_link_discards_all h r :
  (forall items i article u,
      V1.normalize (V1.PARSE_TITLE, V1.PARSE_SUMMARY)
        (V1.extractJson (text_or [] r)) = inl (VArr items) ->
      nth_error items i = Some article ->
      nth_error (validLinks (groundingChunks r)) i = Some u ->
      h u = None ->
      V1.fetchNewsFromAgent h (Normal r)
      = Normal [notice V1.COMM_TITLE V1.COMM_SUMMARY])
  /\ (forall i article u,
      nth_error (V2.normalize (V2.extractJson (text_or [] r))) i
      = Some article ->
      link_cycled (validLinks (groundingChunks r)) i = Some u ->
      h u = None ->
      V2.fetchNewsFromAgent h (Normal r)
      = Normal [notice V2.ERR_TITLE V2.ERR_SUMMARY]).
Proof.
  split.
  - intros items i article u Hn Ha Hu Hh.
    rewrite (V1_fetch_mapped h r items Hn).
    rewrite (array_map_throw _ items 0 i article Ha); [reflexivity|].
    simpl. unfold V1.attach_link.
    assert (Hi : (i <? length (validLinks (groundingChunks r))) = true).
    { apply Nat.ltb_lt, nth_error_Some. congruence. }
    rewrite Hi, Hu.
    pose proof (validLinks_nonempty _ _ (nth_error_In _ _ Hu)) as Hne.
    destruct u as [|c u]; [contradiction|].
    unfold source_host. now rewrite Hh.
  - intros i article u Ha Hu Hh.
    unfold V2.fetchNewsFromAgent, V2.fetchNewsFromAgent_try.
    rewrite (array_map_throw _ _ 0 i article Ha); [reflexivity|].
    simpl. unfold V2.shape. rewrite Hu.
    assert (Hne : u <> []).
    { unfold link_cycled in Hu.
      destruct (validLinks (groundingChunks r)) eqn:E; [discriminate|].
      rewrite <- E in Hu. eapply validLinks_nonempty, nth_error_In.
      eassumption. }
    destruct u as [|c u]; [contradiction|].
    destruct (member article K_title); [|reflexivity].
    unfold source_host. now rewrite Hh.
Qed.

Lemma X9_witness :
  (V1.normalize (V1.PARSE_TITLE, V1.PARSE_SUMMARY)
     (V1.extractJson (text_or [] (reply two_titles [link_a; link_b])))
   = inl (VArr two_items)
   /\ nth_error two_items 1 = Some (VObj [(K_title, VStr (lit "B"))])
   /\ nth_error (validLinks (groundingChunks (reply two_titles [link_a; link_b])))
        1 = Some link_b
   /\ host_of_link_a link_b = None)
  /\ V1.fetchNewsFromAgent host_of_link_a
       (Normal (reply two_titles [link_a; link_b]))
     = Normal [notice V1.COMM_TITLE V1.COMM_SUMMARY].
Proof.
  assert (H1 : V1.normalize (V1.PARSE_TITLE, V1.PARSE_SUMMARY)
                 (V1.extractJson
                    (text_or [] (reply two_titles [link_a; link_b])))
               = inl (VArr two_items)) by (vm_compute; reflexivity).
  assert (H2 : nth_error two_items 1 = Some (VObj [(K_title, VStr (lit "B"))]))
    by reflexivity.
  assert (H3 : nth_error
                 (validLinks
                    (groundingChunks (reply two_titles [link_a; link_b]))) 1
               = Some link_b) by reflexivity.
  assert (H4 : host_of_link_a link_b = None) by reflexivity.
  split; [repeat split; assumption|].
  exact (proj1 (X9_unparsable_link_discards_all host_of_link_a
                  (reply two_titles [link_a; link_b]))
           two_items 1 _ link_b H1 H2 H3 H4).
Defined.

(** X10.  A null among the parsed articles costs the whole result in the
    second revision: plain search reads [article.title] of it, which
    throws, and the single error record is returned instead of any
    article. *)
Theorem X10_null_article h r :
  In VNull (V2.normalize (V2.extractJson (text_or [] r))) ->
  V2.fetchNewsFromAgent h (Normal r)
  = Normal [notice V2.ERR_TITLE V2.ERR_SUMMARY].
Proof.
  intros Hin. apply In_nth_error in Hin as [i Hi].
  unfold V2.fetchNewsFromAgent, V2.fetchNewsFromAgent_try.
  now rewrite (array_map_throw _ _ 0 i VNull Hi).
Qed.

Lemma X10_witness :
  In VNull (V2.normalize (V2.extractJson (text_or [] (reply with_null []))))
  /\ V2.fetchNewsFromAgent no_url (Normal (reply with_null []))
     = Normal [notice V2.ERR_TITLE V2.ERR_SUMMARY].
Proof.
  assert (H : In VNull (V2.normalize
                          (V2.extractJson (text_or [] (reply with_null [])))))
    by (vm_compute; right; left; reflexivity).
  split; [exact H|].
  exact (X10_null_article no_url (reply with_null []) H).
Defined.

(** X11.  [analyzeImage] rejects exactly when the collaborator call fails.
    Whenever the call resolves, whatever its text, the promise resolves
    with a record whose [title], [summary], [category] and [publishedAt]
    are all defined, in both revisions. *)
Theorem X11_analyzeImage_record (call : completion response) :
  (V1.analyzeImage call = Throw <-> call = Throw)
  /\ (V2.analyzeImage call = Throw <-> call = Throw)
  /\ (forall r, call = Normal r ->
      exists rec1 rec2,
        V1.analyzeImage call = Normal rec1
        /\ V2.analyzeImage call = Normal rec2
        /\ forall k, In k [K_title; K_summary; K_category; K_publishedAt] ->
             get rec1 k <> VUndefined /\ get rec2 k <> VUndefined).
Proof.
  split; [|split].
  - destruct call as [r|]; [|now split].
    assert (H : V1.analyzeImage (Normal r) <> Throw)
      by (unfold V1.analyzeImage; destruct (truthy _); discriminate).
    split; [intros E; now elim H | discriminate].
  - destruct call as [r|]; [|now split].
    split; [unfold V2.analyzeImage|]; discriminate.
  - intros r ->. unfold V1.analyzeImage, V2.analyzeImage.
    destruct (truthy
                match V1.extractJson (text_or (lit "{}") r) with
                | VArr items => nth 0 items VUndefined
                | _ => V1.extractJson (text_or (lit "{}") r)
                end);
      eexists; eexists; (split; [reflexivity|]); (split; [reflexivity|]);
      intros k [<- | [<- | [<- | [<- | []]]]]; split;
      cbn [get lookup]; try apply or_else_defined; try discriminate;
      vm_compute; discriminate.
Qed.

Lemma X11_witness :
  exists rec1 rec2,
    V1.analyzeImage (Normal (reply (lit "not json at all") [])) = Normal rec1
    /\ V2.analyzeImage (Normal (reply (lit "not json at all") []))
       = Normal rec2
    /\ forall k, In k [K_title; K_summary; K_category; K_publishedAt] ->
         get rec1 k <> VUndefined /\ get rec2 k <> VUndefined.
Proof.
  exact (proj2 (proj2 (X11_analyzeImage_record
                         (Normal (reply (lit "not json at all") []))))
           _ eq_refl).
Defined.

Lemma attach_cycled_sourceName links a i rec :
  V1.attach_cycled links a i = Normal rec ->
  get rec K_sourceName = VStr V1.DEEP_SOURCE.
Proof.
  unfold V1.attach_cycled. intros H. injection H as <-. simpl.
  now rewrite lookup_set_prop_same.
Qed.

Lemma V2_attach_cycled_sourceName links a i rec :
  V2.attach_cycled links a i = Normal rec ->
  get rec K_sourceName = VStr V2.DEEP_SOURCE.
Proof.
  unfold V2.attach_cycled. intros H. injection H as <-. simpl.
  now rewrite lookup_set_prop_same.
Qed.

(** X12.  [fetchDeepResearch] always resolves.  In the first revision the
    result is the one record of a failed analysis (collaborator failure, or
    a value under [news] or [articles] that is no array), the one record
    of an unavailable analysis (nothing usable parsed), or one record per
    parsed element, each with the fixed source name.  In the second
    revision there is no second kind of record: when nothing usable is
    parsed the result is empty. *)
Theorem X12_deep_research_results (call : completion response) :
  (exists l, V1.fetchDeepResearch call = Normal l
     /\ (l = [notice V1.DEEP_ERR_TITLE V1.DEEP_ERR_SUMMARY]
         \/ l = [notice V1.DEEP_NA_TITLE V1.DEEP_NA_SUMMARY]
         \/ forall rec, In rec l ->
              get rec K_sourceName = VStr V1.DEEP_SOURCE))
  /\ (exists l, V2.fetchDeepResearch call = Normal l
     /\ (l = [notice V2.DEEP_ERR_TITLE V2.DEEP_ERR_SUMMARY]
         \/ forall rec, In rec l ->
              get rec K_sourceName = VStr V2.DEEP_SOURCE))
  /\ (forall r, call = Normal r ->
      V2.extractJson (text_or [] r) = VNull ->
      V2.fetchDeepResearch call = Normal []).
Proof.
  repeat apply conj.
  - unfold V1.fetchDeepResearch. destruct call as [r|]; [|eauto].
    unfold V1.fetchDeepResearch_try.
    destruct (V1.normalize _ _) as [articles | early] eqn:En.
    + destruct (call_map articles _) as [l|] eqn:Em; [|eauto].
      exists l. split; [reflexivity|]. right. right.
      destruct articles; try discriminate. simpl in Em.
      apply array_map_nth in Em as [_ Hnth].
      intros rec Hin. apply In_nth_error in Hin as [i Hi].
      destruct (Hnth _ _ Hi) as (x & _ & Hx).
      eapply attach_cycled_sourceName. eassumption.
    + exists early. split; [reflexivity|]. right. left.
      unfold V1.normalize in En.
      destruct (negb _ || negb _); [|discriminate].
      destruct (truthy _ && truthy _); [discriminate|].
      destruct (truthy _ && truthy _); [discriminate|].
      now injection En as <-.
  - unfold V2.fetchDeepResearch. destruct call as [r|]; [|eauto].
    unfold V2.fetchDeepResearch_try.
    destruct (call_map _ _) as [l|] eqn:Em; [|eauto].
    exists l. split; [reflexivity|]. right.
    destruct (V2.deep_articles _); try discriminate. simpl in Em.
    apply array_map_nth in Em as [_ Hnth].
    intros rec Hin. apply In_nth_error in Hin as [i Hi].
    destruct (Hnth _ _ Hi) as (x & _ & Hx).
    eapply V2_attach_cycled_sourceName. eassumption.
  - intros r -> Hn. unfold V2.fetchDeepResearch, V2.fetchDeepResearch_try.
    now rewrite Hn.
Qed.

Lemma X12_witness :
  V2.extractJson (text_or [] (reply (lit "no data today") [])) = VNull
  /\ V2.fetchDeepResearch (Normal (reply (lit "no data today") []))
     = Normal [].
Proof.
  assert (H : V2.extractJson (text_or [] (reply (lit "no data today") []))
              = VNull) by (vm_compute; reflexivity).
  split; [exact H|].
  exact (proj2 (proj2 (X12_deep_research_results
                         (Normal (reply (lit "no data today") []))))
           _ eq_refl H).
Defined.

(** ** Invariants of the component *)

(** X13.  The callback of the refresh interval never works on stale
    values: in every state the component can reach, the live interval (if
    any) closed over the current [isScanning] and the current topic, and an
    interval is live exactly when refreshing is switched on. *)
Theorem X13_interval_sees_current_state :
  (forall s, App2.reachable s ->
     App2.refreshTimer s =
       if App2.mode_eqb (App2.refreshMode s) App2.manual then None
       else Some {| App2.period := App2.REFRESH_INTERVALS (App2.refreshMode s);
                    App2.seen_isScanning := isScanning (App2.agentState s);
                    App2.seen_topic := App2.currentTopic s |})
  /\ (forall s, App1.reachable s ->
     App1.refreshTimer s =
       if App1.isAutoRefresh s then
         Some {| App1.seen_isScanning := isScanning (App1.agentState s);
                 App1.seen_topic := App1.currentTopic s |}
       else None).
Proof.
  split; intros s H.
  - now apply App2_reachable_in_sync.
  - now apply App1_reachable_in_sync.
Qed.

Lemma X13_witness :
  App2.reachable app2_idle
  /\ App2.refreshTimer app2_idle
     = Some {| App2.period := 120000%N;
               App2.seen_isScanning := false;
               App2.seen_topic := App2.INITIAL_TOPIC |}.
Proof.
  assert (H : App2.reachable app2_idle).
  { eapply App2.reach_step with (s := app2_scanning) (now := 1%N)
                                (e := App2.FetchSettled (Normal []));
      [apply App2.reach_mount | reflexivity]. }
  split; [exact H|].
  exact (proj1 X13_interval_sees_current_state app2_idle H).
Defined.

Lemma App2_handle_next (now : N) (e : App2.event) (s : App2.State) :
  App2.refreshTimer s = None ->
  App2.nextRefreshTime (App2.handle now e s) = App2.nextRefreshTime s.
Proof.
  intros Ht.
  destruct e as [topic deep | outcome | | mode | reads | result | outcome];
    simpl; try reflexivity.
  - unfold App2.tick. now rewrite Ht.
  - now destruct reads.
  - now destruct result.
  - now destruct outcome.
Qed.

Lemma App2_manual_next (s : App2.State) :
  App2.reachable s ->
  App2.refreshMode s = App2.manual -> App2.nextRefreshTime s = 0%N.
Proof.
  induction 1 as [h m now | s now e s' Hr IH Hstep]; intros Hm.
  - unfold App2.mount, App2.agent_loop in *.
    destruct m as [[]|]; try discriminate. reflexivity.
  - unfold App2.step, App2.next in Hstep.
    destruct (App2.enabled e s); [|discriminate].
    injection Hstep as <-. unfold App2.commit, App2.agent_loop in *.
    destruct (App2.deps_changed s (App2.handle now e s)) eqn:Ed.
    + destruct (App2.mode_eqb _ _) eqn:Em; [reflexivity|].
      simpl in Hm. rewrite Hm in Em. discriminate.
    + apply App2_deps_unchanged in Ed as (Hmode & _ & _).
      rewrite <- Hmode in Hm.
      rewrite App2_handle_next; [now apply IH|].
      apply App2_reachable_in_sync in Hr. unfold App2.in_sync in Hr.
      now rewrite Hr, Hm.
Qed.

(** X14.  Switched off means off.  In every reachable state of the second
    revision whose refresh mode is [manual] no interval is live, so no tick
    can fire, and the next refresh time is 0; whatever the state, choosing
    [manual] leads to such a state.  In the first revision no tick can fire
    while auto-refresh is off. *)
Theorem X14_manual_mode_has_no_tick :
  (forall s, App2.reachable s -> App2.refreshMode s = App2.manual ->
     App2.refreshTimer s = None
     /\ App2.nextRefreshTime s = 0%N
     /\ forall now, App2.step now App2.Tick s = None)
  /\ (forall s now s',
     App2.reachable s ->
     App2.step now (App2.ModeChange App2.manual) s = Some s' ->
     App2.refreshMode s' = App2.manual /\ App2.reachable s')
  /\ (forall s, App1.reachable s -> App1.isAutoRefresh s = false ->
     forall now, App1.step now App1.Tick s = None).
Proof.
  repeat apply conj.
  - intros s Hr Hm.
    pose proof (App2_reachable_in_sync s Hr) as Hs.
    unfold App2.in_sync in Hs. rewrite Hm in Hs. simpl in Hs.
    repeat split; [exact Hs | now apply App2_manual_next |].
    intros now. unfold App2.step. simpl. now rewrite Hs.
  - intros s now s' Hr Hstep. split.
    + unfold App2.step, App2.next in Hstep. simpl in Hstep.
      injection Hstep as <-. unfold App2.commit, App2.agent_loop.
      destruct (App2.deps_changed _ _); [|reflexivity].
      now destruct (App2.mode_eqb _ _).
    + eapply App2.reach_step; eassumption.
  - intros s Hr Ha now.
    pose proof (App1_reachable_in_sync s Hr) as Hs.
    unfold App1.in_sync in Hs. rewrite Ha in Hs.
    unfold App1.step. simpl. now rewrite Hs.
Qed.

Lemma X14_witness :
  (App2.reachable (App2.next 5%N (App2.ModeChange App2.manual) app2_scanning)
   /\ App2.refreshMode
        (App2.next 5%N (App2.ModeChange App2.manual) app2_scanning)
      = App2.manual)
  /\ App2.step 7200005%N App2.Tick
       (App2.next 5%N (App2.ModeChange App2.manual) app2_scanning) = None.
Proof.
  assert (H : App2.reachable
                (App2.next 5%N (App2.ModeChange App2.manual) app2_scanning)).
  { eapply App2.reach_step with (s := app2_scanning) (now := 5%N)
                                (e := App2.ModeChange App2.manual);
      [apply App2.reach_mount | reflexivity]. }
  split; [split; [exact H | reflexivity]|].
  exact (proj2 (proj2 (proj1 X14_manual_mode_has_no_tick _ H eq_refl))
           7200005%N).
Defined.

Lemma App2_commit_history (now : N) (old new : App2.State) :
  App2.searchHistory (App2.commit now old new) = App2.searchHistory new
  /\ App2.calls (App2.commit now old new) = App2.calls new
  /\ App2.currentTopic (App2.commit now old new) = App2.currentTopic new.
Proof.
  unfold App2.commit, App2.agent_loop.
  destruct (App2.deps_changed old new); [destruct (App2.mode_eqb _ _)|];
    repeat split.
Qed.

Lemma App1_commit_history (old new : App1.State) :
  App1.searchHistory (App1.commit old new) = App1.searchHistory new
  /\ App1.calls (App1.commit old new) = App1.calls new
  /\ App1.currentTopic (App1.commit old new) = App1.currentTopic new.
Proof.
  unfold App1.commit, App1.auto_refresh.
  destruct (App1.deps_changed old new); [destruct (App1.isAutoRefresh _)|];
    repeat split.
Qed.

(** What a handler does to the history: nothing, or one recorded topic. *)
Lemma App2_handle_history (now : N) (e : App2.event) (s : App2.State) :
  App2.searchHistory (App2.handle now e s) = App2.searchHistory s
  \/ exists topic,
       App2.searchHistory (App2.handle now e s)
       = App2.newH topic (App2.searchHistory s).
Proof.
  destruct e as [topic deep | outcome | | mode | reads | result | outcome];
    simpl; try (now left).
  - destruct (recorded topic); [right; now exists topic | now left].
  - unfold App2.tick. destruct (App2.refreshTimer s) as [t|]; [|now left].
    destruct (negb (App2.seen_isScanning t)); [|now left]. simpl.
    destruct (recorded (App2.seen_topic t));
      [right; now exists (App2.seen_topic t) | now left].
  - destruct reads; now left.
  - destruct result; now left.
  - destruct outcome; now left.
Qed.

Lemma App1_handle_history (now : N) (e : App1.event) (s : App1.State) :
  App1.searchHistory (App1.handle now e s) = App1.searchHistory s
  \/ exists topic,
       App1.searchHistory (App1.handle now e s)
       = App1.newHistory topic (App1.searchHistory s).
Proof.
  destruct e as [topic deep | outcome | | | reads | result | outcome];
    simpl; try (now left).
  - destruct (recorded topic); [right; now exists topic | now left].
  - destruct outcome; now left.
  - unfold App1.tick. destruct (App1.refreshTimer s) as [t|]; [|now left].
    destruct (negb (App1.seen_isScanning t)
              && negb (startsWith IMAGE_ANALYSIS (App1.seen_topic t)));
      [|now left]. simpl.
    destruct (recorded (App1.seen_topic t));
      [right; now exists (App1.seen_topic t) | now left].
  - destruct reads; now left.
  - destruct result; now left.
  - destruct outcome; now left.
Qed.

Lemma App2_mount_history h m now :
  App2.searchHistory (App2.mount h m now)
  = App2.newH App2.INITIAL_TOPIC (match h with Some l => l | None => [] end).
Proof.
  unfold App2.mount, App2.agent_loop.
  now destruct (App2.mode_eqb _ _).
Qed.

Lemma App1_mount_history h :
  App1.searchHistory (App1.mount h)
  = App1.newHistory App1.INITIAL_TOPIC
      (match h with Some l => l | None => [] end).
Proof. reflexivity. Qed.

(** X15.  The history is bounded in every state the component can reach,
    whatever the local storage held at start: at most 10 entries in the
    second revision and at most 50 in the first.  Mounting already runs
    one recorded search, which cuts a longer saved list. *)
Theorem X15_history_always_bounded :
  (forall s, App2.reachable s -> length (App2.searchHistory s) <= 10)
  /\ (forall s, App1.reachable s -> length (App1.searchHistory s) <= 50).
Proof.
  split.
  - induction 1 as [h m now | s now e s' _ IH Hstep].
    + rewrite App2_mount_history. apply firstn_le_length.
    + unfold App2.step, App2.next in Hstep.
      destruct (App2.enabled e s); [|discriminate].
      injection Hstep as <-.
      rewrite (proj1 (App2_commit_history now s (App2.handle now e s))).
      destruct (App2_handle_history now e s) as [-> | [topic ->]];
        [exact IH | apply firstn_le_length].
  - induction 1 as [h | s now e s' _ IH Hstep].
    + rewrite App1_mount_history. apply firstn_le_length.
    + unfold App1.step, App1.next in Hstep.
      destruct (App1.enabled e s); [|discriminate].
      injection Hstep as <-.
      rewrite (proj1 (App1_commit_history s (App1.handle now e s))).
      destruct (App1_handle_history now e s) as [-> | [topic ->]];
        [exact IH | apply firstn_le_length].
Qed.

Lemma X15_witness :
  App2.reachable
    (App2.mount (Some (repeat sports 40)) (Some App2.rapid) 0%N)
  /\ length (App2.searchHistory
               (App2.mount (Some (repeat sports 40)) (Some App2.rapid) 0%N))
     <= 10.
Proof.
  assert (H : App2.reachable
                (App2.mount (Some (repeat sports 40)) (Some App2.rapid) 0%N))
    by apply App2.reach_mount.
  split; [exact H|].
  exact (proj1 X15_history_always_bounded _ H).
Defined.

Lemma NoDup_firstn (A : Type) (n : nat) (l : list A) :
  NoDup l -> NoDup (firstn n l).
Proof.
  intros H. rewrite <- (firstn_skipn n l) in H.
  eapply NoDup_app_remove_r. eassumption.
Qed.

Lemma NoDup_newH (topic : jsstring) (prev : list jsstring) :
  NoDup prev -> NoDup (App2.newH topic prev).
Proof.
  intros H. unfold App2.newH. apply NoDup_firstn. constructor.
  - intros Hin. apply filter_In in Hin as [_ Hf].
    now rewrite neqb_refl in Hf.
  - now apply NoDup_filter.
Qed.

(** X16.  Second revision: recording a topic never introduces a
    duplicate.  If the saved history has no duplicate, the mounted
    component has none, and every event keeps it that way. *)
Theorem X16_history_stays_duplicate_free :
  (forall saved mode now,
      NoDup saved ->
      NoDup (App2.searchHistory (App2.mount (Some saved) mode now)))
  /\ (forall s now e s',
      NoDup (App2.searchHistory s) ->
      App2.step now e s = Some s' ->
      NoDup (App2.searchHistory s')).
Proof.
  split.
  - intros saved mode now H. rewrite App2_mount_history.
    now apply NoDup_newH.
  - intros s now e s' H Hstep. unfold App2.step, App2.next in Hstep.
    destruct (App2.enabled e s); [|discriminate].
    injection Hstep as <-.
    rewrite (proj1 (App2_commit_history now s (App2.handle now e s))).
    destruct (App2_handle_history now e s) as [-> | [topic ->]];
      [exact H | now apply NoDup_newH].
Qed.

Lemma X16_witness :
  (NoDup (App2.searchHistory app2_idle)
   /\ App2.step 2%N (App2.UpdateNews App2.INITIAL_TOPIC false) app2_idle
      = Some (App2.next 2%N (App2.UpdateNews App2.INITIAL_TOPIC false)
                app2_idle))
  /\ NoDup (App2.searchHistory
              (App2.next 2%N (App2.UpdateNews App2.INITIAL_TOPIC false)
                 app2_idle)).
Proof.
  assert (H1 : NoDup (App2.searchHistory app2_idle)).
  { change (App2.searchHistory app2_idle) with [App2.INITIAL_TOPIC].
    constructor; [intros [] | constructor]. }
  assert (H2 : App2.step 2%N (App2.UpdateNews App2.INITIAL_TOPIC false)
                 app2_idle
               = Some (App2.next 2%N
                         (App2.UpdateNews App2.INITIAL_TOPIC false) app2_idle))
    by reflexivity.
  split; [split; assumption|].
  exact (proj2 X16_history_stays_duplicate_free _ _ _ _ H1 H2).
Defined.

Lemma App2_handle_calls (now : N) (e : App2.event) (s : App2.State) :
  (App2.calls (App2.handle now e s) = App2.calls s
   /\ App2.currentTopic (App2.handle now e s) = App2.currentTopic s)
  \/ exists topic deep,
       App2.calls (App2.handle now e s) = App2.calls s ++ [(topic, deep)]
       /\ App2.currentTopic (App2.handle now e s) = topic.
Proof.
  destruct e as [topic deep | outcome | | mode | reads | result | outcome];
    simpl; try (now left).
  - right. now exists topic, deep.
  - unfold App2.tick. destruct (App2.refreshTimer s) as [t|]; [|now left].
    destruct (negb (App2.seen_isScanning t)); [|now left].
    right. now exists (App2.seen_topic t), false.
  - destruct reads; now left.
  - destruct result; now left.
  - destruct outcome; now left.
Qed.

Lemma App1_handle_calls (now : N) (e : App1.event) (s : App1.State) :
  (App1.calls (App1.handle now e s) = App1.calls s
   /\ App1.currentTopic (App1.handle now e s) = App1.currentTopic s)
  \/ exists topic deep,
       App1.calls (App1.handle now e s) = App1.calls s ++ [(topic, deep)]
       /\ App1.currentTopic (App1.handle now e s) = topic.
Proof.
  destruct e as [topic deep | outcome | | | reads | result | outcome];
    simpl; try (now left).
  - right. now exists topic, deep.
  - destruct outcome; now left.
  - unfold App1.tick. destruct (App1.refreshTimer s) as [t|]; [|now left].
    destruct (negb (App1.seen_isScanning t)
              && negb (startsWith IMAGE_ANALYSIS (App1.seen_topic t)));
      [|now left].
    right. now exists (App1.seen_topic t), false.
  - destruct reads; now left.
  - destruct result; now left.
  - destruct outcome; now left.
Qed.

(** X17.  The current topic is always the topic of the latest fetch: in
    every reachable state of either revision the last call of the fetch
    collaborator was made for [currentTopic], so a tick repeats the latest
    search, and an image upload, which starts no fetch, changes neither. *)
Theorem X17_current_topic_is_last_fetched :
  (forall s, App2.reachable s ->
     exists earlier deep,
       App2.calls s = earlier ++ [(App2.currentTopic s, deep)])
  /\ (forall s, App1.reachable s ->
     exists earlier deep,
       App1.calls s = earlier ++ [(App1.currentTopic s, deep)]).
Proof.
  split.
  - induction 1 as [h m now | s now e s' _ IH Hstep].
    + exists [], false. unfold App2.mount, App2.agent_loop.
      now destruct (App2.mode_eqb _ _).
    + unfold App2.step, App2.next in Hstep.
      destruct (App2.enabled e s); [|discriminate].
      injection Hstep as <-.
      destruct (App2_commit_history now s (App2.handle now e s))
        as (_ & -> & ->).
      destruct (App2_handle_calls now e s)
        as [[-> ->] | (topic & deep & -> & ->)]; [exact IH|].
      now exists (App2.calls s), deep.
  - induction 1 as [h | s now e s' _ IH Hstep].
    + exists [], false. reflexivity.
    + unfold App1.step, App1.next in Hstep.
      destruct (App1.enabled e s); [|discriminate].
      injection Hstep as <-.
      destruct (App1_commit_history s (App1.handle now e s))
        as (_ & -> & ->).
      destruct (App1_handle_calls now e s)
        as [[-> ->] | (topic & deep & -> & ->)]; [exact IH|].
      now exists (App1.calls s), deep.
Qed.

Lemma X17_witness :
  App2.reachable app2_ticked
  /\ exists earlier deep,
       App2.calls app2_ticked
       = earlier ++ [(App2.currentTopic app2_ticked, deep)].
Proof.
  assert (H : App2.reachable app2_ticked).
  { eapply App2.reach_step with (s := app2_idle) (now := 120001%N)
                                (e := App2.Tick); [|reflexivity].
    eapply App2.reach_step with (s := app2_scanning) (now := 1%N)
                                (e := App2.FetchSettled (Normal []));
      [apply App2.reach_mount | reflexivity]. }
  split; [exact H|].
  exact (proj1 X17_current_topic_is_last_fetched app2_ticked H).
Defined.

(** ** The search form *)

Lemma submitted_topic_cases (f : Panel.Form) :
  (trim (Panel.customTopic f) = []
   /\ Panel.submitted_topic f = Panel.DEFAULT_TOPIC)
  \/ (trim (Panel.customTopic f) <> []
      /\ Panel.submitted_topic f = trim (Panel.customTopic f)).
Proof.
  unfold Panel.submitted_topic.
  destruct (trim (Panel.customTopic f)) as [|c t]; [now left|].
  right. split; [discriminate | reflexivity].
Qed.

(** X18.  The form never submits a blank topic: [handleSubmit] calls
    [onUpdate] with the trimmed input, or with the fixed default topic when
    the input is blank, so the topic is never empty and has no white space
    at either end; the input is cleared.  Handed to [updateNews] of the
    second revision, such a topic becomes the first entry of the history
    and the current topic, unless it starts with "Image Analysis". *)
Theorem X18_form_submits_trimmed_topic (f : Panel.Form) :
  fst (fst (Panel.handleSubmit f)) <> []
  /\ trim (fst (fst (Panel.handleSubmit f))) = fst (fst (Panel.handleSubmit f))
  /\ Panel.customTopic (snd (Panel.handleSubmit f)) = []
  /\ (forall s s' now,
        startsWith IMAGE_ANALYSIS (fst (fst (Panel.handleSubmit f))) = false ->
        App2.step now (App2.UpdateNews (fst (fst (Panel.handleSubmit f)))
                         (snd (fst (Panel.handleSubmit f)))) s = Some s' ->
        hd_error (App2.searchHistory s') = Some (fst (fst (Panel.handleSubmit f)))
        /\ App2.currentTopic s' = fst (fst (Panel.handleSubmit f))).
Proof.
  cbn [Panel.handleSubmit fst snd Panel.customTopic].
  assert (Hne : Panel.submitted_topic f <> []).
  { destruct (submitted_topic_cases f) as [[_ ->] | [H ->]];
      [discriminate | exact H]. }
  repeat split; [exact Hne | | |].
  - destruct (submitted_topic_cases f) as [[_ ->] | [_ ->]];
      [reflexivity | apply trim_idem].
  - pose proof (App2_step_update _ _ _ _ _ H0) as [Hh _]. rewrite Hh.
    simpl. unfold recorded. destruct (Panel.submitted_topic f) as [|c t];
      [contradiction|]. now rewrite H.
  - unfold App2.step, App2.next in H0. simpl in H0. injection H0 as <-.
    now rewrite (proj2 (proj2 (App2_commit_history _ _ _))).
Qed.

Lemma X18_witness :
  (startsWith IMAGE_ANALYSIS
     (fst (fst (Panel.handleSubmit
                  {| Panel.customTopic := lit "  sports ";
                     Panel.isDeepSearch := false |}))) = false
   /\ App2.step 2%N
        (App2.UpdateNews
           (fst (fst (Panel.handleSubmit
                        {| Panel.customTopic := lit "  sports ";
                           Panel.isDeepSearch := false |})))
           (snd (fst (Panel.handleSubmit
                        {| Panel.customTopic := lit "  sports ";
                           Panel.isDeepSearch := false |})))) app2_idle
      = Some (App2.next 2%N (App2.UpdateNews sports false) app2_idle))
  /\ hd_error (App2.searchHistory
                 (App2.next 2%N (App2.UpdateNews sports false) app2_idle))
     = Some (fst (fst (Panel.handleSubmit
                         {| Panel.customTopic := lit "  sports ";
                            Panel.isDeepSearch := false |}))).
Proof.
  assert (H1 : startsWith IMAGE_ANALYSIS
                 (fst (fst (Panel.handleSubmit
                              {| Panel.customTopic := lit "  sports ";
                                 Panel.isDeepSearch := false |}))) = false)
    by reflexivity.
  assert (H2 : App2.step 2%N
                 (App2.UpdateNews
                    (fst (fst (Panel.handleSubmit
                                 {| Panel.customTopic := lit "  sports ";
                                    Panel.isDeepSearch := false |})))
                    (snd (fst (Panel.handleSubmit
                                 {| Panel.customTopic := lit "  sports ";
                                    Panel.isDeepSearch := false |}))))
                 app2_idle
               = Some (App2.next 2%N (App2.UpdateNews sports false) app2_idle))
    by reflexivity.
  split; [split; assumption|].
  exact (proj1 (proj2 (proj2 (proj2 (X18_form_submits_trimmed_topic
           {| Panel.customTopic := lit "  sports ";
              Panel.isDeepSearch := false |}))) _ _ _ H1 H2)).
Defined.
